(** * PyBaMM expression tree: state vectors and domain concatenations

    A shallow embedding of [pybamm/expression_tree/state_vector.py] and
    [pybamm/expression_tree/concatenations.py].

    Python exceptions are values of [exn]; a call that may raise returns a
    [result].  The names the prose specification gives to the error kinds
    map onto the exceptions the code raises as follows:
    InvalidArgumentError = [TypeError], SizeMismatchError = [ValueError],
    DomainConflictError = [DomainError] (pybamm.DomainError),
    UnsupportedOperationError = [NotImplementedError]. *)

From Stdlib Require Import String DecimalString ZArith Bool PeanoNat Lia List Permutation Sorted.
Import ListNotations.

Set Implicit Arguments.

(** ** Exceptions and fallible computations *)

Inductive exn : Type :=
| TypeError
| ValueError
| IndexError
| KeyError
| NotImplementedError
| DomainError.

Inductive result (A : Type) : Type :=
| Ok (a : A)
| Raise (e : exn).

Arguments Ok {A} a.
Arguments Raise {A} e.

Definition bind {A B : Type} (r : result A) (k : A -> result B) : result B :=
  match r with
  | Ok a => k a
  | Raise e => Raise e
  end.

Notation "x <- r ;; k" := (bind r (fun x => k))
  (at level 61, r at next level, right associativity).

(** A [for] loop whose body may raise: the state is threaded from left to
    right and the first exception stops the loop. *)
Fixpoint for_each {S X : Type} (body : S -> X -> result S) (xs : list X) (st : S)
  : result S :=
  match xs with
  | [] => Ok st
  | x :: xs' => st' <- body st x ;; for_each body xs' st'
  end.

(** A list comprehension whose element expression may raise. *)
Fixpoint map_result {X Y : Type} (f : X -> result Y) (xs : list X) : result (list Y) :=
  match xs with
  | [] => Ok []
  | x :: xs' => y <- f x ;; ys <- map_result f xs' ;; Ok (y :: ys)
  end.

(** ** Python sequences *)

(** [l[0]] and [l[-1]]: [IndexError] on an empty sequence. *)
Definition first_item {X : Type} (l : list X) : result X :=
  match l with
  | [] => Raise IndexError
  | x :: _ => Ok x
  end.

Fixpoint last_item {X : Type} (l : list X) : result X :=
  match l with
  | [] => Raise IndexError
  | [x] => Ok x
  | _ :: l' => last_item l'
  end.

(** [l[i]] for a non-negative [i]. *)
Definition getitem {X : Type} (l : list X) (i : nat) : result X :=
  match nth_error l i with
  | Some x => Ok x
  | None => Raise IndexError
  end.

(** [l.index(x)]: position of the first occurrence, [ValueError] if absent. *)
Fixpoint list_index (x : string) (l : list string) : result nat :=
  match l with
  | [] => Raise ValueError
  | y :: l' => if String.eqb x y then Ok 0 else i <- list_index x l' ;; Ok (S i)
  end.

(** ** Insertion-ordered dictionaries

    A Python [dict] keeps its keys in insertion order and the code below
    iterates over [.keys()], [.items()] and [.values()], so a dictionary is
    an association list with one entry per key, in insertion order. *)

Module Dict.
Section OrderedDict.
Variables K V : Type.
Variable eqb : K -> K -> bool.

Definition t : Type := list (K * V).

Definition empty : t := [].

(** [d.get(k)] *)
Fixpoint get (d : t) (k : K) : option V :=
  match d with
  | [] => None
  | (k', v) :: d' => if eqb k k' then Some v else get d' k
  end.

(** [d[k]]: [KeyError] when the key is missing. *)
Definition getitem (d : t) (k : K) : result V :=
  match get d k with
  | Some v => Ok v
  | None => Raise KeyError
  end.

(** [d[k] = v]: an existing key keeps its position, a new key goes last. *)
Fixpoint set (d : t) (k : K) (v : V) : t :=
  match d with
  | [] => [(k, v)]
  | (k', v') :: d' => if eqb k k' then (k', v) :: d' else (k', v') :: set d' k v
  end.

Definition keys (d : t) : list K := map fst d.
Definition values (d : t) : list V := map snd d.
Definition items (d : t) : list (K * V) := d.
End OrderedDict.
End Dict.

(** Dictionaries keyed by strings (domain names, auxiliary-domain levels). *)
Definition sdict (V : Type) : Type := Dict.t string V.
Definition sget {V : Type} (d : sdict V) (k : string) : option V := Dict.get String.eqb d k.
Definition sgetitem {V : Type} (d : sdict V) (k : string) : result V :=
  Dict.getitem String.eqb d k.
Definition sset {V : Type} (d : sdict V) (k : string) (v : V) : sdict V :=
  Dict.set String.eqb d k v.

(** Equality of two lists of strings, as Python's [==] on lists of [str]. *)
Fixpoint list_string_eqb (a b : list string) : bool :=
  match a, b with
  | [], [] => true
  | x :: a', y :: b' => String.eqb x y && list_string_eqb a' b'
  | _, _ => false
  end.

(** ** Slices and numpy indexing *)

Open Scope Z_scope.

(** [slice(start, stop)] with integer bounds and unit step, the only kind
    of slice the expression tree builds.  Python integers are unbounded. *)
Record slice : Type := Slice { start : Z; stop : Z }.

(** Arguments the [StateVector] constructor may receive through [*y_slices]. *)
Inductive pyobj : Type :=
| PySlice (s : slice)
| PyInt (n : Z)
| PyStr (s : string)
| PyNone.

(** Normalisation of one slice bound against a sequence of length [n]
    (what [slice.indices(n)] does for step 1): a negative bound counts from
    the end, and the result is clipped to [0..n]. *)
Definition clamp (n i : Z) : Z :=
  if i <? 0 then Z.max (i + n) 0 else Z.min i n.

Definition slice_bounds (s : slice) (n : Z) : Z * Z :=
  (clamp n (start s), clamp n (stop s)).

(** [array[s]] *)
Definition getslice {X : Type} (array : list X) (s : slice) : list X :=
  let '(lo, hi) := slice_bounds s (Z.of_nat (length array)) in
  firstn (Z.to_nat (hi - lo)) (skipn (Z.to_nat lo) array).

(** [array[s] = v] for a scalar [v] *)
Definition setslice_scalar {X : Type} (array : list X) (s : slice) (v : X) : list X :=
  let '(lo, hi) := slice_bounds s (Z.of_nat (length array)) in
  map (fun kx : nat * X =>
         if (lo <=? Z.of_nat (fst kx)) && (Z.of_nat (fst kx) <? hi) then v else snd kx)
      (combine (seq 0 (length array)) array).

(** [np.zeros(n)]: numpy refuses a negative dimension. *)
Definition np_zeros (n : Z) : result (list Z) :=
  if n <? 0 then Raise ValueError else Ok (repeat 0 (Z.to_nat n)).

(** [np.arange(a, b)] for bounds that numpy holds as int64, that is within
    [-2^63, 2^63): the integers from [a] up to [b], [b] excluded. *)
Definition np_arange (a b : Z) : list Z :=
  map (fun k => a + Z.of_nat k) (seq 0 (Z.to_nat (b - a))).

(** [np.intersect1d(a, b)]: the sorted common values.  Both arguments are
    [np.arange] vectors here, already sorted and without repetition, so
    keeping the members of [a] that occur in [b] is the same vector. *)
Definition np_intersect1d (a b : list Z) : list Z :=
  filter (fun x => existsb (Z.eqb x) b) a.

(** [arr[mask]] for a boolean [mask] as long as [arr]: the entries at the
    positions where the mask is true, in increasing position. *)
Fixpoint mask_select {X : Type} (arr : list X) (mask : list bool) : list X :=
  match arr, mask with
  | x :: arr', b :: mask' =>
      if b then x :: mask_select arr' mask' else mask_select arr' mask'
  | _, _ => []
  end.

(** ** Sparse matrices, kept dense: the column count and the list of rows *)

Record Matrix : Type := { ncols : nat; rows : list (list Z) }.

Definition nrows (m : Matrix) : nat := length (rows m).

(** [csr_matrix((m, n))]: the [m] by [n] zero matrix. *)
Definition csr_zeros (m n : nat) : Matrix :=
  {| ncols := n; rows := repeat (repeat 0 n) m |}.

(** Sum of [data[k]] over the [k] with [row[k] = r] and [col[k] = c]. *)
Fixpoint coo_entry (data row col : list Z) (r c : Z) : Z :=
  match data, row, col with
  | d :: data', i :: row', j :: col' =>
      (if (i =? r) && (j =? c) then d else 0) + coo_entry data' row' col' r c
  | _, _, _ => 0
  end.

(** [csr_matrix((data, (row, col)), shape=(m, n))] *)
Definition csr_matrix (data row col : list Z) (m n : nat) : Matrix :=
  {| ncols := n;
     rows := map (fun r => map (fun c => coo_entry data row col (Z.of_nat r) (Z.of_nat c))
                               (seq 0 n))
                 (seq 0 m) |}.

(** [vstack([a, b])]: scipy refuses blocks whose column counts differ. *)
Definition vstack (a b : Matrix) : result Matrix :=
  if Nat.eqb (ncols a) (ncols b)
  then Ok {| ncols := ncols a; rows := rows a ++ rows b |}
  else Raise ValueError.

(** ** Values fed to [hash] *)

#[local] Set Warnings "-register-all".

Inductive hashable : Type :=
| HClass (class_name : string)
| HStr (s : string)
| HBool (b : bool)
| HTuple (items : list hashable).

(** * state_vector.py *)

Module StateVector.

Record t : Type := {
  name : string;
  domain : list string;
  auxiliary_domains : sdict (list string);
  y_slices : list slice;
  first_point : Z;
  last_point : Z;
  evaluation_array : list bool
}.

(** ["{:d}".format(n)] *)
Definition format_d (n : Z) : string := NilZero.string_of_int (Z.to_int n).

(** The loop that opens [__init__]: every argument must be a slice. *)
Fixpoint check_slices (y_slices : list pyobj) : result (list slice) :=
  match y_slices with
  | [] => Ok []
  | PySlice s :: rest => ss <- check_slices rest ;; Ok (s :: ss)
  | _ :: _ => Raise TypeError
  end.

(** The name given to a node built without one (slice bounds are integers). *)
Definition default_name (y_slices : list slice) : result string :=
  s0 <- first_item y_slices ;;
  let name := ("y[" ++ format_d (start s0) ++ ":" ++ format_d (stop s0))%string in
  if (1 <? length y_slices)%nat then
    s1 <- getitem y_slices 1 ;;
    let name := (name ++ "," ++ format_d (start s1) ++ ":" ++ format_d (stop s1))%string in
    if (2 <? length y_slices)%nat then
      sl <- last_item y_slices ;;
      Ok (name ++ ",...," ++ format_d (start sl) ++ ":" ++ format_d (stop sl) ++ "]")%string
    else Ok (name ++ "]")%string
  else Ok (name ++ "]")%string.

(** [debug_mode] is [pybamm.settings.debug_mode]. *)
Definition set_evaluation_array (debug_mode : bool) (y_slices : list slice)
    (evaluation_array : option (list bool)) : result (list bool) :=
  match evaluation_array, debug_mode with
  | Some given, false => Ok given
  | _, _ =>
      sl <- last_item y_slices ;;
      array <- np_zeros (stop sl) ;;
      let array := fold_left (fun a y_slice => setslice_scalar a y_slice 1) y_slices array in
      Ok (map (fun x => negb (x =? 0)) array)
  end.

Definition __init__ (debug_mode : bool) (y_slices : list pyobj)
    (name : option string) (domain : option (list string))
    (auxiliary_domains : option (sdict (list string)))
    (evaluation_array : option (list bool)) : result t :=
  y_slices <- check_slices y_slices ;;
  name <- match name with
          | None => default_name y_slices
          | Some n => Ok n
          end ;;
  let domain := match domain with None => [] | Some d => d end in
  let auxiliary_domains :=
    match auxiliary_domains with None => Dict.empty string (list string) | Some a => a end in
  s0 <- first_item y_slices ;;
  sl <- last_item y_slices ;;
  evaluation_array <- set_evaluation_array debug_mode y_slices evaluation_array ;;
  Ok {| name := name;
        domain := domain;
        auxiliary_domains := auxiliary_domains;
        y_slices := y_slices;
        first_point := start s0;
        last_point := stop sl;
        evaluation_array := evaluation_array |}.

Definition size (self : t) : nat := count_occ bool_dec (evaluation_array self) true.

(** The tuple handed to [hash] by [set_id]. *)
Definition id_key (self : t) : hashable :=
  HTuple ([HClass "StateVector"; HStr (name self);
           HTuple (map HBool (evaluation_array self))]
          ++ map HStr (domain self)).

(** [set_id], for a given [hash]. *)
Definition set_id {H : Type} (hash : hashable -> H) (self : t) : H :=
  hash (id_key self).

(** The external vector [y] is a vector or a one-column array; the column
    that comes back is given by its entries from top to bottom. *)
Definition _base_evaluate {X : Type} (self : t) (tm : option X) (y : option (list X))
  : result (list X) :=
  match y with
  | None => Raise TypeError
  | Some y =>
      if (length y <? length (evaluation_array self))%nat then Raise ValueError
      else Ok (mask_select (firstn (length (evaluation_array self)) y)
                           (evaluation_array self))
  end.

(** One turn of the loop of [jac]. *)
Definition jac_step (variable : t) (variable_y_indices : list Z)
    (jac : Matrix) (y_slice : slice) : result Matrix :=
  let slice_indices := np_arange (start y_slice) (stop y_slice) in
  let common := np_intersect1d slice_indices variable_y_indices in
  if (length common =? 0)%nat then
    Ok (csr_zeros (length slice_indices) (length variable_y_indices))
  else
    let row := map (fun g => g - start y_slice) common in
    let col := map (fun g => g - first_point variable) common in
    let data := map (fun _ => 1) row in
    vstack jac (csr_matrix data row col (length slice_indices) (length variable_y_indices)).

Definition jac (self variable : t) : result Matrix :=
  if (1 <? length (y_slices variable))%nat then Raise NotImplementedError
  else
    let variable_y_indices := np_arange (first_point variable) (last_point variable) in
    for_each (jac_step variable variable_y_indices) (y_slices self)
             (csr_zeros 0 (length variable_y_indices)).

(** [new_copy]: the constructor is handed the slices, name, domain,
    auxiliary domains and mask of the node. *)
Definition new_copy (debug_mode : bool) (self : t) : result t :=
  __init__ debug_mode (map PySlice (y_slices self)) (Some (name self)) (Some (domain self))
           (Some (auxiliary_domains self)) (Some (evaluation_array self)).

(** [evaluate_for_shape]: [np.nan * np.ones((self.size, 1))], a column of
    [size] entries that are all [nan]. *)
Definition evaluate_for_shape {X : Type} (nan : X) (self : t) : list X :=
  repeat nan (size self).

End StateVector.

(** * Nodes of the expression tree *)

(** Modelled from the spec: the base node type [pybamm.Symbol], whose source
    is not among the embedded files ("consumed from the base node type:
    domain/auxiliary-domain storage, the generic evaluate dispatch contract,
    node-identity-based memoization").  A child of a concatenation is a
    [StateVector] or another node, kept as what a concatenation reads of it:
    its domain, its auxiliary domains and its [evaluate(t, y)].  [oid] tells
    the Python objects apart: a dictionary keyed by nodes, as [eval_arrays]
    in [_concatenation_simplify], has one entry per [oid]. *)
Inductive Symbol (X : Type) : Type :=
| StateVectorNode (oid : nat) (sv : StateVector.t)
| OtherNode (oid : nat) (name : string) (domain : list string)
            (auxiliary_domains : sdict (list string))
            (evaluate : option X -> option (list X) -> result (list X)).

Arguments StateVectorNode {X} oid sv.
Arguments OtherNode {X} oid name domain auxiliary_domains evaluate.

Module Node.
Definition oid {X : Type} (s : Symbol X) : nat :=
  match s with
  | StateVectorNode o _ => o
  | OtherNode o _ _ _ _ => o
  end.

Definition domain {X : Type} (s : Symbol X) : list string :=
  match s with
  | StateVectorNode _ sv => StateVector.domain sv
  | OtherNode _ _ d _ _ => d
  end.

Definition auxiliary_domains {X : Type} (s : Symbol X) : sdict (list string) :=
  match s with
  | StateVectorNode _ sv => StateVector.auxiliary_domains sv
  | OtherNode _ _ _ a _ => a
  end.

(** [isinstance(child, pybamm.StateVector)] *)
Definition is_state_vector {X : Type} (s : Symbol X) : bool :=
  match s with
  | StateVectorNode _ _ => true
  | OtherNode _ _ _ _ _ => false
  end.

(** [child.evaluate(t, y)]: for a leaf the base class hands over to
    [_base_evaluate]. *)
Definition evaluate {X : Type} (s : Symbol X) (tm : option X) (y : option (list X))
  : result (list X) :=
  match s with
  | StateVectorNode _ sv => StateVector._base_evaluate sv tm y
  | OtherNode _ _ _ _ ev => ev tm y
  end.
End Node.

(** * concatenations.py *)

(** Names of the attributes of a [dict] instance, the names for which
    [hasattr(aux_domains, level)] is true.  The table depends on the version
    of the interpreter; this is the one of CPython 3.9 and 3.10.  The merge
    of the auxiliary domains is written for any such test
    ([get_children_auxiliary_domains_with]) and used with this table. *)
Definition dict_attribute_names : list string :=
  ["__class__"; "__class_getitem__"; "__contains__"; "__delattr__"; "__delitem__";
   "__dir__"; "__doc__"; "__eq__"; "__format__"; "__ge__"; "__getattribute__";
   "__getitem__"; "__gt__"; "__hash__"; "__init__"; "__init_subclass__"; "__ior__";
   "__iter__"; "__le__"; "__len__"; "__lt__"; "__ne__"; "__new__"; "__or__";
   "__reduce__"; "__reduce_ex__"; "__repr__"; "__reversed__"; "__ror__";
   "__setattr__"; "__setitem__"; "__sizeof__"; "__str__"; "__subclasshook__";
   "clear"; "copy"; "fromkeys"; "get"; "items"; "keys"; "pop"; "popitem";
   "setdefault"; "update"; "values"]%string.

Definition hasattr_dict (attr : string) : bool :=
  existsb (String.eqb attr) dict_attribute_names.

Module Concatenation.

(** [set(domain).isdisjoint(child_domain)] *)
Definition isdisjoint (domain child_domain : list string) : bool :=
  forallb (fun d => negb (existsb (String.eqb d) domain)) child_domain.

Definition get_children_domains {X : Type} (children : list (Symbol X))
  : result (list string) :=
  for_each (fun domain child =>
              let child_domain := Node.domain child in
              if isdisjoint domain child_domain then Ok (domain ++ child_domain)
              else Raise DomainError)
           children [].

(** The body of the inner loop of [get_children_auxiliary_domains], for
    [has_attribute], what [hasattr(aux_domains, level)] answers for each
    name.  The three operands of [or] are evaluated from left to right and
    only as far as needed; [aux_domains[level]] raises [KeyError] on a
    missing key. *)
Definition merge_level_with (has_attribute : string -> bool)
    (child_aux : sdict (list string)) (aux_domains : sdict (list string)) (level : string)
  : result (sdict (list string)) :=
  child_value <- sgetitem child_aux level ;;
  if negb (has_attribute level) then Ok (sset aux_domains level child_value)
  else
    current <- sgetitem aux_domains level ;;
    if list_string_eqb current [] then Ok (sset aux_domains level child_value)
    else if list_string_eqb child_value current
         then Ok (sset aux_domains level child_value)
         else Raise DomainError.

Definition get_children_auxiliary_domains_with {X : Type} (has_attribute : string -> bool)
    (children : list (Symbol X)) : result (sdict (list string)) :=
  for_each (fun aux_domains child =>
              for_each (merge_level_with has_attribute (Node.auxiliary_domains child))
                       (Dict.keys (Node.auxiliary_domains child)) aux_domains)
           children (Dict.empty string (list string)).

(** The same with the attributes of [dict_attribute_names]. *)
Definition merge_level (child_aux : sdict (list string))
    (aux_domains : sdict (list string)) (level : string)
  : result (sdict (list string)) :=
  merge_level_with hasattr_dict child_aux aux_domains level.

Definition get_children_auxiliary_domains {X : Type} (children : list (Symbol X))
  : result (sdict (list string)) :=
  get_children_auxiliary_domains_with hasattr_dict children.

(** What [__init__] hands to the base class: the merged domain and
    auxiliary domains. *)
Definition __init__ {X : Type} (children : list (Symbol X)) (check_domain : bool)
  : result (list string * sdict (list string)) :=
  if check_domain then
    domain <- get_children_domains children ;;
    auxiliary_domains <- get_children_auxiliary_domains children ;;
    Ok (domain, auxiliary_domains)
  else Ok ([], Dict.empty string (list string)).

End Concatenation.

(** Modelled from the spec: the mesh, whose source is not among the embedded
    files ("reports, per domain name, an ordered list of submesh entries each
    with a point count, and a canonical domain ordering").  It is consumed
    through [mesh[dom]], the list of submeshes of a domain (one per secondary
    index, each kept as its [npts], a count of points), and
    [mesh.domain_order]. *)
Record Mesh : Type := {
  submeshes : sdict (list nat);
  domain_order : list string
}.

(** [sorted(keys, key=key)]: a stable sort, by insertion. *)
Fixpoint insert_sorted (key : string -> nat) (x : string) (l : list string) : list string :=
  match l with
  | [] => [x]
  | y :: l' => if (key y <=? key x)%nat then y :: insert_sorted key x l' else x :: l
  end.

Definition sorted (key : string -> nat) (l : list string) : list string :=
  fold_left (fun acc x => insert_sorted key x acc) l [].

(** [d[k]] on a [defaultdict(list)], read-only use. *)
Definition defaultdict_get {V : Type} (d : sdict (list V)) (k : string) : list V :=
  match sget d k with
  | Some l => l
  | None => []
  end.

(** [np.empty((n, 1))]: a column whose entries are not initialised. *)
Definition np_empty {X : Type} (n : Z) : result (list (option X)) :=
  if n <? 0 then Raise ValueError else Ok (repeat None (Z.to_nat n)).

(** [vector[s] = rhs] for columns: the shapes must agree, or [rhs] has one
    row, which numpy broadcasts. *)
Definition setslice_array {X : Type} (vector : list (option X)) (s : slice) (rhs : list X)
  : result (list (option X)) :=
  let '(lo, hi) := slice_bounds s (Z.of_nat (length vector)) in
  let n := Z.to_nat (hi - lo) in
  let before := firstn (Z.to_nat lo) vector in
  let after := skipn (Z.to_nat lo + n) vector in
  if (length rhs =? n)%nat then Ok (before ++ map Some rhs ++ after)
  else match rhs with
       | [x] => Ok (before ++ repeat (Some x) n ++ after)
       | _ => Raise ValueError
       end.

Module DomainConcatenation.

Record t (X : Type) : Type := {
  name : string;
  children : list (Symbol X);
  domain : list string;
  auxiliary_domains : sdict (list string);
  mesh : Mesh;
  secondary_dimensions_npts : nat;
  slices : sdict (list slice);
  size : Z;
  children_slices : list (sdict (list slice))
}.

Arguments name {X} _.
Arguments children {X} _.
Arguments domain {X} _.
Arguments auxiliary_domains {X} _.
Arguments mesh {X} _.
Arguments secondary_dimensions_npts {X} _.
Arguments slices {X} _.
Arguments size {X} _.
Arguments children_slices {X} _.

(** The state of the loops of [create_slices]: [start], [end], [slices]. *)
Definition cursor : Type := (Z * Z * sdict (list slice))%type.

(** The body of the inner loop of [create_slices], at secondary index [i]. *)
Definition create_slices_step (mesh : Mesh) (i : nat) (st : cursor) (dom : string)
  : result cursor :=
  let '(start_, end_, slices) := st in
  submesh_list <- sgetitem (submeshes mesh) dom ;;
  npts <- getitem submesh_list i ;;
  let end_ := end_ + Z.of_nat npts in
  let slices := sset slices dom (defaultdict_get slices dom ++ [Slice start_ end_]) in
  Ok (end_, end_, slices).

(** [create_slices(node)], reading [self.mesh] and
    [self.secondary_dimensions_npts] of the concatenation and
    [node.domain] of the node. *)
Definition create_slices (mesh : Mesh) (secondary_dimensions_npts : nat)
    (node_domain : list string) : result (sdict (list slice)) :=
  dom0 <- first_item node_domain ;;
  submesh_list <- sgetitem (submeshes mesh) dom0 ;;
  let second_pts := length submesh_list in
  if negb (second_pts =? secondary_dimensions_npts)%nat then Raise ValueError
  else
    st <- for_each (fun st i => for_each (create_slices_step mesh i) node_domain st)
                   (seq 0 second_pts) (0, 0, Dict.empty string (list slice)) ;;
    Ok (snd st).

(** [{d: mesh.domain_order.index(d) for d in self.domain}] *)
Definition domain_dict (mesh : Mesh) (domain : list string) : result (sdict nat) :=
  for_each (fun dd d => i <- list_index d (domain_order mesh) ;; Ok (sset dd d i))
           domain (Dict.empty string nat).

(** [domain_dict.__getitem__], applied to keys of the dictionary only. *)
Definition domain_dict_getitem (dd : sdict nat) (d : string) : nat :=
  match sget dd d with
  | Some i => i
  | None => 0%nat
  end.

Definition __init__ {X : Type} (children : list (Symbol X)) (mesh : Mesh)
    (copy_this : option (t X)) : result (t X) :=
  base <- Concatenation.__init__ children true ;;
  let '(domain, auxiliary_domains) := base in
  dd <- domain_dict mesh domain ;;
  let domain := sorted (domain_dict_getitem dd) (Dict.keys dd) in
  match copy_this with
  | None =>
      match domain with
      | [] => Raise DomainError
      | dom0 :: _ =>
          submesh_list <- sgetitem (submeshes mesh) dom0 ;;
          let secondary_dimensions_npts := length submesh_list in
          slices <- create_slices mesh secondary_dimensions_npts domain ;;
          last_dom <- last_item domain ;;
          last_slice <- last_item (defaultdict_get slices last_dom) ;;
          children_slices <-
            map_result (fun child =>
                          create_slices mesh secondary_dimensions_npts (Node.domain child))
                       children ;;
          Ok {| name := "domain concatenation";
                children := children;
                domain := domain;
                auxiliary_domains := auxiliary_domains;
                mesh := mesh;
                secondary_dimensions_npts := secondary_dimensions_npts;
                slices := slices;
                size := stop last_slice;
                children_slices := children_slices |}
      end
  | Some copy_this =>
      Ok {| name := "domain concatenation";
            children := children;
            domain := domain;
            auxiliary_domains := auxiliary_domains;
            mesh := DomainConcatenation.mesh copy_this;
            secondary_dimensions_npts := DomainConcatenation.secondary_dimensions_npts copy_this;
            slices := DomainConcatenation.slices copy_this;
            size := DomainConcatenation.size copy_this;
            children_slices := DomainConcatenation.children_slices copy_this |}
  end.

(** The innermost assignment of [_concatenation_evaluate]:
    [vector[self._slices[child_dom][i]] = child_vector[_slice]]. *)
Definition scatter {X : Type} (self : t X) (child_vector : list X) (child_dom : string)
    (vector : list (option X)) (i_slice : nat * slice) : result (list (option X)) :=
  target <- getitem (defaultdict_get (slices self) child_dom) (fst i_slice) ;;
  setslice_array vector target (getslice child_vector (snd i_slice)).

Definition _concatenation_evaluate {X : Type} (self : t X) (children_eval : list (list X))
  : result (list (option X)) :=
  vector <- np_empty (size self) ;;
  for_each
    (fun vector (cs : list X * sdict (list slice)) =>
       for_each
         (fun vector (item : string * list slice) =>
            for_each (scatter self (fst cs) (fst item))
                     (combine (seq 0 (length (snd item))) (snd item)) vector)
         (Dict.items (snd cs)) vector)
    (combine children_eval (children_slices self)) vector.

(** [Concatenation.evaluate(t, y)] without a memo: the children are
    evaluated in order, then combined. *)
Definition evaluate {X : Type} (self : t X) (tm : option X) (y : option (list X))
  : result (list (option X)) :=
  children_eval <- map_result (fun child => Node.evaluate child tm y) (children self) ;;
  _concatenation_evaluate self children_eval.

(** What [_concatenation_simplify] returns. *)
Inductive simplified (X : Type) : Type :=
| ToStateVector (sv : StateVector.t)
| ToDomainConcatenation (dc : t X).

Arguments ToStateVector {X} sv.
Arguments ToDomainConcatenation {X} dc.

(** [child.evaluation_array] of a child that passed the [isinstance] test. *)
Definition child_evaluation_array {X : Type} (child : Symbol X) : list bool :=
  match child with
  | StateVectorNode _ sv => StateVector.evaluation_array sv
  | OtherNode _ _ _ _ _ => []
  end.

Definition child_y_slices {X : Type} (child : Symbol X) : list slice :=
  match child with
  | StateVectorNode _ sv => StateVector.y_slices sv
  | OtherNode _ _ _ _ _ => []
  end.

(** [np.concatenate([evaluation_array, np.zeros(k)])]: a float vector. *)
Definition padded_mask (evaluation_array : list bool) (longest : nat) : result (list Z) :=
  zeros <- np_zeros (Z.of_nat longest - Z.of_nat (length evaluation_array)) ;;
  Ok (map (fun b : bool => if b then 1 else 0) evaluation_array ++ zeros).

(** The dictionary [eval_arrays], keyed by the child objects. *)
Definition eval_arrays {X : Type} (children : list (Symbol X)) (longest : nat)
  : result (Dict.t nat (list Z)) :=
  for_each (fun arrays child =>
              array <- padded_mask (child_evaluation_array child) longest ;;
              Ok (Dict.set Nat.eqb arrays (Node.oid child) array))
           children (Dict.empty nat (list Z)).

(** [sum(array for array in eval_arrays.values())], the entrywise sum of
    vectors of one length. *)
Definition add_arrays (a b : list Z) : list Z :=
  map (fun p : Z * Z => fst p + snd p) (combine a b).

Definition sum_arrays (arrays : list (list Z)) : list Z :=
  match arrays with
  | [] => []
  | a :: rest => fold_left add_arrays rest a
  end.

(** The test of the contiguity collapse; [Ok true] when it fires. *)
Definition masks_sum_to_one {X : Type} (children : list (Symbol X)) : result bool :=
  last_child <- last_item children ;;
  let longest_eval_array := length (child_evaluation_array last_child) in
  arrays <- eval_arrays children longest_eval_array ;;
  Ok (forallb (fun x => x =? 1) (sum_arrays (Dict.values arrays))).

(** The copy with its domain cleared that ends [_concatenation_simplify]. *)
Definition simplified_copy {X : Type} (self : t X) (children : list (Symbol X))
  : result (simplified X) :=
  new_symbol <- __init__ children (mesh self) (Some self) ;;
  Ok (ToDomainConcatenation
        {| name := name new_symbol;
           children := DomainConcatenation.children new_symbol;
           domain := [];
           auxiliary_domains := auxiliary_domains new_symbol;
           mesh := mesh new_symbol;
           secondary_dimensions_npts := secondary_dimensions_npts new_symbol;
           slices := slices new_symbol;
           size := size new_symbol;
           children_slices := children_slices new_symbol |}).

Definition _concatenation_simplify {X : Type} (debug_mode : bool) (self : t X)
    (children : list (Symbol X)) : result (simplified X) :=
  if forallb Node.is_state_vector children then
    collapse <- masks_sum_to_one children ;;
    if collapse then
      first_child <- first_item children ;;
      last_child <- last_item children ;;
      first_slice <- first_item (child_y_slices first_child) ;;
      last_slice <- last_item (child_y_slices last_child) ;;
      sv <- StateVector.__init__ debug_mode
              [PySlice (Slice (start first_slice) (stop last_slice))]
              None None None None ;;
      Ok (ToStateVector sv)
    else simplified_copy self children
  else simplified_copy self children.

(** [_concatenation_new_copy]: [self.__class__(children, self.mesh, self)]. *)
Definition _concatenation_new_copy {X : Type} (self : t X) (children : list (Symbol X))
  : result (t X) :=
  __init__ children (mesh self) (Some self).

(** What a statement of [_jac] does: it goes on, raises one of the
    exceptions of [exn], or raises [StopIteration], which [next] raises on
    an iterator with nothing left. *)
Inductive outcome (A : Type) : Type :=
| Returns (a : A)
| Raises (e : exn)
| RaisesStopIteration.

Arguments Returns {A} a.
Arguments Raises {A} e.
Arguments RaisesStopIteration {A}.

(** A [for] loop of [_jac]: the first exception stops it. *)
Fixpoint loop {S A : Type} (body : S -> A -> outcome S) (xs : list A) (st : S) : outcome S :=
  match xs with
  | [] => Returns st
  | x :: xs' =>
      match body st x with
      | Returns st' => loop body xs' st'
      | Raises e => Raises e
      | RaisesStopIteration => RaisesStopIteration
      end
  end.

(** The body of the inner loop of [_jac] at secondary index [i]; the node
    [child_jac[child_slice[i]]] is kept as the pair of [child_jac] and the
    slice. *)
Definition jac_block {J : Type} (i : nat) (jacs : list (J * slice))
    (cs : J * sdict (list slice)) : outcome (list (J * slice)) :=
  if (1 <? length (Dict.items (snd cs)))%nat then Raises NotImplementedError
  else
    match Dict.values (snd cs) with
    | [] => RaisesStopIteration
    | child_slice :: _ =>
        match getitem child_slice i with
        | Ok s => Returns (jacs ++ [(fst cs, s)])
        | Raise e => Raises e
        end
    end.

(** [_jac(variable)], given [child_jacs], the list
    [[child.jac(variable) for child in self.cached_children]]; the result
    is the list [jacs] handed to [SparseStack]. *)
Definition _jac {X J : Type} (self : t X) (child_jacs : list J)
  : outcome (list (J * slice)) :=
  loop (fun jacs i => loop (jac_block i) (combine child_jacs (children_slices self)) jacs)
       (seq 0 (secondary_dimensions_npts self)) [].

End DomainConcatenation.

(** * Readings of the prose specification, to compare the code with *)

(** "A well-formed half-open slice": non-negative bounds and start <= stop. *)
Definition well_formed (s : slice) : Prop := 0 <= start s /\ start s <= stop s.

(** "In slice order": the entries of [y] read by the first slice, then those
    read by the second slice, and so on. *)
Definition gather_in_slice_order {X : Type} (y : list X) (y_slices : list slice) : list X :=
  flat_map (getslice y) y_slices.

(** The Jacobian as the specification words it: for each slice of the node,
    in order, a block with one row per index of the slice and one column per
    index of the variable, holding 1 where the row and the column stand for
    the same global index and 0 elsewhere; the blocks are stacked. *)
Definition jac_block_spec (variable : StateVector.t) (y_slice : slice) : list (list Z) :=
  map (fun r =>
         map (fun c =>
                if start y_slice + Z.of_nat r =? StateVector.first_point variable + Z.of_nat c
                then 1 else 0)
             (seq 0 (Z.to_nat (StateVector.last_point variable
                               - StateVector.first_point variable))))
      (seq 0 (Z.to_nat (stop y_slice - start y_slice))).

Definition jac_spec (self variable : StateVector.t) : Matrix :=
  {| ncols := Z.to_nat (StateVector.last_point variable - StateVector.first_point variable);
     rows := flat_map (jac_block_spec variable) (StateVector.y_slices self) |}.

(** "The masks, padded to a common length, sum to exactly 1 at every
    position": at each position below the longest mask exactly one mask is
    true. *)
Definition common_length (masks : list (list bool)) : nat :=
  fold_right Nat.max 0%nat (map (@length bool) masks).

Definition masks_partition (masks : list (list bool)) : bool :=
  forallb (fun i => (length (filter (fun m => nth i m false) masks) =? 1)%nat)
          (seq 0 (common_length masks)).

(** "Domain-major" layout: every slice of an earlier domain stops before any
    slice of a later domain starts. *)
Definition domain_major {X : Type} (dc : DomainConcatenation.t X) : Prop :=
  forall k1 k2 d1 d2 s1 s2,
    (k1 < k2)%nat ->
    nth_error (DomainConcatenation.domain dc) k1 = Some d1 ->
    nth_error (DomainConcatenation.domain dc) k2 = Some d2 ->
    In s1 (defaultdict_get (DomainConcatenation.slices dc) d1) ->
    In s2 (defaultdict_get (DomainConcatenation.slices dc) d2) ->
    stop s1 <= start s2.

(** * Layout of the slices built by [create_slices] *)

(** Number of points of domain [d] at secondary index [i]. *)
Definition npts_at (mesh : Mesh) (d : string) (i : nat) : nat :=
  match sget (submeshes mesh) d with
  | Some submesh_list => nth i submesh_list 0%nat
  | None => 0%nat
  end.

(** Points of the domains [doms] at secondary index [i]. *)
Fixpoint row_sum (mesh : Mesh) (i : nat) (doms : list string) : Z :=
  match doms with
  | [] => 0
  | d :: doms' => Z.of_nat (npts_at mesh d i) + row_sum mesh i doms'
  end.

(** Points of the domains [doms] at the secondary indices below [i]. *)
Fixpoint rows_sum (mesh : Mesh) (doms : list string) (i : nat) : Z :=
  match i with
  | O => 0
  | S i' => rows_sum mesh doms i' + row_sum mesh i' doms
  end.

(** Where the slice of the [k]-th domain at secondary index [i] starts. *)
Definition offset (mesh : Mesh) (doms : list string) (i k : nat) : Z :=
  rows_sum mesh doms i + row_sum mesh i (firstn k doms).

(** The pairs (secondary index, domain) in the order the loops of
    [create_slices] visit them, and the slice stored for each. *)
Definition creation_order {X : Type} (dc : DomainConcatenation.t X) : list (nat * string) :=
  flat_map (fun i => map (fun d => (i, d)) (DomainConcatenation.domain dc))
           (seq 0 (DomainConcatenation.secondary_dimensions_npts dc)).

Definition output_slices {X : Type} (dc : DomainConcatenation.t X) : list (option slice) :=
  map (fun p : nat * string =>
         nth_error (defaultdict_get (DomainConcatenation.slices dc) (snd p)) (fst p))
      (creation_order dc).

(** [chain a l b]: the slices of [l] tile [a, b) from left to right: the
    first starts at [a], each next one starts where the previous one stops,
    and the last stops at [b]. *)
Fixpoint chain (a : Z) (l : list slice) (b : Z) : Prop :=
  match l with
  | [] => a = b
  | s :: l' => start s = a /\ start s <= stop s /\ chain (stop s) l' b
  end.

Definition covers (s : slice) (p : Z) : Prop := start s <= p < stop s.

(** * Worked examples and the notions the proofs use *)

(** [StateVector(slice(0, 3))] *)
Definition sv_0_3 : StateVector.t :=
  {| StateVector.name := "y[0:3]";
     StateVector.domain := [];
     StateVector.auxiliary_domains := [];
     StateVector.y_slices := [Slice 0 3];
     StateVector.first_point := 0;
     StateVector.last_point := 3;
     StateVector.evaluation_array := [true; true; true] |}.

(** [StateVector(slice(0, 2), slice(2, 4), name="u",
    domain=["negative electrode"])]: other slices than [sv_one_slice] below,
    the same mask, name and domain. *)
Definition sv_two_slices : StateVector.t :=
  {| StateVector.name := "u";
     StateVector.domain := ["negative electrode"%string];
     StateVector.auxiliary_domains := [];
     StateVector.y_slices := [Slice 0 2; Slice 2 4];
     StateVector.first_point := 0;
     StateVector.last_point := 4;
     StateVector.evaluation_array := [true; true; true; true] |}.

(** [StateVector(slice(0, 4), name="u", domain=["negative electrode"])] *)
Definition sv_one_slice : StateVector.t :=
  {| StateVector.name := "u";
     StateVector.domain := ["negative electrode"%string];
     StateVector.auxiliary_domains := [];
     StateVector.y_slices := [Slice 0 4];
     StateVector.first_point := 0;
     StateVector.last_point := 4;
     StateVector.evaluation_array := [true; true; true; true] |}.

(** The binary digits of a positive number, lowest first, as a mask. *)
Fixpoint mask_of_positive (p : positive) : list bool :=
  match p with
  | xH => [true]
  | xO p' => false :: mask_of_positive p'
  | xI p' => true :: mask_of_positive p'
  end.

(** [StateVector(slice(0, 65), name="u", evaluation_array=mask)] *)
Definition sv_with_mask (mask : list bool) : StateVector.t :=
  {| StateVector.name := "u";
     StateVector.domain := [];
     StateVector.auxiliary_domains := [];
     StateVector.y_slices := [Slice 0 65];
     StateVector.first_point := 0;
     StateVector.last_point := 65;
     StateVector.evaluation_array := mask |}.

(** [isinstance(a, slice)] *)
Definition is_slice (a : pyobj) : Prop := exists s, a = PySlice s.

(** Every key of the accumulator is a level that is not an attribute of a
    dictionary: only such levels pass the first operand of the test. *)
Definition no_attribute_key (aux_domains : sdict (list string)) : Prop :=
  forall level, sget aux_domains level <> None -> hasattr_dict level = false.

(** Children whose auxiliary domains disagree, or come empty after a value. *)
Definition aux_child (oid : nat) (domain : string) (secondary : list string) : Symbol Z :=
  OtherNode oid "child" [domain] [("secondary"%string, secondary)] (fun _ _ => Ok []).

(** [StateVector(slice(0, 2), slice(4, 6))] *)
Definition sv_0_2_4_6 : StateVector.t :=
  {| StateVector.name := "y[0:2,4:6]";
     StateVector.domain := [];
     StateVector.auxiliary_domains := [];
     StateVector.y_slices := [Slice 0 2; Slice 4 6];
     StateVector.first_point := 0;
     StateVector.last_point := 6;
     StateVector.evaluation_array := [true; true; false; false; true; true] |}.

(** [StateVector(slice(0, 2))] *)
Definition sv_0_2 : StateVector.t :=
  {| StateVector.name := "y[0:2]";
     StateVector.domain := [];
     StateVector.auxiliary_domains := [];
     StateVector.y_slices := [Slice 0 2];
     StateVector.first_point := 0;
     StateVector.last_point := 2;
     StateVector.evaluation_array := [true; true] |}.

(** [StateVector(slice(2, 5))] *)
Definition sv_2_5 : StateVector.t :=
  {| StateVector.name := "y[2:5]";
     StateVector.domain := [];
     StateVector.auxiliary_domains := [];
     StateVector.y_slices := [Slice 2 5];
     StateVector.first_point := 2;
     StateVector.last_point := 5;
     StateVector.evaluation_array := [false; false; true; true; true] |}.

(** The slices of the [j]-th domain [d] once [rows] secondary indices are done. *)
Definition expected_slices (mesh : Mesh) (doms : list string) (j : nat) (d : string)
    (rows : nat) : list slice :=
  map (fun i => Slice (offset mesh doms i j)
                      (offset mesh doms i j + Z.of_nat (npts_at mesh d i)))
      (seq 0 rows).

(** State of the loops when the secondary indices below [i] are done and the
    first [k] domains of index [i] are done. *)
Definition layout_inv (mesh : Mesh) (doms : list string) (i k : nat)
    (st : DomainConcatenation.cursor) : Prop :=
  fst (fst st) = offset mesh doms i k /\
  snd (fst st) = offset mesh doms i k /\
  (forall j d, nth_error doms j = Some d ->
               defaultdict_get (snd st) d
               = expected_slices mesh doms j d (if (j <? k)%nat then S i else i)) /\
  (forall d, ~ In d doms -> sget (snd st) d = None).

(** Two domains with two secondary indices each. *)
Definition mesh_two_by_two : Mesh :=
  {| submeshes := [("A"%string, [2; 2]%nat); ("B"%string, [1; 1]%nat)];
     domain_order := ["A"%string; "B"%string] |}.

(** A child on one domain that evaluates to a given column. *)
Definition constant_child (oid : nat) (domain : string) (value : list Z) : Symbol Z :=
  OtherNode oid "child" [domain] [] (fun _ _ => Ok value).

(** The concatenation of a child on A and a child on B over
    [mesh_two_by_two]. *)
Definition dc_two_by_two : DomainConcatenation.t Z :=
  {| DomainConcatenation.name := "domain concatenation";
     DomainConcatenation.children :=
       [constant_child 1 "A" [1; 2; 3; 4]; constant_child 2 "B" [5; 6]];
     DomainConcatenation.domain := ["A"%string; "B"%string];
     DomainConcatenation.auxiliary_domains := [];
     DomainConcatenation.mesh := mesh_two_by_two;
     DomainConcatenation.secondary_dimensions_npts := 2;
     DomainConcatenation.slices :=
       [("A"%string, [Slice 0 2; Slice 3 5]); ("B"%string, [Slice 2 3; Slice 5 6])];
     DomainConcatenation.size := 6;
     DomainConcatenation.children_slices :=
       [[("A"%string, [Slice 0 2; Slice 2 4])]; [("B"%string, [Slice 0 1; Slice 1 2])]] |}.

(** Domains A of 2 points and B of 3 points, one secondary index. *)
Definition mesh_A2_B3 : Mesh :=
  {| submeshes := [("A"%string, [2%nat]); ("B"%string, [3%nat])];
     domain_order := ["A"%string; "B"%string] |}.

(** The concatenation of a child on A and a child on B over [mesh_A2_B3]. *)
Definition dc_A2_B3 : DomainConcatenation.t Z :=
  {| DomainConcatenation.name := "domain concatenation";
     DomainConcatenation.children :=
       [constant_child 1 "A" [1; 2]; constant_child 2 "B" [3; 4; 5]];
     DomainConcatenation.domain := ["A"%string; "B"%string];
     DomainConcatenation.auxiliary_domains := [];
     DomainConcatenation.mesh := mesh_A2_B3;
     DomainConcatenation.secondary_dimensions_npts := 1;
     DomainConcatenation.slices := [("A"%string, [Slice 0 2]); ("B"%string, [Slice 2 5])];
     DomainConcatenation.size := 5;
     DomainConcatenation.children_slices :=
       [[("A"%string, [Slice 0 2])]; [("B"%string, [Slice 0 3])]] |}.

(** The slices of one secondary index, from a cursor [c]. *)
Fixpoint row_slices (mesh : Mesh) (i : nat) (c : Z) (doms : list string) : list slice :=
  match doms with
  | [] => []
  | d :: doms' =>
      Slice c (c + Z.of_nat (npts_at mesh d i))
      :: row_slices mesh i (c + Z.of_nat (npts_at mesh d i)) doms'
  end.

(** The slices of the secondary indices below [n], in the order of the loops. *)
Definition all_slices (mesh : Mesh) (doms : list string) (n : nat) : list slice :=
  flat_map (fun i => row_slices mesh i (rows_sum mesh doms i) doms) (seq 0 n).

(** The mask of a child as the float vector of the collapse test, padded
    with zeros to the length [longest]. *)
Definition pad (longest : nat) (mask : list bool) : list Z :=
  map (fun b : bool => if b then 1 else 0) mask ++ repeat 0 (longest - length mask)%nat.

(** Sum over the vectors of [ls] of their entry [i]. *)
Definition column_sum (ls : list (list Z)) (i : nat) : Z :=
  fold_right (fun l acc => nth i l 0 + acc) 0 ls.

(** [StateVector(slice(a, b), domain=[d])] for [0 <= a <= b]. *)
Definition sv_on (d : string) (a b : Z) : StateVector.t :=
  {| StateVector.name := "y[" ++ StateVector.format_d a ++ ":" ++ StateVector.format_d b ++ "]";
     StateVector.domain := [d];
     StateVector.auxiliary_domains := [];
     StateVector.y_slices := [Slice a b];
     StateVector.first_point := a;
     StateVector.last_point := b;
     StateVector.evaluation_array :=
       repeat false (Z.to_nat a) ++ repeat true (Z.to_nat (b - a)) |}.

(** [StateVector(slice(0, 5))] *)
Definition sv_0_5 : StateVector.t :=
  {| StateVector.name := "y[0:5]";
     StateVector.domain := [];
     StateVector.auxiliary_domains := [];
     StateVector.y_slices := [Slice 0 5];
     StateVector.first_point := 0;
     StateVector.last_point := 5;
     StateVector.evaluation_array := [true; true; true; true; true] |}.

(** [StateVector(slice(0, 6))] *)
Definition sv_0_6 : StateVector.t :=
  {| StateVector.name := "y[0:6]";
     StateVector.domain := [];
     StateVector.auxiliary_domains := [];
     StateVector.y_slices := [Slice 0 6];
     StateVector.first_point := 0;
     StateVector.last_point := 6;
     StateVector.evaluation_array := [true; true; true; true; true; true] |}.

(** The concatenation constructed from children and a mesh. *)
Definition dc_of (children : list (Symbol Z)) (mesh : Mesh) : result (DomainConcatenation.t Z) :=
  DomainConcatenation.__init__ children mesh None.

(** A on 4:6 then B on 0:3: the mask of the last child is the shorter one. *)
Definition children_gap : list (Symbol Z) :=
  [StateVectorNode 1 (sv_on "A" 4 6); StateVectorNode 2 (sv_on "B" 0 3)].

(** B on 0:3 then A on 3:5: the children are not in the canonical order. *)
Definition children_swapped : list (Symbol Z) :=
  [StateVectorNode 1 (sv_on "B" 0 3); StateVectorNode 2 (sv_on "A" 3 5)].

(** A on 0:4 then B on 4:6, over two secondary indices. *)
Definition children_two_rows : list (Symbol Z) :=
  [StateVectorNode 1 (sv_on "A" 0 4); StateVectorNode 2 (sv_on "B" 4 6)].

(** ** Notions used to state further properties of the code *)

(** Whether position [i] of an array of length [n] is selected by [array[s]]. *)
Definition in_slice (n i : nat) (s : slice) : bool :=
  (fst (slice_bounds s (Z.of_nat n)) <=? Z.of_nat i)
  && (Z.of_nat i <? snd (slice_bounds s (Z.of_nat n))).

(** Slices given in increasing order from [lo]: each one is well formed and
    starts no earlier than the previous one stops. *)
Fixpoint increasing (lo : Z) (l : list slice) : Prop :=
  match l with
  | [] => True
  | s :: l' => lo <= start s /\ start s <= stop s /\ increasing (stop s) l'
  end.

(** Whether a slice of the node shares an index with the variable. *)
Definition overlaps (variable : StateVector.t) (s : slice) : bool :=
  negb (length (np_intersect1d
                  (np_arange (start s) (stop s))
                  (np_arange (StateVector.first_point variable)
                             (StateVector.last_point variable))) =? 0)%nat.

(** An integer that numpy holds as an int64. *)
Definition int64 (z : Z) : Prop := - 2 ^ 63 <= z < 2 ^ 63.

(** The bounds [jac] hands to [np.arange] are int64 values: the bounds of
    the slices of the node and the end points of the variable. *)
Definition bounds_in_int64 (self variable : StateVector.t) : Prop :=
  Forall (fun s => int64 (start s) /\ int64 (stop s)) (StateVector.y_slices self) /\
  int64 (StateVector.first_point variable) /\ int64 (StateVector.last_point variable).

(** The slices whose blocks are in the matrix [jac] returns: all of them
    when every slice after the first overlaps the variable, otherwise the
    last slice that does not overlap it and the slices after that one. *)
Fixpoint surviving_slices (variable : StateVector.t) (l : list slice) : list slice :=
  match l with
  | [] => []
  | s :: l' => if forallb (overlaps variable) l' then s :: l'
               else surviving_slices variable l'
  end.

(** The domains of the children are pairwise disjoint: each child's domains
    are disjoint from [seen], the domains of the children before it. *)
Fixpoint domains_disjoint (seen : list string) (domains : list (list string)) : Prop :=
  match domains with
  | [] => True
  | d :: domains' =>
      (forall x, In x d -> ~ In x seen) /\ domains_disjoint (seen ++ d) domains'
  end.

(** The value of [level] in the last child that has this level. *)
Fixpoint last_value {X : Type} (level : string) (children : list (Symbol X))
  : option (list string) :=
  match children with
  | [] => None
  | child :: children' =>
      match last_value level children' with
      | Some v => Some v
      | None => sget (Node.auxiliary_domains child) level
      end
  end.

(** [assigned mesh doms n children children_eval p x]: the layout assigns
    to position [p] of the output the entry [x] of a child's vector: [p] is
    the [r]-th position of the output slice of a domain [d] at a secondary
    index [i], and [x] is the [r]-th entry of the slice that the child with
    domain [d] has for [d] at [i] in its own vector. *)
Definition assigned {X : Type} (mesh : Mesh) (doms : list string) (n : nat)
    (children : list (Symbol X)) (children_eval : list (list X)) (p : nat) (x : X) : Prop :=
  exists j child v q d k i r,
    nth_error children j = Some child /\
    nth_error children_eval j = Some v /\
    nth_error (Node.domain child) q = Some d /\
    nth_error doms k = Some d /\
    (i < n)%nat /\ (r < npts_at mesh d i)%nat /\
    Z.of_nat p = offset mesh doms i k + Z.of_nat r /\
    nth_error v (Z.to_nat (offset mesh (Node.domain child) i q) + r) = Some x.

(** Position [p] of the output holds a value. *)
Definition written {X : Type} (vector : list (option X)) (p : nat) : Prop :=
  exists y, nth_error vector p = Some (Some y).

(** The output has its size and holds nothing but assigned entries. *)
Definition only_assigned {X : Type} (mesh : Mesh) (doms : list string) (n : nat)
    (children : list (Symbol X)) (children_eval : list (list X)) (size : Z)
    (vector : list (option X)) : Prop :=
  length vector = Z.to_nat size /\
  forall p y, nth_error vector p = Some (Some y) ->
              assigned mesh doms n children children_eval p y.

(** What is written in [a] is written in [b]. *)
Definition keeps_written {X : Type} (a b : list (option X)) : Prop :=
  forall p, written a p -> written b p.

(** The output slice of domain [d] at secondary index [i] is written. *)
Definition slice_written {X : Type} (mesh : Mesh) (doms : list string) (d : string) (i : nat)
    (vector : list (option X)) : Prop :=
  forall k r, nth_error doms k = Some d -> (r < npts_at mesh d i)%nat ->
              written vector (Z.to_nat (offset mesh doms i k) + r).

(** The blocks of the children at secondary index [i]: for each child, in
    the order of the children, its Jacobian with the rows that the child
    has at index [i]. *)
Definition jac_blocks {X J : Type} (mesh : Mesh) (children : list (Symbol X))
    (child_jacs : list J) (i : nat) : list (J * slice) :=
  map (fun jc : J * Symbol X =>
         (fst jc, Slice (rows_sum mesh (Node.domain (snd jc)) i)
                        (rows_sum mesh (Node.domain (snd jc)) (S i))))
      (combine child_jacs children).

(** The place of a domain in the canonical order of the mesh. *)
Definition position (order : list string) (d : string) : nat :=
  match list_index d order with
  | Ok i => i
  | Raise _ => 0%nat
  end.

(** * Proofs *)

Unset Implicit Arguments.

(** ** Generic facts about the Python primitives *)

Lemma bind_ok {A B : Type} (r : result A) (k : A -> result B) (b : B) :
  bind r k = Ok b -> exists a, r = Ok a /\ k a = Ok b.
Proof.
  destruct r as [a|e]; simpl; intros H; [exists a; split; [reflexivity|exact H] | discriminate].
Qed.

Lemma last_item_last {X : Type} (l : list X) (d : X) :
  l <> [] -> last_item l = Ok (last l d).
Proof.
  induction l as [|x l IH]; intros Hne; [congruence|].
  destruct l as [|x' l]; [reflexivity|].
  change (last_item (x :: x' :: l)) with (last_item (x' :: l)).
  change (last (x :: x' :: l) d) with (last (x' :: l) d).
  apply IH; discriminate.
Qed.

Lemma last_item_ok_inv {X : Type} (l : list X) (x : X) :
  last_item l = Ok x -> exists l', l = l' ++ [x].
Proof.
  induction l as [|a l IH]; simpl; intros H; [discriminate|].
  destruct l as [|a' l].
  - injection H as ->. exists []; reflexivity.
  - destruct (IH H) as [l' Hl']. exists (a :: l'). rewrite Hl'. reflexivity.
Qed.

Lemma map_injective {A B : Type} (f : A -> B) :
  (forall a b, f a = f b -> a = b) ->
  forall l1 l2, map f l1 = map f l2 -> l1 = l2.
Proof.
  intros Hf l1; induction l1 as [|a l1 IH]; intros [|b l2] H; simpl in H;
    try discriminate; [reflexivity|].
  injection H as Hab Hl. f_equal; [apply Hf, Hab | apply IH, Hl].
Qed.

Lemma filter_seq_succ (f : nat -> bool) (n : nat) : forall a,
  filter f (seq (S a) n) = map S (filter (fun i => f (S i)) (seq a n)).
Proof.
  induction n as [|n IH]; intros a; [reflexivity|].
  cbn [seq filter]. rewrite IH. destruct (f (S a)); reflexivity.
Qed.

(** ** [StateVector._base_evaluate] *)

Lemma mask_select_positions {X : Type} (mask : list bool) : forall arr : list X,
  (length mask <= length arr)%nat ->
  map Some (mask_select arr mask)
  = map (nth_error arr) (filter (fun i => nth i mask false) (seq 0 (length mask))).
Proof.
  induction mask as [|b mask IH]; intros arr Hlen.
  - destruct arr; reflexivity.
  - destruct arr as [|x arr]; [simpl in Hlen; lia|].
    assert (Hlen' : (length mask <= length arr)%nat) by (simpl in Hlen; lia).
    specialize (IH arr Hlen').
    cbn [length seq filter nth]. rewrite filter_seq_succ.
    destruct b; cbn [mask_select map nth_error]; rewrite map_map; cbn [nth nth_error];
      rewrite IH; reflexivity.
Qed.

Lemma map_nth_error_firstn {X : Type} (y : list X) (n : nat) (idx : list nat) :
  Forall (fun i => (i < n)%nat) idx ->
  map (nth_error (firstn n y)) idx = map (nth_error y) idx.
Proof.
  induction 1 as [|i idx Hi _ IH]; [reflexivity|].
  cbn [map]. rewrite IH. f_equal.
  rewrite nth_error_firstn. destruct (Nat.ltb_spec i n); [reflexivity|lia].
Qed.

Lemma masked_indices_bounded (mask : list bool) :
  Forall (fun i => (i < length mask)%nat)
         (filter (fun i => nth i mask false) (seq 0 (length mask))).
Proof.
  apply Forall_forall. intros i Hi. apply filter_In in Hi. destruct Hi as [Hi _].
  apply in_seq in Hi. lia.
Qed.

Lemma base_evaluate_ok {X : Type} (sv : StateVector.t) (tm : option X) (y : list X) :
  (length (StateVector.evaluation_array sv) <= length y)%nat ->
  exists out,
    StateVector._base_evaluate sv tm (Some y) = Ok out /\
    map Some out
    = map (nth_error y)
          (filter (fun i => nth i (StateVector.evaluation_array sv) false)
                  (seq 0 (length (StateVector.evaluation_array sv)))).
Proof.
  intros Hlen. unfold StateVector._base_evaluate.
  destruct (Nat.ltb_spec (length y) (length (StateVector.evaluation_array sv))); [lia|].
  eexists; split; [reflexivity|].
  rewrite mask_select_positions by (rewrite length_firstn; lia).
  apply map_nth_error_firstn, masked_indices_bounded.
Qed.

(** C6, as amended.  [evaluate(t, y)] of a StateVector raises [TypeError]
    (InvalidArgumentError) when [y] is absent, raises [ValueError]
    (SizeMismatchError) when [y] is shorter than the evaluation mask, and
    otherwise returns the entries of [y] at the positions where the mask is
    true, in increasing position: the order of the indices, not the order in
    which the slices were supplied.  [StateVector(slice(0, 3))] on
    [10, 20, 30, 40] gives the column [10, 20, 30] and fails on a vector of
    length 2; slices supplied as 1:2, 0:1, 2:3 read [10, 20, 30] as
    [10, 20, 30]. *)
Theorem base_evaluate_reads_mask_in_index_order :
  (forall (X : Type) (sv : StateVector.t) (tm : option X),
      StateVector._base_evaluate sv tm None = Raise TypeError /\
      (forall y : list X,
          (length y < length (StateVector.evaluation_array sv))%nat ->
          StateVector._base_evaluate sv tm (Some y) = Raise ValueError) /\
      (forall y : list X,
          (length (StateVector.evaluation_array sv) <= length y)%nat ->
          exists out,
            StateVector._base_evaluate sv tm (Some y) = Ok out /\
            map Some out
            = map (nth_error y)
                  (filter (fun i => nth i (StateVector.evaluation_array sv) false)
                          (seq 0 (length (StateVector.evaluation_array sv)))))) /\
  StateVector.__init__ false [PySlice (Slice 0 3)] None None None None = Ok sv_0_3 /\
  StateVector._base_evaluate sv_0_3 (@None Z) (Some [10; 20; 30; 40]) = Ok [10; 20; 30] /\
  StateVector._base_evaluate sv_0_3 (@None Z) (Some [10; 20]) = Raise ValueError /\
  (exists sv,
      StateVector.__init__ false [PySlice (Slice 1 2); PySlice (Slice 0 1); PySlice (Slice 2 3)]
                           None None None None = Ok sv /\
      StateVector._base_evaluate sv (@None Z) (Some [10; 20; 30]) = Ok [10; 20; 30]).
Proof.
  split; [|repeat split; try reflexivity; eexists; split; reflexivity].
  intros X sv tm. split; [reflexivity|]. split.
  - intros y Hlen. unfold StateVector._base_evaluate.
    destruct (Nat.ltb_spec (length y) (length (StateVector.evaluation_array sv)));
      [reflexivity|lia].
  - intros y Hlen. apply base_evaluate_ok, Hlen.
Qed.

(** An instance: [StateVector(slice(0, 3))] on a vector of length 4. *)
Lemma base_evaluate_reads_mask_witness :
  exists out,
    StateVector._base_evaluate sv_0_3 (@None Z) (Some [10; 20; 30; 40]) = Ok out /\
    map Some out = [Some 10; Some 20; Some 30].
Proof.
  apply (proj2 (proj2 (proj1 base_evaluate_reads_mask_in_index_order Z sv_0_3 None))
               [10; 20; 30; 40]).
  simpl. lia.
Defined.

(** C6 as the specification states it fails: with the slices supplied as
    1:2, 0:1, 2:3 the values do not come back in the order of the slices
    (which would be 20, 10, 30). *)
Lemma base_evaluate_not_in_slice_order :
  exists sv,
    StateVector.__init__ false [PySlice (Slice 1 2); PySlice (Slice 0 1); PySlice (Slice 2 3)]
                         None None None None = Ok sv /\
    gather_in_slice_order [10; 20; 30] (StateVector.y_slices sv) = [20; 10; 30] /\
    StateVector._base_evaluate sv (@None Z) (Some [10; 20; 30])
    <> Ok (gather_in_slice_order [10; 20; 30] (StateVector.y_slices sv)).
Proof.
  eexists. split; [reflexivity|]. split; [reflexivity|].
  vm_compute. discriminate.
Qed.

(** ** [StateVector.set_id] *)

Lemma id_key_components (s1 s2 : StateVector.t) :
  StateVector.id_key s1 = StateVector.id_key s2 <->
  StateVector.name s1 = StateVector.name s2 /\
  StateVector.domain s1 = StateVector.domain s2 /\
  StateVector.evaluation_array s1 = StateVector.evaluation_array s2.
Proof.
  unfold StateVector.id_key. split.
  - cbn [app]. intros H. injection H as Hname Hmask Hdom.
    repeat split; [exact Hname | |].
    + eapply map_injective; [|exact Hdom]. intros a b Hab. injection Hab as ->. reflexivity.
    + eapply map_injective; [|exact Hmask]. intros a b Hab. injection Hab as ->. reflexivity.
  - intros (-> & -> & ->). reflexivity.
Qed.

(** C7, as amended.  The identity of a StateVector is the hash of the tuple
    (class, name, mask, domain...).  Two StateVectors with the same name,
    domain and mask content have the same identity whatever their slices
    are; two StateVectors with the same identity have the same name, domain
    and mask content or are a collision of [hash], two different tuples with
    one hash; so on every pair of nodes on which [hash] does not collide,
    the identities are equal exactly when name, domain and mask content are
    (the class is StateVector for both).  The nodes over the slices 0:2, 2:4
    and over the slice 0:4, built with one name and domain, are an instance:
    different slices, one identity. *)
Theorem state_vector_identity :
  forall (H : Type) (hash : hashable -> H),
    (forall s1 s2 : StateVector.t,
        StateVector.name s1 = StateVector.name s2 /\
        StateVector.domain s1 = StateVector.domain s2 /\
        StateVector.evaluation_array s1 = StateVector.evaluation_array s2 ->
        StateVector.set_id hash s1 = StateVector.set_id hash s2) /\
    (forall s1 s2 : StateVector.t,
        StateVector.set_id hash s1 = StateVector.set_id hash s2 ->
        (StateVector.name s1 = StateVector.name s2 /\
         StateVector.domain s1 = StateVector.domain s2 /\
         StateVector.evaluation_array s1 = StateVector.evaluation_array s2) \/
        (StateVector.id_key s1 <> StateVector.id_key s2 /\
         hash (StateVector.id_key s1) = hash (StateVector.id_key s2))) /\
    (forall s1 s2 : StateVector.t,
        (hash (StateVector.id_key s1) = hash (StateVector.id_key s2) ->
         StateVector.id_key s1 = StateVector.id_key s2) ->
        (StateVector.set_id hash s1 = StateVector.set_id hash s2 <->
         StateVector.name s1 = StateVector.name s2 /\
         StateVector.domain s1 = StateVector.domain s2 /\
         StateVector.evaluation_array s1 = StateVector.evaluation_array s2)) /\
    (StateVector.__init__ false [PySlice (Slice 0 2); PySlice (Slice 2 4)] (Some "u"%string)
                          (Some ["negative electrode"%string]) None None = Ok sv_two_slices /\
     StateVector.__init__ false [PySlice (Slice 0 4)] (Some "u"%string)
                          (Some ["negative electrode"%string]) None None = Ok sv_one_slice /\
     StateVector.y_slices sv_two_slices <> StateVector.y_slices sv_one_slice /\
     StateVector.set_id hash sv_two_slices = StateVector.set_id hash sv_one_slice).
Proof.
  intros H hash. split; [|split; [|split]].
  - intros s1 s2 Hsame. unfold StateVector.set_id. f_equal.
    apply id_key_components, Hsame.
  - intros s1 s2 Hid. unfold StateVector.set_id in Hid.
    destruct (string_dec (StateVector.name s1) (StateVector.name s2)) as [Hname|Hname].
    + destruct (list_eq_dec string_dec (StateVector.domain s1) (StateVector.domain s2))
        as [Hdom|Hdom].
      * destruct (list_eq_dec bool_dec (StateVector.evaluation_array s1)
                              (StateVector.evaluation_array s2)) as [Hmask|Hmask].
        -- left. repeat split; assumption.
        -- right. split; [|exact Hid]. intros Hkey. apply id_key_components in Hkey.
           apply Hmask, Hkey.
      * right. split; [|exact Hid]. intros Hkey. apply id_key_components in Hkey.
        apply Hdom, Hkey.
    + right. split; [|exact Hid]. intros Hkey. apply id_key_components in Hkey.
      apply Hname, Hkey.
  - intros s1 s2 Hfree. unfold StateVector.set_id. rewrite <- id_key_components. split.
    + exact Hfree.
    + intros ->. reflexivity.
  - repeat split; try reflexivity. discriminate.
Qed.

(** An instance, with the tuple itself for its hash. *)
Lemma state_vector_identity_witness :
  StateVector.set_id (fun k : hashable => k) sv_two_slices
  = StateVector.set_id (fun k : hashable => k) sv_0_3 <->
  StateVector.name sv_two_slices = StateVector.name sv_0_3 /\
  StateVector.domain sv_two_slices = StateVector.domain sv_0_3 /\
  StateVector.evaluation_array sv_two_slices = StateVector.evaluation_array sv_0_3.
Proof.
  apply (proj1 (proj2 (proj2 (state_vector_identity hashable (fun k : hashable => k))))).
  intros Hab. exact Hab.
Defined.

(** Whether a value occurs among the first values of a sequence. *)
Lemma find_value (f : nat -> Z) (v : Z) (n : nat) :
  (exists i, (i <= n)%nat /\ f i = v) \/ (forall i, (i <= n)%nat -> f i <> v).
Proof.
  induction n as [|n IH].
  - destruct (Z.eq_dec (f 0%nat) v) as [Heq|Hne].
    + left. exists 0%nat. split; [lia | exact Heq].
    + right. intros i Hi. replace i with 0%nat by lia. exact Hne.
  - destruct IH as [(i & Hi & Heq)|Hnone].
    + left. exists i. split; [lia | exact Heq].
    + destruct (Z.eq_dec (f (S n)) v) as [Heq|Hne].
      * left. exists (S n). split; [lia | exact Heq].
      * right. intros i Hi. destruct (Nat.eq_dec i (S n)) as [->|Hlt]; [exact Hne|].
        apply Hnone. lia.
Qed.

(** [n + 1] values among [n] integers: two of them are equal. *)
Lemma pigeonhole (n : nat) : forall (f : nat -> Z) (lo : Z),
  (forall i, (i <= n)%nat -> lo <= f i < lo + Z.of_nat n) ->
  exists i j, (i < j <= n)%nat /\ f i = f j.
Proof.
  induction n as [|n IH]; intros f lo Hrange.
  - specialize (Hrange 0%nat (Nat.le_refl 0)). lia.
  - destruct (find_value f (f (S n)) n) as [(i & Hi & Heq)|Hnone].
    + exists i, (S n). split; [lia | exact Heq].
    + pose proof (Hrange (S n) (Nat.le_refl _)) as Hlast.
      destruct (IH (fun i => if f i =? lo + Z.of_nat n then f (S n) else f i) lo)
        as (i & j & Hij & Heq).
      * intros i Hi. pose proof (Hrange i (Nat.le_trans _ _ _ Hi (Nat.le_succ_diag_r n))) as Hfi.
        pose proof (Hnone i Hi) as Hne.
        destruct (Z.eqb_spec (f i) (lo + Z.of_nat n)); lia.
      * cbv beta in Heq.
        pose proof (Hnone i ltac:(lia)) as Hi. pose proof (Hnone j ltac:(lia)) as Hj.
        exists i, j. split; [lia|].
        destruct (Z.eqb_spec (f i) (lo + Z.of_nat n));
          destruct (Z.eqb_spec (f j) (lo + Z.of_nat n)); congruence.
Qed.

Lemma mask_of_positive_length (p : positive) :
  length (mask_of_positive p) = Pos.size_nat p.
Proof.
  induction p as [p IH|p IH|]; cbn [mask_of_positive length Pos.size_nat]; congruence.
Qed.

Lemma mask_of_positive_injective (p : positive) : forall q,
  mask_of_positive p = mask_of_positive q -> p = q.
Proof.
  induction p as [p IH|p IH|]; intros [q|q|] H; cbn [mask_of_positive] in H;
    try discriminate H; try reflexivity.
  - injection H as H. f_equal. apply IH, H.
  - injection H as H. destruct p; discriminate H.
  - injection H as H. f_equal. apply IH, H.
  - injection H as H. destruct q; discriminate H.
Qed.

(** C7 as the specification states it fails: a difference in mask content
    does not always make two StateVectors distinct.  The identity is what
    [hash] returns, an integer of 64 bits, and there are more masks of at
    most 65 entries than such integers: whatever [hash] is, two
    StateVectors built with one name, one domain and different masks of at
    most 65 entries have the same identity. *)
Lemma identity_collides_under_a_64_bit_hash :
  ~ exists hash : hashable -> Z,
      (forall k, - 2 ^ 63 <= hash k < 2 ^ 63) /\
      forall (mask1 mask2 : list bool) (s1 s2 : StateVector.t),
        (length mask1 <= 65)%nat -> (length mask2 <= 65)%nat ->
        StateVector.__init__ false [PySlice (Slice 0 65)] (Some "u"%string) None None
                             (Some mask1) = Ok s1 ->
        StateVector.__init__ false [PySlice (Slice 0 65)] (Some "u"%string) None None
                             (Some mask2) = Ok s2 ->
        StateVector.set_id hash s1 = StateVector.set_id hash s2 ->
        StateVector.evaluation_array s1 = StateVector.evaluation_array s2.
Proof.
  intros (hash & Hbits & Hdistinct).
  remember (Z.to_nat (2 ^ 64)) as n eqn:Hn.
  assert (Hsize : Z.of_nat n = 2 ^ 64) by (rewrite Hn; apply Z2Nat.id; lia).
  clear Hn.
  destruct (pigeonhole n
              (fun i => hash (StateVector.id_key
                                (sv_with_mask (mask_of_positive (Pos.of_succ_nat i)))))
              (- 2 ^ 63)) as (i & j & Hij & Hcollision).
  { intros i _. rewrite Hsize.
    pose proof (Hbits (StateVector.id_key
                         (sv_with_mask (mask_of_positive (Pos.of_succ_nat i))))).
    lia. }
  assert (Hshort : forall k, (k <= n)%nat ->
                             (length (mask_of_positive (Pos.of_succ_nat k)) <= 65)%nat).
  { intros k Hk. rewrite mask_of_positive_length.
    apply (Nat.le_trans _ (Pos.size_nat 36893488147419103231)); [|reflexivity].
    apply Pos.size_nat_monotone. lia. }
  assert (Hmasks : mask_of_positive (Pos.of_succ_nat i) = mask_of_positive (Pos.of_succ_nat j)).
  { apply (Hdistinct (mask_of_positive (Pos.of_succ_nat i))
                     (mask_of_positive (Pos.of_succ_nat j))
                     (sv_with_mask (mask_of_positive (Pos.of_succ_nat i)))
                     (sv_with_mask (mask_of_positive (Pos.of_succ_nat j)))).
    - apply Hshort. lia.
    - apply Hshort. lia.
    - reflexivity.
    - reflexivity.
    - exact Hcollision. }
  apply mask_of_positive_injective, SuccNat2Pos.inj in Hmasks. lia.
Qed.

(** ** [StateVector.__init__] *)

Lemma check_slices_map (l : list slice) : StateVector.check_slices (map PySlice l) = Ok l.
Proof.
  induction l as [|s l IH]; [reflexivity|]. cbn [map StateVector.check_slices].
  rewrite IH. reflexivity.
Qed.

Lemma check_slices_cases (args : list pyobj) :
  (exists l, args = map PySlice l /\ StateVector.check_slices args = Ok l) \/
  ((exists a, In a args /\ ~ is_slice a) /\ StateVector.check_slices args = Raise TypeError).
Proof.
  induction args as [|a args IH].
  - left. exists []. split; reflexivity.
  - destruct a as [s| | |].
    2-4: right; split;
      [eexists; split; [left; reflexivity | intros [s' Hs]; discriminate] | reflexivity].
    destruct IH as [(l & -> & Hl) | ((a & Ha & Hns) & Hl)].
    + left. exists (s :: l). split; [reflexivity|].
      cbn [StateVector.check_slices]. rewrite Hl. reflexivity.
    + right. split; [exists a; split; [right; exact Ha | exact Hns]|].
      cbn [StateVector.check_slices]. rewrite Hl. reflexivity.
Qed.

Lemma default_name_ok (l : list slice) :
  l <> [] -> exists n, StateVector.default_name l = Ok n.
Proof.
  intros Hne. destruct l as [|s0 [|s1 [|s2 l]]]; [congruence| | |].
  - eexists; reflexivity.
  - eexists; reflexivity.
  - unfold StateVector.default_name.
    rewrite (last_item_last _ s0) by discriminate.
    eexists; reflexivity.
Qed.

Lemma set_evaluation_array_cases (debug_mode : bool) (l : list slice)
    (given : option (list bool)) :
  l <> [] ->
  (exists ea, StateVector.set_evaluation_array debug_mode l given = Ok ea) \/
  (StateVector.set_evaluation_array debug_mode l given = Raise ValueError /\
   stop (last l (Slice 0 0)) < 0).
Proof.
  intros Hne. unfold StateVector.set_evaluation_array.
  assert (Hcomputed :
    (exists ea, (sl <- last_item l ;;
                 array <- np_zeros (stop sl) ;;
                 Ok (map (fun x => negb (x =? 0))
                         (fold_left (fun a y_slice => setslice_scalar a y_slice 1) l array)))
                = Ok ea) \/
    ((sl <- last_item l ;;
      array <- np_zeros (stop sl) ;;
      Ok (map (fun x => negb (x =? 0))
              (fold_left (fun a y_slice => setslice_scalar a y_slice 1) l array)))
     = Raise ValueError /\ stop (last l (Slice 0 0)) < 0)).
  { rewrite (last_item_last _ (Slice 0 0)) by exact Hne. cbn [bind].
    unfold np_zeros. destruct (Z.ltb_spec (stop (last l (Slice 0 0))) 0).
    - right. split; [reflexivity|lia].
    - left. eexists; reflexivity. }
  destruct given as [ea|]; [destruct debug_mode|]; try exact Hcomputed.
  left. eexists; reflexivity.
Qed.

Lemma init_of_slices (debug_mode : bool) (l : list slice) (name : option string)
    (domain : option (list string)) (aux : option (sdict (list string)))
    (given : option (list bool)) :
  l <> [] ->
  (exists sv, StateVector.__init__ debug_mode (map PySlice l) name domain aux given = Ok sv /\
              StateVector.y_slices sv = l) \/
  (StateVector.__init__ debug_mode (map PySlice l) name domain aux given = Raise ValueError /\
   stop (last l (Slice 0 0)) < 0).
Proof.
  intros Hne. unfold StateVector.__init__. rewrite check_slices_map. cbn [bind].
  assert (Hname : exists n, match name with
                            | None => StateVector.default_name l
                            | Some n => Ok n
                            end = Ok n).
  { destruct name as [n|]; [eexists; reflexivity | apply default_name_ok, Hne]. }
  destruct Hname as [n ->]. cbn [bind].
  destruct l as [|s0 l']; [congruence|]. cbn [first_item bind].
  rewrite (last_item_last _ (Slice 0 0)) by exact Hne. cbn [bind].
  destruct (set_evaluation_array_cases debug_mode _ given Hne) as [[ea ->] | [-> Hneg]].
  - left. eexists; split; reflexivity.
  - right. split; [reflexivity | exact Hneg].
Qed.

(** C9, as amended.  [StateVector.__init__] raises [TypeError]
    (InvalidArgumentError) exactly when one of its arguments is not a slice
    object.  The bounds of the slices are not examined: every non-empty
    sequence of slices whose last stop is not negative is accepted as given,
    whether or not its slices have start <= stop and non-negative bounds. *)
Theorem init_checks_only_the_type :
  forall (debug_mode : bool) (args : list pyobj) (name : option string)
         (domain : option (list string)) (aux : option (sdict (list string)))
         (given : option (list bool)),
    (StateVector.__init__ debug_mode args name domain aux given = Raise TypeError <->
     exists a, In a args /\ ~ is_slice a) /\
    (forall l : list slice,
        args = map PySlice l -> l <> [] -> 0 <= stop (last l (Slice 0 0)) ->
        exists sv,
          StateVector.__init__ debug_mode args name domain aux given = Ok sv /\
          StateVector.y_slices sv = l).
Proof.
  intros debug_mode args name domain aux given. split.
  - destruct (check_slices_cases args) as [(l & -> & Hl) | (Hbad & Hl)].
    + split.
      * intros Herr. exfalso. destruct l as [|s0 l'].
        -- destruct name; discriminate Herr.
        -- destruct (init_of_slices debug_mode (s0 :: l') name domain aux given)
             as [(sv & Hsv & _) | (Hv & _)]; [discriminate | |]; congruence.
      * intros (a & Ha & Hns). exfalso. apply Hns.
        apply in_map_iff in Ha. destruct Ha as (s & <- & _). exists s. reflexivity.
    + split; [intros _; exact Hbad|]. intros _.
      unfold StateVector.__init__. rewrite Hl. reflexivity.
  - intros l -> Hne Hstop.
    destruct (init_of_slices debug_mode l name domain aux given Hne)
      as [Hok | (_ & Hneg)]; [exact Hok | lia].
Qed.

(** An instance: [StateVector(slice(5, 2))] is accepted. *)
Lemma init_checks_only_the_type_witness :
  exists sv,
    StateVector.__init__ false [PySlice (Slice 5 2)] None None None None = Ok sv /\
    StateVector.y_slices sv = [Slice 5 2].
Proof.
  apply (proj2 (init_checks_only_the_type false [PySlice (Slice 5 2)] None None None None)
               [Slice 5 2]).
  - reflexivity.
  - discriminate.
  - simpl. lia.
Defined.

(** C9 as the specification states it fails: [StateVector(slice(5, 2))] is
    built, although its slice has start > stop. *)
Lemma init_accepts_malformed_slice :
  exists sv,
    StateVector.__init__ false [PySlice (Slice 5 2)] None None None None = Ok sv /\
    In (Slice 5 2) (StateVector.y_slices sv) /\
    ~ well_formed (Slice 5 2).
Proof.
  eexists. split; [reflexivity|]. split; [left; reflexivity|].
  unfold well_formed. simpl. lia.
Qed.

(** ** Loops and dictionaries *)

Lemma for_each_invariant {S X : Type} (P : S -> Prop) (E : exn -> Prop)
    (body : S -> X -> result S) (xs : list X) :
  (forall st x, In x xs -> P st ->
                match body st x with Ok st' => P st' | Raise e => E e end) ->
  forall st, P st ->
             match for_each body xs st with Ok st' => P st' | Raise e => E e end.
Proof.
  induction xs as [|x xs IH]; intros Hbody st Hst; [exact Hst|].
  cbn [for_each]. pose proof (Hbody st x (or_introl eq_refl) Hst) as Hx.
  destruct (body st x) as [st'|e]; cbn [bind]; [|exact Hx].
  apply IH; [|exact Hx]. intros st0 x0 Hin. apply Hbody. right. exact Hin.
Qed.

Section DictFacts.
Variables K V : Type.
Variable eqb : K -> K -> bool.
Hypothesis eqb_eq : forall a b, eqb a b = true <-> a = b.

Lemma eqb_refl_of_spec (a : K) : eqb a a = true.
Proof. apply eqb_eq. reflexivity. Qed.

Lemma dict_get_set (d : Dict.t K V) (k k' : K) (v : V) :
  Dict.get eqb (Dict.set eqb d k v) k' = if eqb k' k then Some v else Dict.get eqb d k'.
Proof.
  induction d as [|[k1 v1] d IH]; cbn [Dict.set Dict.get].
  - reflexivity.
  - destruct (eqb k k1) eqn:Hk; cbn [Dict.get].
    + apply eqb_eq in Hk. subst k1. destruct (eqb k' k); reflexivity.
    + rewrite IH. destruct (eqb k' k1) eqn:Hk1; [|reflexivity].
      apply eqb_eq in Hk1. subst k1.
      destruct (eqb k' k) eqn:Hk'; [|reflexivity].
      apply eqb_eq in Hk'. subst k'. rewrite eqb_refl_of_spec in Hk. discriminate.
Qed.

Lemma dict_keys_set (d : Dict.t K V) (k : K) (v : V) :
  Dict.keys (Dict.set eqb d k v)
  = match Dict.get eqb d k with
    | Some _ => Dict.keys d
    | None => Dict.keys d ++ [k]
    end.
Proof.
  induction d as [|[k1 v1] d IH]; cbn [Dict.set Dict.get]; [reflexivity|].
  destruct (eqb k k1) eqn:Hk; [reflexivity|].
  unfold Dict.keys in *. cbn [map fst]. rewrite IH.
  destruct (Dict.get eqb d k); reflexivity.
Qed.

Lemma dict_get_none_keys (d : Dict.t K V) (k : K) :
  Dict.get eqb d k = None <-> ~ In k (Dict.keys d).
Proof.
  induction d as [|[k1 v1] d IH]; cbn [Dict.get Dict.keys map fst In].
  - split; [intros _ []|reflexivity].
  - destruct (eqb k k1) eqn:Hk.
    + apply eqb_eq in Hk. subst k1. split; [discriminate|]. intros H. exfalso. apply H.
      left. reflexivity.
    + unfold Dict.keys in IH. rewrite IH. split.
      * intros Hn [Heq|Hin]; [|exact (Hn Hin)]. subst k1.
        rewrite eqb_refl_of_spec in Hk. discriminate.
      * intros Hn Hin. apply Hn. right. exact Hin.
Qed.

Lemma dict_keys_set_NoDup (d : Dict.t K V) (k : K) (v : V) :
  NoDup (Dict.keys d) -> NoDup (Dict.keys (Dict.set eqb d k v)).
Proof.
  intros Hnd. rewrite dict_keys_set.
  destruct (Dict.get eqb d k) eqn:Hget; [exact Hnd|].
  apply dict_get_none_keys in Hget.
  apply NoDup_rev in Hnd. rewrite <- (rev_involutive (Dict.keys d ++ [k])).
  apply NoDup_rev. rewrite rev_app_distr. cbn [rev app]. constructor; [|exact Hnd].
  rewrite <- in_rev. exact Hget.
Qed.
End DictFacts.

Lemma sget_sset {V : Type} (d : sdict V) (k k' : string) (v : V) :
  sget (sset d k v) k' = if String.eqb k' k then Some v else sget d k'.
Proof. apply dict_get_set, String.eqb_eq. Qed.

(** ** [Concatenation.get_children_auxiliary_domains] *)

Lemma merge_level_never_conflicts (child_aux aux_domains : sdict (list string))
    (level : string) :
  no_attribute_key aux_domains ->
  match Concatenation.merge_level child_aux aux_domains level with
  | Ok aux' => no_attribute_key aux'
  | Raise e => e = KeyError
  end.
Proof.
  intros Hinv.
  unfold Concatenation.merge_level, Concatenation.merge_level_with, sgetitem, Dict.getitem.
  fold (sget child_aux level). destruct (sget child_aux level) as [value|]; cbn [bind];
    [|reflexivity].
  destruct (hasattr_dict level) eqn:Hattr; cbn [negb].
  - fold (sget aux_domains level). destruct (sget aux_domains level) as [current|] eqn:Hget;
      cbn [bind]; [|reflexivity].
    exfalso. assert (Hf : hasattr_dict level = false) by (apply Hinv; congruence).
    congruence.
  - intros level' Hlevel'. rewrite sget_sset in Hlevel'.
    destruct (String.eqb level' level) eqn:Heq.
    + apply String.eqb_eq in Heq. subst level'. exact Hattr.
    + apply Hinv, Hlevel'.
Qed.

Lemma get_children_auxiliary_domains_no_conflict {X : Type} (children : list (Symbol X)) :
  match Concatenation.get_children_auxiliary_domains children with
  | Ok aux => no_attribute_key aux
  | Raise e => e = KeyError
  end.
Proof.
  unfold Concatenation.get_children_auxiliary_domains,
    Concatenation.get_children_auxiliary_domains_with.
  apply (for_each_invariant no_attribute_key (fun e => e = KeyError)).
  - intros aux child _ Haux.
    apply (for_each_invariant no_attribute_key (fun e => e = KeyError)); [|exact Haux].
    intros aux' level _ Haux'.
    apply (merge_level_never_conflicts (Node.auxiliary_domains child) aux' level Haux').
  - intros level Hlevel. exfalso. apply Hlevel. reflexivity.
Qed.

(** C5: what the code does where the claim asks for a DomainError.  Two
    children that give the axis "secondary" the different non-empty values
    "current collector" and "particle" are merged without an error and the
    merged value is the last one; a child with an empty value that comes
    after a child with a non-empty one empties the merged value; and no
    choice of children makes [get_children_auxiliary_domains] raise
    [DomainError]. *)
Theorem auxiliary_domain_conflict_is_never_raised :
  Concatenation.get_children_auxiliary_domains
    [aux_child 1 "negative electrode" ["current collector"%string];
     aux_child 2 "separator" ["particle"%string]]
  = Ok [("secondary"%string, ["particle"%string])] /\
  Concatenation.get_children_auxiliary_domains
    [aux_child 1 "negative electrode" ["current collector"%string];
     aux_child 2 "separator" []]
  = Ok [("secondary"%string, [])] /\
  (forall (X : Type) (children : list (Symbol X)),
      Concatenation.get_children_auxiliary_domains children <> Raise DomainError).
Proof.
  split; [reflexivity|]. split; [reflexivity|].
  intros X children Herr.
  pose proof (get_children_auxiliary_domains_no_conflict children) as H.
  rewrite Herr in H. discriminate H.
Qed.

(** ** [StateVector.jac] *)

Lemma length_np_arange (a b : Z) : length (np_arange a b) = Z.to_nat (b - a).
Proof. unfold np_arange. rewrite length_map, length_seq. reflexivity. Qed.

Lemma in_np_arange (x a b : Z) : In x (np_arange a b) <-> a <= x < b.
Proof.
  unfold np_arange. rewrite in_map_iff. split.
  - intros (k & <- & Hk). apply in_seq in Hk. lia.
  - intros Hx. exists (Z.to_nat (x - a)). split; [lia|]. apply in_seq. lia.
Qed.

Lemma np_arange_NoDup (a b : Z) : NoDup (np_arange a b).
Proof.
  unfold np_arange. apply Finite.Injective_map_NoDup; [|apply seq_NoDup].
  intros j k Hjk. lia.
Qed.

Lemma in_np_intersect1d (x : Z) (l : list Z) (a b : Z) :
  In x (np_intersect1d l (np_arange a b)) <-> In x l /\ a <= x < b.
Proof.
  unfold np_intersect1d. rewrite filter_In, existsb_exists. split.
  - intros (Hx & y & Hy & Heq). apply Z.eqb_eq in Heq. subst y.
    split; [exact Hx | apply in_np_arange, Hy].
  - intros (Hx & Hab). split; [exact Hx|]. exists x. split; [apply in_np_arange, Hab|].
    apply Z.eqb_refl.
Qed.

Lemma coo_entry_count (g1 g2 : Z -> Z) (r c : Z) (l : list Z) :
  coo_entry (map (fun _ => 1) (map g1 l)) (map g1 l) (map g2 l) r c
  = Z.of_nat (length (filter (fun g => (g1 g =? r) && (g2 g =? c)) l)).
Proof.
  induction l as [|g l IH]; [reflexivity|]. cbn [map coo_entry filter]. rewrite IH.
  destruct ((g1 g =? r) && (g2 g =? c)); cbn [length]; lia.
Qed.

(** In a list without repetition a test that only one value can pass keeps
    that value, if it is there. *)
Lemma filter_unique (p : Z -> bool) (g0 : Z) (l : list Z) :
  NoDup l -> (forall g, p g = true -> g = g0) ->
  length (filter p l) = if p g0 && existsb (Z.eqb g0) l then 1%nat else 0%nat.
Proof.
  intros Hnd Hp. induction Hnd as [|x l Hx Hnd IH]; cbn [filter existsb].
  - rewrite andb_false_r. reflexivity.
  - destruct (p x) eqn:Hpx.
    + pose proof (Hp x Hpx) as ->. rewrite Z.eqb_refl, Hpx. cbn [andb orb length].
      rewrite IH. destruct (existsb (Z.eqb g0) l) eqn:Hex; [|rewrite andb_false_r; reflexivity].
      exfalso. apply Hx. apply existsb_exists in Hex. destruct Hex as (y & Hy & Heq).
      apply Z.eqb_eq in Heq. subst y. exact Hy.
    + rewrite IH. destruct (Z.eqb_spec g0 x) as [->|Hne]; cbn [orb]; [|reflexivity].
      rewrite Hpx. reflexivity.
Qed.

Lemma map_constant {A B : Type} (f : A -> B) (v : B) (l : list A) :
  (forall x, In x l -> f x = v) -> map f l = repeat v (length l).
Proof.
  induction l as [|x l IH]; intros H; [reflexivity|]. cbn [map length repeat].
  rewrite (H x (or_introl eq_refl)), IH; [reflexivity|].
  intros y Hy. apply H. right. exact Hy.
Qed.

(** The block [jac] builds for one slice is the block of the specification. *)
Lemma jac_block (variable : StateVector.t) (s : slice) :
  let slice_indices := np_arange (start s) (stop s) in
  let variable_y_indices :=
    np_arange (StateVector.first_point variable) (StateVector.last_point variable) in
  let common := np_intersect1d slice_indices variable_y_indices in
  let row := map (fun g => g - start s) common in
  let col := map (fun g => g - StateVector.first_point variable) common in
  rows (csr_matrix (map (fun _ => 1) row) row col
                   (length slice_indices) (length variable_y_indices))
  = jac_block_spec variable s.
Proof.
  intros slice_indices variable_y_indices common row col.
  unfold csr_matrix, jac_block_spec. cbn [rows].
  unfold slice_indices, variable_y_indices. rewrite !length_np_arange.
  apply map_ext_in. intros r Hr. apply map_ext_in. intros c Hc.
  apply in_seq in Hr. apply in_seq in Hc.
  unfold row, col. rewrite coo_entry_count.
  rewrite (filter_unique _ (start s + Z.of_nat r)).
  - destruct (Z.eqb_spec (start s + Z.of_nat r)
                         (StateVector.first_point variable + Z.of_nat c)) as [Heq|Hne].
    + replace (start s + Z.of_nat r - start s =? Z.of_nat r) with true
        by (symmetry; apply Z.eqb_eq; lia).
      replace (start s + Z.of_nat r - StateVector.first_point variable =? Z.of_nat c)
        with true by (symmetry; apply Z.eqb_eq; lia).
      cbn [andb].
      assert (Hin : In (start s + Z.of_nat r) common).
      { apply in_np_intersect1d. split; [apply in_np_arange|]; lia. }
      replace (existsb (Z.eqb (start s + Z.of_nat r)) common) with true; [reflexivity|].
      symmetry. apply existsb_exists. eexists. split; [exact Hin|apply Z.eqb_refl].
    + replace (start s + Z.of_nat r - StateVector.first_point variable =? Z.of_nat c)
        with false by (symmetry; apply Z.eqb_neq; lia).
      rewrite andb_false_r. reflexivity.
  - apply NoDup_filter, np_arange_NoDup.
  - intros g Hg. apply andb_prop in Hg. destruct Hg as [Hg _]. apply Z.eqb_eq in Hg. lia.
Qed.

(** When the slice shares no index with the variable the block is zero. *)
Lemma jac_block_zero (variable : StateVector.t) (s : slice) :
  np_intersect1d (np_arange (start s) (stop s))
                 (np_arange (StateVector.first_point variable)
                            (StateVector.last_point variable)) = [] ->
  jac_block_spec variable s
  = repeat (repeat 0 (Z.to_nat (StateVector.last_point variable
                                - StateVector.first_point variable)))
           (Z.to_nat (stop s - start s)).
Proof.
  intros Hempty. unfold jac_block_spec.
  rewrite (map_constant _ (repeat 0 (Z.to_nat (StateVector.last_point variable
                                               - StateVector.first_point variable)))
                        (seq 0 (Z.to_nat (stop s - start s))));
    [rewrite length_seq; reflexivity|].
  intros r Hr.
  rewrite (map_constant _ 0 (seq 0 (Z.to_nat (StateVector.last_point variable
                                              - StateVector.first_point variable))));
    [rewrite length_seq; reflexivity|].
  intros c Hc. apply in_seq in Hr. apply in_seq in Hc.
  destruct (Z.eqb_spec (start s + Z.of_nat r)
                       (StateVector.first_point variable + Z.of_nat c)) as [Heq|];
    [|reflexivity].
  exfalso.
  assert (Hin : In (start s + Z.of_nat r)
                   (np_intersect1d (np_arange (start s) (stop s))
                      (np_arange (StateVector.first_point variable)
                                 (StateVector.last_point variable)))).
  { apply in_np_intersect1d. split; [apply in_np_arange|]; lia. }
  rewrite Hempty in Hin. exact Hin.
Qed.

(** For a node with one slice [jac] is the matrix of the specification: the
    identity against itself, zero against a disjoint slice. *)
Lemma jac_single_slice (self variable : StateVector.t) (s : slice) :
  StateVector.y_slices self = [s] ->
  (length (StateVector.y_slices variable) <= 1)%nat ->
  StateVector.jac self variable = Ok (jac_spec self variable).
Proof.
  intros Hself Hvar. unfold StateVector.jac, jac_spec.
  destruct (Nat.ltb_spec 1 (length (StateVector.y_slices variable))); [lia|].
  rewrite Hself. cbn [for_each flat_map]. rewrite app_nil_r.
  unfold StateVector.jac_step. rewrite !length_np_arange.
  destruct (np_intersect1d (np_arange (start s) (stop s))
              (np_arange (StateVector.first_point variable)
                         (StateVector.last_point variable))) as [|g common] eqn:Hcommon.
  - cbn [length Nat.eqb bind]. unfold csr_zeros. rewrite (jac_block_zero _ _ Hcommon).
    reflexivity.
  - cbn [length Nat.eqb]. unfold vstack. cbn [ncols csr_zeros csr_matrix].
    rewrite Nat.eqb_refl. cbn [bind rows app]. f_equal. f_equal.
    rewrite <- Hcommon.
    pose proof (jac_block variable s) as Hblock. cbn zeta in Hblock.
    unfold csr_matrix in Hblock. cbn [rows] in Hblock. rewrite !length_np_arange in Hblock.
    exact Hblock.
Qed.

(** C2: what the code does where the claim asks for the stacked blocks.
    For [s = StateVector(slice(0, 2), slice(4, 6))] and
    [variable = StateVector(slice(0, 2))] the stacked matrix of the claim has
    four rows, the identity block of the first slice above the zero block of
    the second; [jac] returns the zero block alone, two rows, because a slice
    that meets no index of the variable replaces the rows stacked so far.
    For a node with a single slice [jac] is the matrix of the claim: over
    [slice(2, 5)] the identity against itself, zero against [slice(0, 2)]. *)
Theorem jac_loses_rows_at_a_disjoint_slice :
  StateVector.__init__ false [PySlice (Slice 0 2); PySlice (Slice 4 6)] None None None None
  = Ok sv_0_2_4_6 /\
  StateVector.__init__ false [PySlice (Slice 0 2)] None None None None = Ok sv_0_2 /\
  StateVector.jac sv_0_2_4_6 sv_0_2 = Ok {| ncols := 2; rows := [[0; 0]; [0; 0]] |} /\
  jac_spec sv_0_2_4_6 sv_0_2
  = {| ncols := 2; rows := [[1; 0]; [0; 1]; [0; 0]; [0; 0]] |} /\
  StateVector.size sv_0_2_4_6 = 4%nat /\
  StateVector.__init__ false [PySlice (Slice 2 5)] None None None None = Ok sv_2_5 /\
  StateVector.jac sv_2_5 sv_2_5
  = Ok {| ncols := 3; rows := [[1; 0; 0]; [0; 1; 0]; [0; 0; 1]] |} /\
  StateVector.jac sv_2_5 sv_0_2 = Ok {| ncols := 2; rows := [[0; 0]; [0; 0]; [0; 0]] |} /\
  (forall (self variable : StateVector.t) (s : slice),
      StateVector.y_slices self = [s] ->
      (length (StateVector.y_slices variable) <= 1)%nat ->
      StateVector.jac self variable = Ok (jac_spec self variable)).
Proof.
  repeat (split; [reflexivity|]). exact jac_single_slice.
Qed.

(** An instance: the Jacobian of [StateVector(slice(2, 5))] against itself. *)
Lemma jac_single_slice_witness :
  StateVector.jac sv_2_5 sv_2_5
  = Ok {| ncols := 3; rows := [[1; 0; 0]; [0; 1; 0]; [0; 0; 1]] |}.
Proof.
  apply (proj2 (proj2 (proj2 (proj2 (proj2 (proj2 (proj2 (proj2
           jac_loses_rows_at_a_disjoint_slice)))))))
               sv_2_5 sv_2_5 (Slice 2 5)).
  - reflexivity.
  - simpl. lia.
Defined.

(** ** [DomainConcatenation.create_slices] *)

Lemma defaultdict_get_sset {V : Type} (d : sdict (list V)) (k k' : string) (v : list V) :
  defaultdict_get (sset d k v) k' = if String.eqb k' k then v else defaultdict_get d k'.
Proof.
  unfold defaultdict_get. rewrite sget_sset. destruct (String.eqb k' k); reflexivity.
Qed.

Lemma row_sum_app (mesh : Mesh) (i : nat) (l1 l2 : list string) :
  row_sum mesh i (l1 ++ l2) = row_sum mesh i l1 + row_sum mesh i l2.
Proof.
  induction l1 as [|d l1 IH]; cbn [app row_sum]; [reflexivity|]. rewrite IH. lia.
Qed.

Lemma row_sum_nonneg (mesh : Mesh) (i : nat) (l : list string) : 0 <= row_sum mesh i l.
Proof.
  induction l as [|d l IH]; cbn [row_sum]; lia.
Qed.

Lemma rows_sum_mono (mesh : Mesh) (doms : list string) (i j : nat) :
  (i <= j)%nat -> rows_sum mesh doms i <= rows_sum mesh doms j.
Proof.
  induction 1 as [|j _ IH]; [lia|]. cbn [rows_sum].
  pose proof (row_sum_nonneg mesh j doms). lia.
Qed.

Lemma firstn_succ_nth {A : Type} (l : list A) (k : nat) (x : A) :
  nth_error l k = Some x -> firstn (S k) l = firstn k l ++ [x].
Proof.
  revert k. induction l as [|a l IH]; intros [|k] H; cbn in H; try discriminate.
  - injection H as ->. reflexivity.
  - cbn [firstn app]. cbn [firstn] in IH. rewrite (IH k H). reflexivity.
Qed.

Lemma offset_succ (mesh : Mesh) (doms : list string) (i k : nat) (d : string) :
  nth_error doms k = Some d ->
  offset mesh doms i (S k) = offset mesh doms i k + Z.of_nat (npts_at mesh d i).
Proof.
  intros Hk. unfold offset. rewrite (firstn_succ_nth _ _ _ Hk), row_sum_app.
  cbn [row_sum]. lia.
Qed.

Lemma offset_row_end (mesh : Mesh) (doms : list string) (i : nat) :
  offset mesh doms i (length doms) = offset mesh doms (S i) 0.
Proof.
  unfold offset. rewrite firstn_all. cbn [firstn row_sum rows_sum]. lia.
Qed.

Lemma create_slices_step_ok (mesh : Mesh) (i : nat) (a b : Z) (sl : sdict (list slice))
    (d : string) (st' : DomainConcatenation.cursor) :
  DomainConcatenation.create_slices_step mesh i (a, b, sl) d = Ok st' ->
  st' = (b + Z.of_nat (npts_at mesh d i), b + Z.of_nat (npts_at mesh d i),
         sset sl d (defaultdict_get sl d ++ [Slice a (b + Z.of_nat (npts_at mesh d i))])).
Proof.
  unfold DomainConcatenation.create_slices_step, sgetitem, Dict.getitem, getitem, npts_at, sget.
  destruct (Dict.get String.eqb (submeshes mesh) d) as [submesh_list|]; cbn [bind];
    [|discriminate].
  destruct (nth_error submesh_list i) as [npts|] eqn:Hnth; cbn [bind]; [|discriminate].
  intros H. injection H as <-. rewrite (nth_error_nth _ _ 0%nat Hnth). reflexivity.
Qed.

Lemma create_slices_step_layout (mesh : Mesh) (doms : list string) (i k : nat) (d : string)
    (st st' : DomainConcatenation.cursor) :
  NoDup doms -> nth_error doms k = Some d ->
  layout_inv mesh doms i k st ->
  DomainConcatenation.create_slices_step mesh i st d = Ok st' ->
  layout_inv mesh doms i (S k) st'.
Proof.
  intros Hnd Hk (Hstart & Hend & Hdoms & Hothers) Hstep.
  destruct st as [[a b] sl]. cbn [fst snd] in *.
  apply create_slices_step_ok in Hstep. subst st'. unfold layout_inv. cbn [fst snd].
  rewrite (offset_succ _ _ _ _ _ Hk). repeat split; try lia.
  - intros j d' Hj. rewrite defaultdict_get_sset.
    destruct (String.eqb d' d) eqn:Heq.
    + apply String.eqb_eq in Heq. subst d'.
      assert (j = k) as ->.
      { apply (proj1 (NoDup_nth_error doms) Hnd); [|congruence].
        apply nth_error_Some. congruence. }
      rewrite (Hdoms k d Hk). rewrite Nat.ltb_irrefl.
      destruct (Nat.ltb_spec k (S k)); [|lia].
      unfold expected_slices. rewrite seq_S, map_app. cbn [map plus].
      rewrite Hstart, Hend. reflexivity.
    + rewrite (Hdoms j d' Hj).
      assert (j <> k).
      { intros ->. rewrite Hk in Hj. injection Hj as ->.
        rewrite String.eqb_refl in Heq. discriminate. }
      destruct (Nat.ltb_spec j k), (Nat.ltb_spec j (S k)); try lia; reflexivity.
  - intros d' Hd'. rewrite sget_sset.
    destruct (String.eqb d' d) eqn:Heq; [|apply Hothers, Hd'].
    apply String.eqb_eq in Heq. subst d'. exfalso. apply Hd'.
    apply nth_error_In with k. exact Hk.
Qed.

Lemma inner_loop_layout (mesh : Mesh) (doms : list string) (i : nat) :
  NoDup doms ->
  forall (rest pre : list string) (st st' : DomainConcatenation.cursor),
    doms = pre ++ rest ->
    layout_inv mesh doms i (length pre) st ->
    for_each (DomainConcatenation.create_slices_step mesh i) rest st = Ok st' ->
    layout_inv mesh doms i (length doms) st'.
Proof.
  intros Hnd rest. induction rest as [|d rest IH]; intros pre st st' Hdoms Hinv Hloop.
  - cbn in Hloop. injection Hloop as <-. rewrite app_nil_r in Hdoms.
    rewrite <- Hdoms in Hinv. exact Hinv.
  - cbn [for_each] in Hloop. apply bind_ok in Hloop. destruct Hloop as (st1 & Hstep & Hloop).
    apply (IH (pre ++ [d]) st1 st'); [rewrite <- app_assoc; exact Hdoms | | exact Hloop].
    rewrite length_app. cbn [length]. rewrite Nat.add_1_r.
    apply (create_slices_step_layout mesh doms i (length pre) d st st1 Hnd); try assumption.
    rewrite Hdoms, nth_error_app2, Nat.sub_diag by lia. reflexivity.
Qed.

Lemma next_row_layout (mesh : Mesh) (doms : list string) (i : nat)
    (st : DomainConcatenation.cursor) :
  layout_inv mesh doms i (length doms) st -> layout_inv mesh doms (S i) 0 st.
Proof.
  intros (Hstart & Hend & Hdoms & Hothers). rewrite offset_row_end in Hstart, Hend.
  repeat split; try assumption.
  intros j d Hj. rewrite (Hdoms j d Hj).
  assert (j < length doms)%nat by (apply nth_error_Some; congruence).
  destruct (Nat.ltb_spec j (length doms)); [reflexivity|lia].
Qed.

Lemma outer_loop_layout (mesh : Mesh) (doms : list string) :
  NoDup doms ->
  forall (m i : nat) (st st' : DomainConcatenation.cursor),
    layout_inv mesh doms i 0 st ->
    for_each (fun st i => for_each (DomainConcatenation.create_slices_step mesh i) doms st)
             (seq i m) st = Ok st' ->
    layout_inv mesh doms (i + m) 0 st'.
Proof.
  intros Hnd m. induction m as [|m IH]; intros i st st' Hinv Hloop.
  - cbn in Hloop. injection Hloop as <-. rewrite Nat.add_0_r. exact Hinv.
  - cbn [seq for_each] in Hloop. apply bind_ok in Hloop.
    destruct Hloop as (st1 & Hrow & Hloop).
    rewrite <- Nat.add_succ_comm. apply (IH (S i) st1 st'); [|exact Hloop].
    apply next_row_layout.
    apply (inner_loop_layout mesh doms i Hnd doms [] st st1); [reflexivity|exact Hinv|exact Hrow].
Qed.

(** The layout [create_slices] computes for a node whose domains are distinct:
    the slice of the [j]-th domain at secondary index [i] starts where the
    slices of all lower secondary indices, and of the domains before it at
    index [i], have ended. *)
Lemma create_slices_layout (mesh : Mesh) (n : nat) (doms : list string)
    (sl : sdict (list slice)) :
  NoDup doms ->
  DomainConcatenation.create_slices mesh n doms = Ok sl ->
  (forall j d, nth_error doms j = Some d ->
               defaultdict_get sl d = expected_slices mesh doms j d n) /\
  (forall d, ~ In d doms -> sget sl d = None).
Proof.
  intros Hnd Hcs. unfold DomainConcatenation.create_slices in Hcs.
  apply bind_ok in Hcs. destruct Hcs as (dom0 & _ & Hcs).
  apply bind_ok in Hcs. destruct Hcs as (submesh_list & _ & Hcs).
  destruct (Nat.eqb_spec (length submesh_list) n) as [Hn|]; cbn [negb] in Hcs;
    [|discriminate].
  apply bind_ok in Hcs. destruct Hcs as (st & Hloop & Hsl). injection Hsl as <-.
  rewrite Hn in Hloop.
  apply (outer_loop_layout mesh doms Hnd n 0%nat) in Hloop.
  - destruct Hloop as (_ & _ & Hdoms & Hothers). split; [|exact Hothers].
    intros j d Hj. rewrite (Hdoms j d Hj). reflexivity.
  - repeat split; intros; reflexivity.
Qed.

(** ** [DomainConcatenation.__init__] *)

Lemma insert_sorted_perm (key : string -> nat) (x : string) (l : list string) :
  Permutation (insert_sorted key x l) (x :: l).
Proof.
  induction l as [|y l IH]; cbn [insert_sorted]; [apply Permutation_refl|].
  destruct (key y <=? key x)%nat; [|apply Permutation_refl].
  apply perm_trans with (y :: x :: l); [apply perm_skip, IH | apply perm_swap].
Qed.

Lemma sorted_perm (key : string -> nat) (l : list string) : Permutation (sorted key l) l.
Proof.
  unfold sorted. rewrite <- (app_nil_r l) at 2. generalize (@nil string) as acc.
  induction l as [|x l IH]; intros acc; cbn [fold_left app]; [apply Permutation_refl|].
  apply perm_trans with (l ++ insert_sorted key x acc); [apply IH|].
  apply perm_trans with (l ++ x :: acc).
  - apply Permutation_app_head, insert_sorted_perm.
  - apply Permutation_sym, Permutation_middle.
Qed.

Lemma domain_dict_keys_NoDup (mesh : Mesh) (domain : list string) (dd : sdict nat) :
  DomainConcatenation.domain_dict mesh domain = Ok dd -> NoDup (Dict.keys dd).
Proof.
  intros Hdd. unfold DomainConcatenation.domain_dict in Hdd.
  assert (Hinv :
    match for_each (fun dd d => i <- list_index d (domain_order mesh) ;; Ok (sset dd d i))
                   domain (Dict.empty string nat) with
    | Ok dd' => NoDup (Dict.keys dd')
    | Raise _ => True
    end).
  { apply (for_each_invariant (fun dd : sdict nat => NoDup (Dict.keys dd)) (fun _ => True));
      [|constructor].
    intros st d _ Hst. destruct (list_index d (domain_order mesh)); cbn [bind]; [|exact I].
    apply dict_keys_set_NoDup; [apply String.eqb_eq | exact Hst]. }
  rewrite Hdd in Hinv. exact Hinv.
Qed.

Lemma last_item_app {A : Type} (l : list A) (x : A) : last_item (l ++ [x]) = Ok x.
Proof.
  induction l as [|a l IH]; [reflexivity|].
  cbn [app]. destruct (l ++ [x]) eqn:Hl; [destruct l; discriminate|].
  exact IH.
Qed.

Lemma expected_slices_nth (mesh : Mesh) (doms : list string) (j : nat) (d : string)
    (n i : nat) :
  nth_error (expected_slices mesh doms j d n) i
  = if (i <? n)%nat
    then Some (Slice (offset mesh doms i j)
                     (offset mesh doms i j + Z.of_nat (npts_at mesh d i)))
    else None.
Proof.
  unfold expected_slices. rewrite nth_error_map, nth_error_seq.
  destruct (i <? n)%nat; reflexivity.
Qed.

(** What a successful construction (not by copy) fixes: the domains are
    distinct and not empty, there is at least one secondary index, every
    slice sits at its offset, and [size] is the number of points of all
    domains over all secondary indices. *)
Lemma init_layout {X : Type} (children : list (Symbol X)) (mesh : Mesh)
    (dc : DomainConcatenation.t X) :
  DomainConcatenation.__init__ children mesh None = Ok dc ->
  let doms := DomainConcatenation.domain dc in
  let n := DomainConcatenation.secondary_dimensions_npts dc in
  DomainConcatenation.mesh dc = mesh /\
  NoDup doms /\ doms <> [] /\ (0 < n)%nat /\
  (forall j d, nth_error doms j = Some d ->
               defaultdict_get (DomainConcatenation.slices dc) d
               = expected_slices mesh doms j d n) /\
  (exists last_dom last_slice,
      last_item doms = Ok last_dom /\
      last_item (defaultdict_get (DomainConcatenation.slices dc) last_dom) = Ok last_slice /\
      DomainConcatenation.size dc = stop last_slice) /\
  DomainConcatenation.size dc = rows_sum mesh doms n.
Proof.
  intros Hinit. unfold DomainConcatenation.__init__ in Hinit.
  apply bind_ok in Hinit. destruct Hinit as ([domain0 aux] & _ & Hinit).
  apply bind_ok in Hinit. destruct Hinit as (dd & Hdd & Hinit).
  pose proof (Permutation_NoDup (Permutation_sym (sorted_perm
                (DomainConcatenation.domain_dict_getitem dd) (Dict.keys dd)))
                (domain_dict_keys_NoDup _ _ _ Hdd)) as Hnd.
  destruct (sorted (DomainConcatenation.domain_dict_getitem dd) (Dict.keys dd))
    as [|dom0 doms'] eqn:Hsorted; [discriminate|].
  apply bind_ok in Hinit. destruct Hinit as (submesh_list & _ & Hinit).
  apply bind_ok in Hinit. destruct Hinit as (sl & Hcs & Hinit).
  apply bind_ok in Hinit. destruct Hinit as (last_dom & Hlast_dom & Hinit).
  apply bind_ok in Hinit. destruct Hinit as (last_slice & Hlast_slice & Hinit).
  apply bind_ok in Hinit. destruct Hinit as (children_slices & _ & Hinit).
  injection Hinit as <-. cbn [DomainConcatenation.domain DomainConcatenation.mesh
    DomainConcatenation.secondary_dimensions_npts DomainConcatenation.slices
    DomainConcatenation.size].
  destruct (create_slices_layout _ _ _ _ Hnd Hcs) as [Hlayout _].
  destruct (last_item_ok_inv _ _ Hlast_dom) as [pre Hpre].
  assert (Hk : nth_error (dom0 :: doms') (length pre) = Some last_dom).
  { rewrite Hpre, nth_error_app2, Nat.sub_diag by lia. reflexivity. }
  pose proof (Hlayout _ _ Hk) as Hlast.
  rewrite Hlast in Hlast_slice.
  assert (Hpos : (0 < length submesh_list)%nat).
  { destruct (length submesh_list); [discriminate Hlast_slice | lia]. }
  assert (Hsize : stop last_slice = rows_sum mesh (dom0 :: doms') (length submesh_list)).
  { destruct (length submesh_list) as [|m]; [lia|].
    unfold expected_slices in Hlast_slice. rewrite seq_S, map_app in Hlast_slice.
    cbn [map plus] in Hlast_slice. rewrite last_item_app in Hlast_slice.
    injection Hlast_slice as <-. cbn [stop].
    rewrite <- (offset_succ _ _ _ _ _ Hk).
    replace (S (length pre)) with (length (dom0 :: doms'))
      by (rewrite Hpre, length_app; cbn [length]; lia).
    rewrite offset_row_end. unfold offset. cbn [firstn row_sum]. lia. }
  repeat split; try assumption; try discriminate.
  exists last_dom, last_slice. rewrite Hlast. repeat split; assumption.
Qed.

(** The slice of the [k]-th domain at secondary index [i]. *)
Lemma init_slice_at {X : Type} (children : list (Symbol X)) (mesh : Mesh)
    (dc : DomainConcatenation.t X) (i k : nat) (d : string) :
  DomainConcatenation.__init__ children mesh None = Ok dc ->
  nth_error (DomainConcatenation.domain dc) k = Some d ->
  nth_error (defaultdict_get (DomainConcatenation.slices dc) d) i
  = if (i <? DomainConcatenation.secondary_dimensions_npts dc)%nat
    then Some (Slice (offset mesh (DomainConcatenation.domain dc) i k)
                     (offset mesh (DomainConcatenation.domain dc) i k
                      + Z.of_nat (npts_at mesh d i)))
    else None.
Proof.
  intros Hinit Hk. destruct (init_layout _ _ _ Hinit) as (_ & _ & _ & _ & Hlayout & _).
  rewrite (Hlayout k d Hk). apply expected_slices_nth.
Qed.

Lemma row_sum_firstn_le (mesh : Mesh) (i : nat) (doms : list string) (k : nat) :
  row_sum mesh i (firstn k doms) <= row_sum mesh i doms.
Proof.
  rewrite <- (firstn_skipn k doms) at 2. rewrite row_sum_app.
  pose proof (row_sum_nonneg mesh i (skipn k doms)). lia.
Qed.

Lemma offset_mono (mesh : Mesh) (doms : list string) (i k k' : nat) :
  (k <= k')%nat -> offset mesh doms i k <= offset mesh doms i k'.
Proof.
  intros Hk. unfold offset.
  pose proof (row_sum_firstn_le mesh i (firstn k' doms) k) as Hle.
  rewrite firstn_firstn, Nat.min_l in Hle by exact Hk. lia.
Qed.

Lemma offset_le_next_row (mesh : Mesh) (doms : list string) (i k : nat) :
  offset mesh doms i k <= rows_sum mesh doms (S i).
Proof.
  unfold offset. cbn [rows_sum]. pose proof (row_sum_firstn_le mesh i doms k). lia.
Qed.

Lemma rows_sum_le_offset (mesh : Mesh) (doms : list string) (i k : nat) :
  rows_sum mesh doms i <= offset mesh doms i k.
Proof.
  unfold offset. pose proof (row_sum_nonneg mesh i (firstn k doms)). lia.
Qed.

(** ** The output slices tile the output *)

Lemma chain_app (l1 l2 : list slice) : forall a b c,
  chain a l1 b -> chain b l2 c -> chain a (l1 ++ l2) c.
Proof.
  induction l1 as [|s l1 IH]; intros a b c H1 H2; cbn [chain app] in *.
  - subst b. exact H2.
  - destruct H1 as (Hs & Hle & H1). repeat split; try assumption.
    apply (IH _ b); assumption.
Qed.

Lemma row_slices_chain (mesh : Mesh) (i : nat) (doms : list string) : forall c,
  chain c (row_slices mesh i c doms) (c + row_sum mesh i doms).
Proof.
  induction doms as [|d doms IH]; intros c; cbn [row_slices row_sum chain start stop].
  - lia.
  - repeat split; [lia|].
    replace (c + (Z.of_nat (npts_at mesh d i) + row_sum mesh i doms))
      with (c + Z.of_nat (npts_at mesh d i) + row_sum mesh i doms) by lia.
    apply IH.
Qed.

Lemma all_slices_chain (mesh : Mesh) (doms : list string) (n : nat) :
  chain 0 (all_slices mesh doms n) (rows_sum mesh doms n).
Proof.
  unfold all_slices. induction n as [|n IH]; [reflexivity|].
  rewrite seq_S, flat_map_app. cbn [plus flat_map]. rewrite app_nil_r.
  apply (chain_app _ _ _ _ _ IH). cbn [rows_sum]. apply row_slices_chain.
Qed.

Lemma chain_bounds (l : list slice) : forall a b,
  chain a l b -> a <= b /\ forall s, In s l -> a <= start s /\ stop s <= b.
Proof.
  induction l as [|s l IH]; intros a b H; cbn [chain] in H.
  - split; [lia|]. intros s [].
  - destruct H as (Hs & Hle & H). destruct (IH _ _ H) as [Hab Hin]. split; [lia|].
    intros s' [<-|Hs']; [lia|]. destruct (Hin s' Hs'). lia.
Qed.

(** In a chain from [a] to [b] every position of [a, b) lies in exactly one
    slice. *)
Lemma chain_covers_once (l : list slice) : forall a b p,
  chain a l b -> a <= p < b ->
  exists j s,
    nth_error l j = Some s /\ covers s p /\
    forall j' s', nth_error l j' = Some s' -> covers s' p -> j' = j.
Proof.
  induction l as [|s l IH]; intros a b p H Hp; cbn [chain] in H.
  - lia.
  - destruct H as (Hs & Hle & H).
    destruct (Z.lt_ge_cases p (stop s)) as [Hlt|Hge].
    + exists 0%nat, s. split; [reflexivity|]. split; [unfold covers; lia|].
      intros [|j'] s' Hj' Hc; [reflexivity|]. exfalso.
      cbn [nth_error] in Hj'. apply nth_error_In in Hj'.
      destruct (chain_bounds _ _ _ H) as [_ Hin]. destruct (Hin s' Hj').
      unfold covers in Hc. lia.
    + destruct (IH (stop s) b p H) as (j & s0 & Hj & Hc & Huniq);
        [destruct (chain_bounds _ _ _ H); lia|].
      exists (S j), s0. split; [exact Hj|]. split; [exact Hc|].
      intros [|j'] s' Hj' Hc'.
      * cbn [nth_error] in Hj'. injection Hj' as <-. unfold covers in Hc'. lia.
      * f_equal. apply (Huniq j' s'); assumption.
Qed.

Lemma map_flat_map_some {A B C : Type} (g : B -> option C) (F : A -> list B)
    (G : A -> list C) (l : list A) :
  (forall x, In x l -> map g (F x) = map Some (G x)) ->
  map g (flat_map F l) = map Some (flat_map G l).
Proof.
  induction l as [|x l IH]; intros H; [reflexivity|].
  cbn [flat_map]. rewrite !map_app, (H x (or_introl eq_refl)), IH; [reflexivity|].
  intros y Hy. apply H. right. exact Hy.
Qed.

Lemma row_lookup (mesh : Mesh) (doms : list string) (sl : sdict (list slice)) (n i : nat) :
  (i < n)%nat ->
  (forall j d, nth_error doms j = Some d ->
               defaultdict_get sl d = expected_slices mesh doms j d n) ->
  forall rest pre,
    doms = pre ++ rest ->
    map (fun d => nth_error (defaultdict_get sl d) i) rest
    = map Some (row_slices mesh i (offset mesh doms i (length pre)) rest).
Proof.
  intros Hi Hlayout rest. induction rest as [|d rest IH]; intros pre Hdoms; [reflexivity|].
  assert (Hk : nth_error doms (length pre) = Some d).
  { rewrite Hdoms, nth_error_app2, Nat.sub_diag by lia. reflexivity. }
  cbn [map row_slices]. rewrite (Hlayout _ _ Hk), expected_slices_nth.
  destruct (Nat.ltb_spec i n); [|lia]. f_equal.
  rewrite <- (offset_succ _ _ _ _ _ Hk).
  replace (S (length pre)) with (length (pre ++ [d])) by (rewrite length_app; cbn; lia).
  apply IH. rewrite <- app_assoc. exact Hdoms.
Qed.

(** C10.  For a DomainConcatenation constructed from its children and a mesh
    (not by copy), the output slices, taken in the order in which
    [create_slices] makes them (secondary index by secondary index, and for
    each the domains in order), exist, are at least one, and tile [0, size):
    the first starts at 0, each next one starts where the previous one
    stops, the last stops at [size].  Hence every output position below
    [size] lies in exactly one of them. *)
Theorem output_slices_partition_the_output :
  forall (X : Type) (children : list (Symbol X)) (mesh : Mesh) (dc : DomainConcatenation.t X),
    DomainConcatenation.__init__ children mesh None = Ok dc ->
    exists l : list slice,
      output_slices dc = map Some l /\
      l <> [] /\
      chain 0 l (DomainConcatenation.size dc) /\
      (forall p, 0 <= p < DomainConcatenation.size dc ->
                 exists j s,
                   nth_error l j = Some s /\ covers s p /\
                   forall j' s', nth_error l j' = Some s' -> covers s' p -> j' = j).
Proof.
  intros X children mesh dc Hinit.
  destruct (init_layout _ _ _ Hinit) as (_ & _ & Hne & Hpos & Hlayout & _ & Hsize).
  set (doms := DomainConcatenation.domain dc) in *.
  set (n := DomainConcatenation.secondary_dimensions_npts dc) in *.
  exists (all_slices mesh doms n).
  assert (Hchain : chain 0 (all_slices mesh doms n) (DomainConcatenation.size dc)).
  { rewrite Hsize. apply all_slices_chain. }
  split; [|split; [|split]].
  - unfold output_slices, creation_order, all_slices. fold doms n.
    rewrite <- (map_flat_map_some
                  (fun p : nat * string =>
                     nth_error (defaultdict_get (DomainConcatenation.slices dc) (snd p)) (fst p))
                  (fun i => map (fun d => (i, d)) doms)
                  (fun i => row_slices mesh i (rows_sum mesh doms i) doms)); [reflexivity|].
    intros i Hi. apply in_seq in Hi. rewrite map_map. cbn [fst snd].
    rewrite (row_lookup mesh doms (DomainConcatenation.slices dc) n i ltac:(lia) Hlayout
                        doms [] eq_refl).
    unfold offset. cbn [length firstn row_sum]. rewrite Z.add_0_r. reflexivity.
  - unfold all_slices. destruct n as [|n]; [lia|]. destruct doms as [|d doms']; [congruence|].
    cbn. discriminate.
  - exact Hchain.
  - intros p Hp. apply (chain_covers_once _ 0 (DomainConcatenation.size dc)); assumption.
Qed.

(** An instance: the concatenation over [mesh_two_by_two], whose output
    slices are 0:2, 2:3, 3:5, 5:6. *)
Lemma output_slices_partition_witness :
  exists l : list slice,
    output_slices dc_two_by_two = map Some l /\
    l <> [] /\
    chain 0 l (DomainConcatenation.size dc_two_by_two) /\
    (forall p, 0 <= p < DomainConcatenation.size dc_two_by_two ->
               exists j s,
                 nth_error l j = Some s /\ covers s p /\
                 forall j' s', nth_error l j' = Some s' -> covers s' p -> j' = j).
Proof.
  apply (output_slices_partition_the_output Z
           [constant_child 1 "A" [1; 2; 3; 4]; constant_child 2 "B" [5; 6]]
           mesh_two_by_two dc_two_by_two).
  reflexivity.
Defined.

(** ** [DomainConcatenation._concatenation_simplify] *)

Lemma padded_mask_ok (mask : list bool) (longest : nat) :
  (length mask <= longest)%nat ->
  DomainConcatenation.padded_mask mask longest = Ok (pad longest mask).
Proof.
  intros Hle. unfold DomainConcatenation.padded_mask, np_zeros, pad.
  destruct (Z.ltb_spec (Z.of_nat longest - Z.of_nat (length mask)) 0); [lia|].
  cbn [bind]. do 3 f_equal. lia.
Qed.

Lemma padded_mask_too_long (mask : list bool) (longest : nat) :
  (longest < length mask)%nat ->
  DomainConcatenation.padded_mask mask longest = Raise ValueError.
Proof.
  intros Hlt. unfold DomainConcatenation.padded_mask, np_zeros.
  destruct (Z.ltb_spec (Z.of_nat longest - Z.of_nat (length mask)) 0); [reflexivity|lia].
Qed.

Lemma length_pad (mask : list bool) (longest : nat) :
  (length mask <= longest)%nat -> length (pad longest mask) = longest.
Proof.
  intros Hle. unfold pad. rewrite length_app, length_map, repeat_length. lia.
Qed.

Lemma nth_pad (mask : list bool) (longest i : nat) :
  nth i (pad longest mask) 0 = if nth i mask false then 1 else 0.
Proof.
  unfold pad. destruct (Nat.lt_ge_cases i (length mask)) as [Hlt|Hge].
  - rewrite app_nth1 by (rewrite length_map; exact Hlt).
    exact (map_nth (fun b : bool => if b then 1 else 0) mask false i).
  - rewrite app_nth2 by (rewrite length_map; exact Hge).
    rewrite (nth_overflow mask) by exact Hge.
    destruct (Nat.lt_ge_cases (i - length (map (fun b : bool => if b then 1 else 0) mask))
                              (longest - length mask)) as [Hin|Hout].
    + apply nth_repeat_lt. exact Hin.
    + apply nth_overflow. rewrite repeat_length. exact Hout.
Qed.

Lemma dict_set_fresh {V : Type} (d : Dict.t nat V) (k : nat) (v : V) :
  Dict.get Nat.eqb d k = None -> Dict.set Nat.eqb d k v = d ++ [(k, v)].
Proof.
  induction d as [|[k1 v1] d IH]; cbn [Dict.get Dict.set app]; [reflexivity|].
  destruct (Nat.eqb k k1); [discriminate|]. intros H. rewrite (IH H). reflexivity.
Qed.

Lemma dict_get_app_fresh {V : Type} (d : Dict.t nat V) (k k' : nat) (v : V) :
  k' <> k -> Dict.get Nat.eqb (d ++ [(k, v)]) k' = Dict.get Nat.eqb d k'.
Proof.
  intros Hne. induction d as [|[k1 v1] d IH]; cbn [Dict.get app].
  - destruct (Nat.eqb_spec k' k); [contradiction|reflexivity].
  - rewrite IH. reflexivity.
Qed.

(** With children that are distinct objects, none with a mask longer than
    [longest], [eval_arrays] holds the padded masks in the order of the
    children. *)
Lemma eval_arrays_values {X : Type} (longest : nat) (children : list (Symbol X)) :
  forall acc : Dict.t nat (list Z),
    NoDup (map Node.oid children) ->
    Forall (fun c => (length (DomainConcatenation.child_evaluation_array c) <= longest)%nat)
           children ->
    (forall c, In c children -> Dict.get Nat.eqb acc (Node.oid c) = None) ->
    for_each (fun arrays child =>
                array <- DomainConcatenation.padded_mask
                           (DomainConcatenation.child_evaluation_array child) longest ;;
                Ok (Dict.set Nat.eqb arrays (Node.oid child) array))
             children acc
    = Ok (acc ++ map (fun c => (Node.oid c,
                                pad longest (DomainConcatenation.child_evaluation_array c)))
                     children).
Proof.
  induction children as [|c children IH]; intros acc Hnd Hlen Hfresh.
  - cbn. rewrite app_nil_r. reflexivity.
  - cbn [for_each map]. inversion Hnd as [|? ? Hnotin Hnd']; subst.
    inversion Hlen as [|? ? Hc Hlen']; subst.
    rewrite (padded_mask_ok _ _ Hc). cbn [bind].
    rewrite (dict_set_fresh _ _ _ (Hfresh c (or_introl eq_refl))).
    rewrite IH; [rewrite <- app_assoc; reflexivity | exact Hnd' | exact Hlen' |].
    intros c' Hc'. rewrite dict_get_app_fresh; [apply Hfresh; right; exact Hc'|].
    intros Heq. apply Hnotin. rewrite <- Heq. apply in_map. exact Hc'.
Qed.

Lemma add_arrays_nth (a : list Z) : forall (b : list Z) (i : nat),
  length a = length b ->
  length (DomainConcatenation.add_arrays a b) = length a /\
  nth i (DomainConcatenation.add_arrays a b) 0 = nth i a 0 + nth i b 0.
Proof.
  unfold DomainConcatenation.add_arrays.
  induction a as [|x a IH]; intros [|y b] i Hlen; cbn in Hlen; try discriminate.
  - destruct i; split; reflexivity.
  - cbn [combine map length fst snd]. destruct i as [|i].
    + split; [|reflexivity]. f_equal. apply (IH b 0%nat). lia.
    + cbn [nth]. destruct (IH b i ltac:(lia)) as [Hl Hn]. split; [f_equal; exact Hl | exact Hn].
Qed.

Lemma fold_add_arrays (longest : nat) (rest : list (list Z)) : forall (a : list Z) (i : nat),
  length a = longest -> Forall (fun l => length l = longest) rest ->
  length (fold_left DomainConcatenation.add_arrays rest a) = longest /\
  nth i (fold_left DomainConcatenation.add_arrays rest a) 0 = nth i a 0 + column_sum rest i.
Proof.
  induction rest as [|b rest IH]; intros a i Ha Hrest; cbn [fold_left].
  - split; [exact Ha | unfold column_sum; cbn [fold_right]; lia].
  - inversion Hrest as [|? ? Hb Hrest']; subst.
    destruct (add_arrays_nth a b i ltac:(congruence)) as [Hl Hn].
    destruct (IH (DomainConcatenation.add_arrays a b) i ltac:(congruence) Hrest') as [Hl' Hn'].
    split; [exact Hl'|]. rewrite Hn', Hn.
    change (column_sum (b :: rest) i) with (nth i b 0 + column_sum rest i). lia.
Qed.

Lemma forallb_by_index (f : Z -> bool) (l : list Z) :
  forallb f l = forallb (fun i => f (nth i l 0)) (seq 0 (length l)).
Proof.
  apply eq_iff_eq_true. rewrite !forallb_forall. split.
  - intros H i Hi. apply in_seq in Hi. apply H, nth_In. lia.
  - intros H x Hx. destruct (In_nth l x 0 Hx) as (i & Hi & <-).
    apply H, in_seq. lia.
Qed.

Lemma column_sum_pad (longest : nat) (masks : list (list bool)) (i : nat) :
  column_sum (map (pad longest) masks) i
  = Z.of_nat (length (filter (fun m => nth i m false) masks)).
Proof.
  induction masks as [|m masks IH]; [reflexivity|].
  cbn [map filter].
  change (column_sum (pad longest m :: map (pad longest) masks) i)
    with (nth i (pad longest m) 0 + column_sum (map (pad longest) masks) i).
  rewrite IH, nth_pad. destruct (nth i m false); cbn [length]; lia.
Qed.

Lemma common_length_last (masks : list (list bool)) (last_mask : list bool) :
  last_item masks = Ok last_mask ->
  Forall (fun m => (length m <= length last_mask)%nat) masks ->
  common_length masks = length last_mask.
Proof.
  intros Hlast Hle. unfold common_length. fold (list_max (map (@length bool) masks)).
  apply Nat.le_antisymm.
  - apply list_max_le. apply Forall_map. exact Hle.
  - destruct (last_item_ok_inv _ _ Hlast) as [pre ->].
    rewrite map_app, list_max_app. cbn [map list_max fold_right]. lia.
Qed.

Lemma last_item_map {A B : Type} (f : A -> B) (l : list A) (x : A) :
  last_item l = Ok x -> last_item (map f l) = Ok (f x).
Proof.
  intros H. destruct (last_item_ok_inv _ _ H) as [pre ->].
  rewrite map_app. cbn [map]. apply last_item_app.
Qed.

Lemma forallb_ext_in {A : Type} (f g : A -> bool) (l : list A) :
  (forall x, In x l -> f x = g x) -> forallb f l = forallb g l.
Proof.
  induction l as [|x l IH]; intros H; [reflexivity|]. cbn [forallb].
  rewrite (H x (or_introl eq_refl)), IH; [reflexivity|].
  intros y Hy. apply H. right. exact Hy.
Qed.

Lemma sum_arrays_partition (longest : nat) (masks : list (list bool)) :
  masks <> [] ->
  Forall (fun m => (length m <= longest)%nat) masks ->
  common_length masks = longest ->
  forallb (fun x => x =? 1) (DomainConcatenation.sum_arrays (map (pad longest) masks))
  = masks_partition masks.
Proof.
  intros Hne Hlen Hcommon. unfold masks_partition. rewrite Hcommon.
  destruct masks as [|m masks']; [congruence|].
  pose proof (Forall_inv Hlen) as Hm. pose proof (Forall_inv_tail Hlen) as Hrest.
  cbn beta in Hm.
  assert (Hrest' : Forall (fun l => length l = longest) (map (pad longest) masks')).
  { apply Forall_map. eapply Forall_impl; [|exact Hrest]. intros l Hl. apply length_pad, Hl. }
  cbn [map DomainConcatenation.sum_arrays]. rewrite forallb_by_index.
  destruct (fold_add_arrays longest _ (pad longest m) 0%nat (length_pad _ _ Hm) Hrest')
    as [Hl _].
  rewrite Hl. apply forallb_ext_in. intros i _.
  destruct (fold_add_arrays longest _ (pad longest m) i (length_pad _ _ Hm) Hrest')
    as [_ Hi].
  rewrite Hi.
  change (nth i (pad longest m) 0 + column_sum (map (pad longest) masks') i)
    with (column_sum (map (pad longest) (m :: masks')) i).
  rewrite column_sum_pad.
  destruct (length (filter (fun m0 => nth i m0 false) (m :: masks'))) as [|[|k]];
    try reflexivity.
  apply Z.eqb_neq. lia.
Qed.

(** The test of the collapse, when the children are distinct objects and no
    mask is longer than the last child's: it is the test of the
    specification, every position below the common length is covered by
    exactly one mask. *)
Lemma masks_sum_to_one_partition {X : Type} (children : list (Symbol X))
    (last_child : Symbol X) :
  last_item children = Ok last_child ->
  NoDup (map Node.oid children) ->
  Forall (fun c => (length (DomainConcatenation.child_evaluation_array c)
                    <= length (DomainConcatenation.child_evaluation_array last_child))%nat)
         children ->
  DomainConcatenation.masks_sum_to_one children
  = Ok (masks_partition (map DomainConcatenation.child_evaluation_array children)).
Proof.
  intros Hlast Hnd Hlen. unfold DomainConcatenation.masks_sum_to_one.
  rewrite Hlast. cbn [bind].
  set (longest := length (DomainConcatenation.child_evaluation_array last_child)) in *.
  unfold DomainConcatenation.eval_arrays.
  rewrite (eval_arrays_values longest children _ Hnd Hlen) by (intros; reflexivity).
  cbn [bind app Dict.empty]. f_equal.
  unfold Dict.values. rewrite map_map. cbn [snd].
  rewrite <- (map_map DomainConcatenation.child_evaluation_array (pad longest)).
  apply sum_arrays_partition.
  - destruct children; [discriminate Hlast | discriminate].
  - apply Forall_map. exact Hlen.
  - apply common_length_last; [|apply Forall_map; exact Hlen].
    apply last_item_map. exact Hlast.
Qed.

(** A child whose mask is longer than the last child's makes the test raise
    [ValueError], whatever the masks say. *)
Lemma masks_sum_to_one_raises {X : Type} (children : list (Symbol X))
    (first_child last_child : Symbol X) :
  first_item children = Ok first_child ->
  last_item children = Ok last_child ->
  (length (DomainConcatenation.child_evaluation_array last_child)
   < length (DomainConcatenation.child_evaluation_array first_child))%nat ->
  DomainConcatenation.masks_sum_to_one children = Raise ValueError.
Proof.
  intros Hfirst Hlast Hlt. unfold DomainConcatenation.masks_sum_to_one.
  rewrite Hlast. cbn [bind]. destruct children as [|c children]; [discriminate|].
  injection Hfirst as ->. unfold DomainConcatenation.eval_arrays. cbn [for_each].
  rewrite (padded_mask_too_long _ _ Hlt). reflexivity.
Qed.

Lemma concatenation_simplify_decision {X : Type} (debug_mode : bool)
    (self : DomainConcatenation.t X) (children : list (Symbol X)) (last_child : Symbol X) :
  forallb Node.is_state_vector children = true ->
  last_item children = Ok last_child ->
  NoDup (map Node.oid children) ->
  Forall (fun c => (length (DomainConcatenation.child_evaluation_array c)
                    <= length (DomainConcatenation.child_evaluation_array last_child))%nat)
         children ->
  DomainConcatenation._concatenation_simplify debug_mode self children
  = if masks_partition (map DomainConcatenation.child_evaluation_array children)
    then
      first_child <- first_item children ;;
      first_slice <- first_item (DomainConcatenation.child_y_slices first_child) ;;
      last_slice <- last_item (DomainConcatenation.child_y_slices last_child) ;;
      sv <- StateVector.__init__ debug_mode
              [PySlice (Slice (start first_slice) (stop last_slice))] None None None None ;;
      Ok (DomainConcatenation.ToStateVector sv)
    else DomainConcatenation.simplified_copy self children.
Proof.
  intros Hsv Hlast Hnd Hlen. unfold DomainConcatenation._concatenation_simplify.
  rewrite Hsv, (masks_sum_to_one_partition children last_child Hlast Hnd Hlen). cbn [bind].
  destruct (masks_partition (map DomainConcatenation.child_evaluation_array children));
    [|reflexivity].
  rewrite Hlast. destruct (first_item children); reflexivity.
Qed.

(** C3: what the code does where the claim asks for a copy.  The children
    [StateVector(slice(4, 6))] on A and [StateVector(slice(0, 3))] on B make
    a valid DomainConcatenation; their masks, padded to the common length 6,
    leave position 3 uncovered, so the claim asks for a copy with the domain
    cleared.  The code pads to the length of the last child's mask, which is
    3, asks numpy for a vector of length 3 - 6 and raises [ValueError].  With
    the same two children in the other order the last mask is the longest
    and the copy is made.  In general: a first child with a mask longer than
    the last child's makes simplify raise [ValueError]; when no mask is
    longer than the last child's (and the children are distinct objects) the
    collapse is made exactly when the padded masks cover every position
    once, and the copy is made otherwise. *)
Theorem simplify_pads_to_the_last_mask :
  StateVector.__init__ false [PySlice (Slice 4 6)] None (Some ["A"%string]) None None
  = Ok (sv_on "A" 4 6) /\
  StateVector.__init__ false [PySlice (Slice 0 3)] None (Some ["B"%string]) None None
  = Ok (sv_on "B" 0 3) /\
  masks_partition (map DomainConcatenation.child_evaluation_array children_gap) = false /\
  (exists dc,
      dc_of children_gap mesh_A2_B3 = Ok dc /\
      DomainConcatenation._concatenation_simplify false dc children_gap = Raise ValueError) /\
  (exists dc copy,
      dc_of (rev children_gap) mesh_A2_B3 = Ok dc /\
      DomainConcatenation._concatenation_simplify false dc (rev children_gap)
      = Ok (DomainConcatenation.ToDomainConcatenation copy) /\
      DomainConcatenation.domain copy = [] /\
      DomainConcatenation.children copy = rev children_gap) /\
  (forall (X : Type) (debug_mode : bool) (self : DomainConcatenation.t X)
          (children : list (Symbol X)) (first_child last_child : Symbol X),
      forallb Node.is_state_vector children = true ->
      first_item children = Ok first_child ->
      last_item children = Ok last_child ->
      (length (DomainConcatenation.child_evaluation_array last_child)
       < length (DomainConcatenation.child_evaluation_array first_child))%nat ->
      DomainConcatenation._concatenation_simplify debug_mode self children
      = Raise ValueError) /\
  (forall (X : Type) (debug_mode : bool) (self : DomainConcatenation.t X)
          (children : list (Symbol X)) (last_child : Symbol X),
      forallb Node.is_state_vector children = true ->
      last_item children = Ok last_child ->
      NoDup (map Node.oid children) ->
      Forall (fun c => (length (DomainConcatenation.child_evaluation_array c)
                        <= length (DomainConcatenation.child_evaluation_array last_child))%nat)
             children ->
      DomainConcatenation._concatenation_simplify debug_mode self children
      = if masks_partition (map DomainConcatenation.child_evaluation_array children)
        then
          first_child <- first_item children ;;
          first_slice <- first_item (DomainConcatenation.child_y_slices first_child) ;;
          last_slice <- last_item (DomainConcatenation.child_y_slices last_child) ;;
          sv <- StateVector.__init__ debug_mode
                  [PySlice (Slice (start first_slice) (stop last_slice))]
                  None None None None ;;
          Ok (DomainConcatenation.ToStateVector sv)
        else DomainConcatenation.simplified_copy self children).
Proof.
  split; [reflexivity|]. split; [reflexivity|]. split; [reflexivity|]. split; [|split; [|split]].
  - eexists. split; reflexivity.
  - eexists. eexists. split; [reflexivity|]. split; [reflexivity|]. split; reflexivity.
  - intros X debug_mode self children first_child last_child Hsv Hfirst Hlast Hlt.
    unfold DomainConcatenation._concatenation_simplify.
    rewrite Hsv, (masks_sum_to_one_raises children first_child last_child Hfirst Hlast Hlt).
    reflexivity.
  - intros X debug_mode self children last_child.
    apply concatenation_simplify_decision.
Qed.

(** An instance: the children A on 4:6, B on 0:3. *)
Lemma simplify_pads_to_the_last_mask_witness :
  DomainConcatenation._concatenation_simplify false dc_A2_B3 children_gap = Raise ValueError.
Proof.
  apply (proj1 (proj2 (proj2 (proj2 (proj2 (proj2 simplify_pads_to_the_last_mask)))))
               Z false dc_A2_B3 children_gap
               (StateVectorNode 1 (sv_on "A" 4 6)) (StateVectorNode 2 (sv_on "B" 0 3))).
  - reflexivity.
  - reflexivity.
  - reflexivity.
  - simpl. lia.
Defined.

(** C4: what the code does where the claim asks for equal values.  Over
    [mesh_A2_B3], the children [StateVector(slice(0, 3))] on B and
    [StateVector(slice(3, 5))] on A have masks that sum to 1 everywhere, so
    the concatenation is replaced by [StateVector(slice(0, 5))]; on
    [y = 10, 20, 30, 40, 50] the concatenation evaluates to
    [40, 50, 10, 20, 30] (A before B, the canonical order) and the
    replacement to [10, 20, 30, 40, 50].  The same happens with the children
    in canonical order when there are two secondary indices: A on 0:4 and B
    on 4:6 over [mesh_two_by_two] evaluate to [10, 20, 50, 30, 40, 60], the
    replacement [StateVector(slice(0, 6))] to [10, 20, 30, 40, 50, 60]. *)
Theorem collapse_changes_the_value :
  StateVector.__init__ false [PySlice (Slice 0 3)] None (Some ["B"%string]) None None
  = Ok (sv_on "B" 0 3) /\
  StateVector.__init__ false [PySlice (Slice 3 5)] None (Some ["A"%string]) None None
  = Ok (sv_on "A" 3 5) /\
  StateVector.__init__ false [PySlice (Slice 0 4)] None (Some ["A"%string]) None None
  = Ok (sv_on "A" 0 4) /\
  StateVector.__init__ false [PySlice (Slice 4 6)] None (Some ["B"%string]) None None
  = Ok (sv_on "B" 4 6) /\
  (exists dc,
      dc_of children_swapped mesh_A2_B3 = Ok dc /\
      DomainConcatenation._concatenation_simplify false dc children_swapped
      = Ok (DomainConcatenation.ToStateVector sv_0_5) /\
      DomainConcatenation.evaluate dc None (Some [10; 20; 30; 40; 50])
      = Ok [Some 40; Some 50; Some 10; Some 20; Some 30] /\
      StateVector._base_evaluate sv_0_5 (@None Z) (Some [10; 20; 30; 40; 50])
      = Ok [10; 20; 30; 40; 50]) /\
  (exists dc,
      dc_of children_two_rows mesh_two_by_two = Ok dc /\
      DomainConcatenation._concatenation_simplify false dc children_two_rows
      = Ok (DomainConcatenation.ToStateVector sv_0_6) /\
      DomainConcatenation.evaluate dc None (Some [10; 20; 30; 40; 50; 60])
      = Ok [Some 10; Some 20; Some 50; Some 30; Some 40; Some 60] /\
      StateVector._base_evaluate sv_0_6 (@None Z) (Some [10; 20; 30; 40; 50; 60])
      = Ok [10; 20; 30; 40; 50; 60]).
Proof.
  do 4 (split; [reflexivity|]).
  split; eexists; (split; [reflexivity|]); repeat split; reflexivity.
Qed.

(** * Further properties of the code *)

(** ** [StateVector.set_evaluation_array] *)

Lemma map_combine_seq_nth_error {X Y : Type} (f : nat -> X -> Y) (a : list X) :
  forall k i,
    nth_error (map (fun kx : nat * X => f (fst kx) (snd kx)) (combine (seq k (length a)) a)) i
    = option_map (f (k + i)%nat) (nth_error a i).
Proof.
  induction a as [|x a IH]; intros k i; cbn [length seq combine map].
  - destruct i; reflexivity.
  - destruct i as [|i]; cbn [nth_error option_map].
    + rewrite Nat.add_0_r. reflexivity.
    + rewrite IH. rewrite Nat.add_succ_comm. reflexivity.
Qed.

Lemma setslice_scalar_nth_error {X : Type} (a : list X) (s : slice) (v : X) (i : nat) :
  nth_error (setslice_scalar a s v) i
  = option_map (fun x => if in_slice (length a) i s then v else x) (nth_error a i).
Proof.
  unfold setslice_scalar, in_slice. destruct (slice_bounds s (Z.of_nat (length a))) as [lo hi].
  cbn [fst snd].
  apply (map_combine_seq_nth_error
           (fun k x => if (lo <=? Z.of_nat k) && (Z.of_nat k <? hi) then v else x) a 0 i).
Qed.

Lemma setslice_scalar_length {X : Type} (a : list X) (s : slice) (v : X) :
  length (setslice_scalar a s v) = length a.
Proof.
  unfold setslice_scalar. destruct (slice_bounds s (Z.of_nat (length a))) as [lo hi].
  rewrite length_map, length_combine, length_seq. lia.
Qed.

Lemma fold_setslice_scalar (slices : list slice) : forall (a : list Z),
  length (fold_left (fun a y_slice => setslice_scalar a y_slice 1) slices a) = length a /\
  forall i,
    nth_error (fold_left (fun a y_slice => setslice_scalar a y_slice 1) slices a) i
    = option_map (fun x => if existsb (in_slice (length a) i) slices then 1 else x)
                 (nth_error a i).
Proof.
  induction slices as [|s slices IH]; intros a; cbn [fold_left existsb].
  - split; [reflexivity|]. intros i. destruct (nth_error a i); reflexivity.
  - destruct (IH (setslice_scalar a s 1)) as [Hlen Hnth]. rewrite setslice_scalar_length in *.
    split; [exact Hlen|]. intros i. rewrite Hnth, setslice_scalar_nth_error.
    destruct (nth_error a i) as [x|]; cbn [option_map]; [|reflexivity].
    destruct (in_slice (length a) i s), (existsb (in_slice (length a) i) slices); reflexivity.
Qed.

Lemma in_slice_well_formed (n i : nat) (s : slice) :
  0 <= start s -> 0 <= stop s <= Z.of_nat n ->
  in_slice n i s = (start s <=? Z.of_nat i) && (Z.of_nat i <? stop s).
Proof.
  intros Hstart Hstop. unfold in_slice, slice_bounds, clamp. cbn [fst snd].
  destruct (Z.ltb_spec (start s) 0); [lia|]. destruct (Z.ltb_spec (stop s) 0); [lia|].
  rewrite (Z.min_l (stop s)) by lia.
  destruct (Z.leb_spec (start s) (Z.of_nat i)), (Z.ltb_spec (Z.of_nat i) (stop s)),
    (Z.leb_spec (Z.min (start s) (Z.of_nat n)) (Z.of_nat i)); cbn [andb]; try reflexivity; lia.
Qed.

(** The mask on the path that computes it from the slices. *)
Lemma computed_mask (y_slices : list slice) :
  y_slices <> [] -> 0 <= stop (last y_slices (Slice 0 0)) ->
  exists mask,
    (sl <- last_item y_slices ;;
     array <- np_zeros (stop sl) ;;
     Ok (map (fun x => negb (x =? 0))
             (fold_left (fun a y_slice => setslice_scalar a y_slice 1) y_slices array)))
    = Ok mask /\
    length mask = Z.to_nat (stop (last y_slices (Slice 0 0))) /\
    (forall i, (i < length mask)%nat ->
               nth i mask false = existsb (in_slice (length mask) i) y_slices).
Proof.
  intros Hne Hpos. rewrite (last_item_last _ (Slice 0 0) Hne). cbn [bind]. unfold np_zeros.
  set (n := stop (last y_slices (Slice 0 0))) in *.
  destruct (Z.ltb_spec n 0); [lia|]. cbn [bind]. eexists. split; [reflexivity|].
  destruct (fold_setslice_scalar y_slices (repeat 0 (Z.to_nat n))) as [Hlen Hnth].
  rewrite repeat_length in Hlen, Hnth.
  assert (Hmask_len :
    length (map (fun x => negb (x =? 0))
                (fold_left (fun a y_slice => setslice_scalar a y_slice 1) y_slices
                           (repeat 0 (Z.to_nat n)))) = Z.to_nat n).
  { rewrite length_map. exact Hlen. }
  split; [exact Hmask_len|]. rewrite Hmask_len.
  intros i Hi. apply nth_error_nth. rewrite nth_error_map, Hnth.
  rewrite (nth_error_repeat 0 Hi). cbn [option_map].
  destruct (existsb (in_slice (Z.to_nat n) i) y_slices); reflexivity.
Qed.

Lemma computed_path (debug_mode : bool) (y_slices : list slice) (given : option (list bool)) :
  debug_mode = true \/ given = None ->
  StateVector.set_evaluation_array debug_mode y_slices given
  = (sl <- last_item y_slices ;;
     array <- np_zeros (stop sl) ;;
     Ok (map (fun x => negb (x =? 0))
             (fold_left (fun a y_slice => setslice_scalar a y_slice 1) y_slices array))).
Proof.
  intros Hcomputed. unfold StateVector.set_evaluation_array.
  destruct Hcomputed as [-> | ->]; [destruct given|]; reflexivity.
Qed.

(** X1.  The mask computed from the slices.  Without slices the computation
    raises [IndexError], with a negative last stop [ValueError].  Otherwise
    the mask is as long as the stop of the last slice, and its entry [i] is
    true exactly when one of the slices, its bounds normalised as Python
    does for an array of that length, selects [i]; for slices with
    non-negative bounds and no stop beyond the last one this is:
    [start <= i < stop] for one of the slices.  In debug mode a mask that is
    supplied is not used. *)
Theorem evaluation_array_marks_the_slices :
  forall (debug_mode : bool) (y_slices : list slice) (given : option (list bool)),
    (debug_mode = true \/ given = None) ->
    (y_slices = [] ->
     StateVector.set_evaluation_array debug_mode y_slices given = Raise IndexError) /\
    (y_slices <> [] -> stop (last y_slices (Slice 0 0)) < 0 ->
     StateVector.set_evaluation_array debug_mode y_slices given = Raise ValueError) /\
    (y_slices <> [] -> 0 <= stop (last y_slices (Slice 0 0)) ->
     exists mask,
       StateVector.set_evaluation_array debug_mode y_slices given = Ok mask /\
       length mask = Z.to_nat (stop (last y_slices (Slice 0 0))) /\
       (forall i, (i < length mask)%nat ->
                  nth i mask false = existsb (in_slice (length mask) i) y_slices) /\
       ((forall s, In s y_slices ->
                   0 <= start s /\ 0 <= stop s <= stop (last y_slices (Slice 0 0))) ->
        forall i, nth i mask false = true <->
                  exists s, In s y_slices /\ start s <= Z.of_nat i < stop s)).
Proof.
  intros debug_mode y_slices given Hcomputed.
  rewrite (computed_path _ _ _ Hcomputed). split; [|split].
  - intros ->. reflexivity.
  - intros Hne Hneg. rewrite (last_item_last _ (Slice 0 0) Hne). cbn [bind]. unfold np_zeros.
    destruct (Z.ltb_spec (stop (last y_slices (Slice 0 0))) 0); [reflexivity|lia].
  - intros Hne Hpos. destruct (computed_mask y_slices Hne Hpos) as (mask & Hmask & Hlen & Hentry).
    exists mask. split; [exact Hmask|]. split; [exact Hlen|]. split; [exact Hentry|].
    intros Hwf i. destruct (Nat.lt_ge_cases i (length mask)) as [Hi|Hi].
    + rewrite (Hentry i Hi), existsb_exists. split.
      * intros (s & Hs & Hin). exists s. split; [exact Hs|].
        rewrite in_slice_well_formed in Hin by (destruct (Hwf s Hs); lia).
        apply andb_prop in Hin. destruct Hin as [H1 H2].
        apply Z.leb_le in H1. apply Z.ltb_lt in H2. lia.
      * intros (s & Hs & Hin). exists s. split; [exact Hs|].
        rewrite in_slice_well_formed by (destruct (Hwf s Hs); lia).
        apply andb_true_intro. split; [apply Z.leb_le | apply Z.ltb_lt]; lia.
    + rewrite nth_overflow by exact Hi. split; [discriminate|].
      intros (s & Hs & Hin). destruct (Hwf s Hs). lia.
Qed.

(** An instance: the mask of the slices 0:2, 4:6. *)
Lemma evaluation_array_marks_the_slices_witness :
  exists mask,
    StateVector.set_evaluation_array false [Slice 0 2; Slice 4 6] None = Ok mask /\
    length mask = 6%nat /\
    (forall i, (i < length mask)%nat ->
               nth i mask false = existsb (in_slice (length mask) i) [Slice 0 2; Slice 4 6]) /\
    ((forall s, In s [Slice 0 2; Slice 4 6] -> 0 <= start s /\ 0 <= stop s <= 6) ->
     forall i, nth i mask false = true <->
               exists s, In s [Slice 0 2; Slice 4 6] /\ start s <= Z.of_nat i < stop s).
Proof.
  apply (proj2 (proj2 (evaluation_array_marks_the_slices false [Slice 0 2; Slice 4 6] None
                         (or_intror eq_refl)))).
  - discriminate.
  - simpl. lia.
Defined.

(** ** [StateVector.size], [evaluate_for_shape] and evaluation *)

Lemma mask_select_length {X : Type} (mask : list bool) : forall arr : list X,
  (length mask <= length arr)%nat ->
  length (mask_select arr mask) = count_occ bool_dec mask true.
Proof.
  induction mask as [|b mask IH]; intros arr Hlen.
  - destruct arr; reflexivity.
  - destruct arr as [|x arr]; [simpl in Hlen; lia|].
    assert (Hlen' : (length mask <= length arr)%nat) by (simpl in Hlen; lia).
    destruct b; cbn [mask_select length]; rewrite (IH arr Hlen').
    + rewrite count_occ_cons_eq by reflexivity. reflexivity.
    + rewrite count_occ_cons_neq by discriminate. reflexivity.
Qed.

(** X2.  [size] is the number of rows of the value: whenever [y] is long
    enough, evaluation returns exactly [size] entries, as many as
    [evaluate_for_shape] returns without looking at any [y]; and [size]
    never exceeds the length of the mask. *)
Theorem size_is_the_number_of_rows :
  forall (X : Type) (sv : StateVector.t) (tm : option X) (nan : X) (y : list X),
    (length (StateVector.evaluation_array sv) <= length y)%nat ->
    exists out,
      StateVector._base_evaluate sv tm (Some y) = Ok out /\
      length out = StateVector.size sv /\
      length (StateVector.evaluate_for_shape nan sv) = length out /\
      (StateVector.size sv <= length (StateVector.evaluation_array sv))%nat.
Proof.
  intros X sv tm nan y Hlen. unfold StateVector._base_evaluate.
  destruct (Nat.ltb_spec (length y) (length (StateVector.evaluation_array sv))); [lia|].
  eexists. split; [reflexivity|].
  rewrite mask_select_length by (rewrite length_firstn; lia).
  unfold StateVector.evaluate_for_shape, StateVector.size. rewrite repeat_length.
  repeat split. apply count_occ_bound.
Qed.

(** An instance: [StateVector(slice(0, 2), slice(4, 6))] on six entries. *)
Lemma size_is_the_number_of_rows_witness :
  exists out,
    StateVector._base_evaluate sv_0_2_4_6 None (Some [1; 2; 3; 4; 5; 6]) = Ok out /\
    length out = StateVector.size sv_0_2_4_6 /\
    length (StateVector.evaluate_for_shape 0 sv_0_2_4_6) = length out /\
    (StateVector.size sv_0_2_4_6 <= length (StateVector.evaluation_array sv_0_2_4_6))%nat.
Proof.
  apply (size_is_the_number_of_rows Z sv_0_2_4_6 None 0 [1; 2; 3; 4; 5; 6]).
  simpl. lia.
Defined.

(** X3.  Evaluation reads the entries of [y] below the length of the mask
    and nothing else: the time and whatever follows in [y] do not change
    the value. *)
Theorem evaluation_reads_only_below_the_mask :
  forall (X : Type) (sv : StateVector.t) (tm tm' : option X) (y extra : list X),
    (length (StateVector.evaluation_array sv) <= length y)%nat ->
    StateVector._base_evaluate sv tm (Some (y ++ extra))
    = StateVector._base_evaluate sv tm' (Some y).
Proof.
  intros X sv tm tm' y extra Hlen. unfold StateVector._base_evaluate.
  rewrite length_app.
  destruct (Nat.ltb_spec (length y + length extra) (length (StateVector.evaluation_array sv)));
    [lia|].
  destruct (Nat.ltb_spec (length y) (length (StateVector.evaluation_array sv))); [lia|].
  rewrite firstn_app.
  replace (length (StateVector.evaluation_array sv) - length y)%nat with 0%nat by lia.
  cbn [firstn]. rewrite app_nil_r. reflexivity.
Qed.

(** An instance: [StateVector(slice(0, 3))] on three entries and on five. *)
Lemma evaluation_reads_only_below_the_mask_witness :
  StateVector._base_evaluate sv_0_3 (Some 7) (Some ([10; 20; 30] ++ [40; 50]))
  = StateVector._base_evaluate sv_0_3 None (Some [10; 20; 30]).
Proof.
  apply (evaluation_reads_only_below_the_mask Z sv_0_3 (Some 7) None [10; 20; 30] [40; 50]).
  simpl. lia.
Defined.

(** ** [StateVector.new_copy] *)

Lemma init_inversion (debug_mode : bool) (args : list pyobj) (name : option string)
    (domain : option (list string)) (aux : option (sdict (list string)))
    (given : option (list bool)) (sv : StateVector.t) :
  StateVector.__init__ debug_mode args name domain aux given = Ok sv ->
  exists s0 sl,
    args = map PySlice (StateVector.y_slices sv) /\
    first_item (StateVector.y_slices sv) = Ok s0 /\
    last_item (StateVector.y_slices sv) = Ok sl /\
    StateVector.first_point sv = start s0 /\
    StateVector.last_point sv = stop sl /\
    StateVector.set_evaluation_array debug_mode (StateVector.y_slices sv) given
    = Ok (StateVector.evaluation_array sv).
Proof.
  intros Hinit. unfold StateVector.__init__ in Hinit.
  destruct (check_slices_cases args) as [(l & -> & Hl) | (_ & Hl)];
    rewrite Hl in Hinit; [|discriminate].
  cbn [bind] in Hinit.
  apply bind_ok in Hinit. destruct Hinit as (n & _ & Hinit).
  apply bind_ok in Hinit. destruct Hinit as (s0 & Hs0 & Hinit).
  apply bind_ok in Hinit. destruct Hinit as (sl & Hsl & Hinit).
  apply bind_ok in Hinit. destruct Hinit as (ea & Hea & Hinit).
  injection Hinit as <-. cbn. exists s0, sl. repeat split; assumption.
Qed.

(** X4.  A copy is the node itself.  For every node the constructor has
    built, [new_copy] succeeds and returns a node with the same slices,
    name, domain, auxiliary domains, end points and mask, provided the mask
    is reused (debug mode off at the copy) or was computed from the slices
    when the node was built (no mask supplied, or debug mode on). *)
Theorem new_copy_returns_the_node :
  forall (debug_mode copy_debug_mode : bool) (args : list pyobj) (name : option string)
         (domain : option (list string)) (aux : option (sdict (list string)))
         (given : option (list bool)) (sv : StateVector.t),
    StateVector.__init__ debug_mode args name domain aux given = Ok sv ->
    copy_debug_mode = false \/ debug_mode = true \/ given = None ->
    StateVector.new_copy copy_debug_mode sv = Ok sv.
Proof.
  intros debug_mode copy_debug_mode args name domain aux given sv Hinit Hmask.
  destruct (init_inversion _ _ _ _ _ _ _ Hinit) as (s0 & sl & _ & Hs0 & Hsl & Hfirst & Hlast & Hea).
  unfold StateVector.new_copy, StateVector.__init__.
  rewrite check_slices_map. cbn [bind]. rewrite Hs0, Hsl. cbn [bind].
  assert (Hcopy : StateVector.set_evaluation_array copy_debug_mode (StateVector.y_slices sv)
                    (Some (StateVector.evaluation_array sv))
                  = Ok (StateVector.evaluation_array sv)).
  { destruct copy_debug_mode; [|reflexivity].
    destruct Hmask as [Hc | [-> | ->]]; [discriminate| |].
    - rewrite <- Hea. unfold StateVector.set_evaluation_array. destruct given; reflexivity.
    - rewrite <- Hea. unfold StateVector.set_evaluation_array. destruct debug_mode; reflexivity. }
  rewrite Hcopy. cbn [bind]. rewrite <- Hfirst, <- Hlast. destruct sv; reflexivity.
Qed.

(** An instance: the copy of [StateVector(slice(0, 2), slice(4, 6))]. *)
Lemma new_copy_returns_the_node_witness :
  StateVector.new_copy true sv_0_2_4_6 = Ok sv_0_2_4_6.
Proof.
  apply (new_copy_returns_the_node false true
           [PySlice (Slice 0 2); PySlice (Slice 4 6)] None None None None sv_0_2_4_6).
  - reflexivity.
  - right. right. reflexivity.
Defined.

(** ** Evaluation for slices given in increasing order *)

Lemma increasing_bounds (l : list slice) : forall lo sl,
  increasing lo l -> last_item l = Ok sl ->
  lo <= stop sl /\
  forall s, In s l -> lo <= start s /\ start s <= stop s /\ stop s <= stop sl.
Proof.
  induction l as [|s l IH]; intros lo sl Hinc Hlast; [discriminate|].
  cbn [increasing] in Hinc. destruct Hinc as (Hlo & Hwf & Hinc).
  destruct l as [|s' l'].
  - injection Hlast as <-. split; [lia|]. intros s0 [<-|[]]. lia.
  - change (last_item (s :: s' :: l')) with (last_item (s' :: l')) in Hlast.
    destruct (IH _ _ Hinc Hlast) as [Hstop Hin]. split; [lia|].
    intros s0 [<-|Hs0]; [lia|]. destruct (Hin s0 Hs0) as (H1 & H2 & H3). lia.
Qed.

Lemma skipn_cons_nth {X : Type} (y : list X) : forall a x,
  nth_error y a = Some x -> skipn a y = x :: skipn (S a) y.
Proof.
  induction y as [|x0 y IH]; intros [|a] x H; cbn in H; try discriminate.
  - injection H as ->. reflexivity.
  - cbn [skipn]. apply IH. exact H.
Qed.

Lemma firstn_skipn_positions {X : Type} (y : list X) (k : nat) : forall a,
  (a + k <= length y)%nat ->
  map Some (firstn k (skipn a y)) = map (nth_error y) (seq a k).
Proof.
  induction k as [|k IH]; intros a Hlen; [reflexivity|].
  destruct (nth_error y a) as [x|] eqn:Hx;
    [|apply nth_error_None in Hx; lia].
  rewrite (skipn_cons_nth _ _ _ Hx). cbn [firstn map seq]. rewrite Hx.
  f_equal. apply IH. lia.
Qed.

(** The positions a slice with [0 <= start <= stop] reads. *)
Lemma getslice_positions {X : Type} (y : list X) (s : slice) :
  0 <= start s -> start s <= stop s -> stop s <= Z.of_nat (length y) ->
  map Some (getslice y s)
  = map (nth_error y) (seq (Z.to_nat (start s)) (Z.to_nat (stop s - start s))).
Proof.
  intros H0 Hwf Hlen. unfold getslice, slice_bounds, clamp.
  destruct (Z.ltb_spec (start s) 0); [lia|]. destruct (Z.ltb_spec (stop s) 0); [lia|].
  rewrite !Z.min_l by lia. apply firstn_skipn_positions. lia.
Qed.

Lemma existsb_ext_in {A : Type} (f g : A -> bool) (l : list A) :
  (forall x, In x l -> f x = g x) -> existsb f l = existsb g l.
Proof.
  induction l as [|x l IH]; intros H; [reflexivity|]. cbn [existsb].
  rewrite (H x (or_introl eq_refl)), IH; [reflexivity|].
  intros y Hy. apply H. right. exact Hy.
Qed.

Lemma filter_none {A : Type} (f : A -> bool) (l : list A) :
  (forall x, In x l -> f x = false) -> filter f l = [].
Proof.
  induction l as [|x l IH]; intros H; [reflexivity|]. cbn [filter].
  rewrite (H x (or_introl eq_refl)). apply IH. intros y Hy. apply H. right. exact Hy.
Qed.

Lemma filter_all {A : Type} (f : A -> bool) (l : list A) :
  (forall x, In x l -> f x = true) -> filter f l = l.
Proof.
  induction l as [|x l IH]; intros H; [reflexivity|]. cbn [filter].
  rewrite (H x (or_introl eq_refl)). f_equal. apply IH. intros y Hy. apply H. right. exact Hy.
Qed.

(** The positions selected by slices in increasing order, listed position
    by position, are the positions of the slices listed slice by slice. *)
Lemma covered_positions (n : nat) (l : list slice) : forall lo : nat,
  increasing (Z.of_nat lo) l ->
  (forall s, In s l -> stop s <= Z.of_nat n) ->
  (lo <= n)%nat ->
  filter (fun i => existsb (fun s => (start s <=? Z.of_nat i) && (Z.of_nat i <? stop s)) l)
         (seq lo (n - lo))
  = flat_map (fun s => seq (Z.to_nat (start s)) (Z.to_nat (stop s - start s))) l.
Proof.
  induction l as [|s l IH]; intros lo Hinc Hstop Hlo.
  - cbn [existsb flat_map]. apply filter_none. reflexivity.
  - cbn [increasing] in Hinc. destruct Hinc as (Hlo_s & Hwf & Hinc).
    pose proof (Hstop s (or_introl eq_refl)) as Hs_n.
    set (a := Z.to_nat (start s)). set (b := Z.to_nat (stop s)).
    assert (Hab : (lo <= a /\ a <= b /\ b <= n)%nat) by (unfold a, b; lia).
    replace (n - lo)%nat with ((a - lo) + ((b - a) + (n - b)))%nat by lia.
    rewrite !seq_app, !filter_app.
    replace (lo + (a - lo))%nat with a by lia.
    replace (a + (b - a))%nat with b by lia.
    cbn [flat_map].
    assert (Hlater : forall s', In s' l -> stop s <= start s').
    { intros s' Hs'. destruct l as [|s1 l1]; [destruct Hs'|].
      destruct (last_item (s1 :: l1)) as [sl|] eqn:Hlast.
      - destruct (increasing_bounds _ _ _ Hinc Hlast) as [_ Hin]. destruct (Hin s' Hs'). lia.
      - rewrite (last_item_last (s1 :: l1) s1) in Hlast by discriminate. discriminate. }
    rewrite (filter_none _ (seq lo (a - lo))).
    2:{ intros i Hi. apply in_seq in Hi. cbn [existsb].
        replace (start s <=? Z.of_nat i) with false by (symmetry; apply Z.leb_gt; lia).
        cbn [andb orb]. apply not_true_is_false. intros Hex.
        apply existsb_exists in Hex. destruct Hex as (s' & Hs' & Hc).
        apply andb_prop in Hc. destruct Hc as [Hc _]. apply Z.leb_le in Hc.
        pose proof (Hlater s' Hs'). lia. }
    rewrite (filter_all _ (seq a (b - a))).
    2:{ intros i Hi. apply in_seq in Hi. cbn [existsb].
        replace (start s <=? Z.of_nat i) with true by (symmetry; apply Z.leb_le; lia).
        replace (Z.of_nat i <? stop s) with true by (symmetry; apply Z.ltb_lt; lia).
        reflexivity. }
    cbn [app]. f_equal; [f_equal; unfold a, b; lia|].
    rewrite <- (IH b); [| replace (Z.of_nat b) with (stop s) by (unfold b; lia); exact Hinc
                        | intros s' Hs'; apply Hstop; right; exact Hs' | lia].
    apply filter_ext_in. intros i Hi. apply in_seq in Hi. cbn [existsb].
    replace (Z.of_nat i <? stop s) with false by (symmetry; apply Z.ltb_ge; lia).
    rewrite andb_false_r. reflexivity.
Qed.

(** X5.  For slices supplied in increasing order (each with
    [0 <= start <= stop], each starting no earlier than the previous one
    stops) and a mask computed from them, evaluation returns the entries of
    [y] slice by slice: [y[s1]] followed by [y[s2]] and so on. *)
Theorem evaluation_of_increasing_slices :
  forall (X : Type) (debug_mode : bool) (y_slices : list slice) (name : option string)
         (domain : option (list string)) (aux : option (sdict (list string)))
         (given : option (list bool)) (sv : StateVector.t) (tm : option X) (y : list X),
    StateVector.__init__ debug_mode (map PySlice y_slices) name domain aux given = Ok sv ->
    debug_mode = true \/ given = None ->
    increasing 0 y_slices ->
    StateVector.last_point sv <= Z.of_nat (length y) ->
    StateVector._base_evaluate sv tm (Some y) = Ok (gather_in_slice_order y y_slices).
Proof.
  intros X debug_mode y_slices name domain aux given sv tm y Hinit Hcomputed Hinc Hy.
  destruct (init_inversion _ _ _ _ _ _ _ Hinit)
    as (s0 & sl & Hargs & Hs0 & Hsl & _ & Hlast & Hea).
  assert (Hslices : StateVector.y_slices sv = y_slices).
  { symmetry. eapply map_injective; [|exact Hargs]. intros a b Hab. injection Hab as ->.
    reflexivity. }
  rewrite Hslices in *.
  assert (Hne : y_slices <> []) by (intros ->; discriminate Hs0).
  destruct (increasing_bounds _ _ _ Hinc Hsl) as [Hpos Hbounds].
  rewrite (computed_path _ _ _ Hcomputed) in Hea.
  assert (Hl : last y_slices (Slice 0 0) = sl).
  { pose proof (last_item_last y_slices (Slice 0 0) Hne) as H. rewrite Hsl in H.
    injection H as <-. reflexivity. }
  destruct (computed_mask y_slices Hne ltac:(rewrite Hl; exact Hpos))
    as (mask & Hmask & Hlen & Hentry).
  rewrite Hmask in Hea. injection Hea as Hea. rewrite Hl in Hlen.
  destruct (base_evaluate_ok sv tm y) as (out & Hout & Hpositions);
    [rewrite <- Hea, Hlen; lia|].
  rewrite Hout. f_equal. apply (map_injective (@Some X)); [intros a b H; injection H; auto|].
  rewrite Hpositions, <- Hea. unfold gather_in_slice_order.
  rewrite (filter_ext_in _
             (fun i => existsb (fun s => (start s <=? Z.of_nat i) && (Z.of_nat i <? stop s))
                               y_slices)).
  2:{ intros i Hi. apply in_seq in Hi. rewrite (Hentry i ltac:(lia)).
      apply existsb_ext_in. intros s Hs.
      destruct (Hbounds s Hs) as (H1 & H2 & H3).
      apply in_slice_well_formed; lia. }
  rewrite <- (Nat.sub_0_r (length mask)).
  rewrite (covered_positions (length mask) y_slices 0%nat Hinc);
    [| intros s Hs; destruct (Hbounds s Hs); lia | lia].
  clear -Hbounds Hy Hlast. rewrite Hlast in Hy.
  assert (Hall : forall s, In s y_slices ->
                           0 <= start s /\ start s <= stop s /\ stop s <= Z.of_nat (length y)).
  { intros s Hs. destruct (Hbounds s Hs) as (H1 & H2 & H3). lia. }
  clear Hbounds. induction y_slices as [|s l IH]; [reflexivity|].
  cbn [flat_map]. rewrite !map_app. rewrite IH by (intros s' Hs'; apply Hall; right; exact Hs').
  f_equal. symmetry. destruct (Hall s (or_introl eq_refl)) as (H1 & H2 & H3).
  apply getslice_positions; assumption.
Qed.

(** An instance: the slices 0:2, 4:6 on six entries. *)
Lemma evaluation_of_increasing_slices_witness :
  StateVector._base_evaluate sv_0_2_4_6 None (Some [1; 2; 3; 4; 5; 6]) = Ok [1; 2; 5; 6].
Proof.
  apply (evaluation_of_increasing_slices Z false [Slice 0 2; Slice 4 6] None None None None
           sv_0_2_4_6 None [1; 2; 3; 4; 5; 6]).
  - reflexivity.
  - right. reflexivity.
  - simpl. lia.
  - simpl. lia.
Defined.

(** ** [StateVector.jac] for a node with several slices *)

Lemma jac_step_cases (variable : StateVector.t) (jac : Matrix) (s : slice) :
  ncols jac = Z.to_nat (StateVector.last_point variable - StateVector.first_point variable) ->
  StateVector.jac_step variable
    (np_arange (StateVector.first_point variable) (StateVector.last_point variable)) jac s
  = Ok {| ncols := ncols jac;
          rows := if overlaps variable s then rows jac ++ jac_block_spec variable s
                  else jac_block_spec variable s |}.
Proof.
  intros Hcols. unfold StateVector.jac_step, overlaps. rewrite !length_np_arange.
  destruct (np_intersect1d (np_arange (start s) (stop s))
              (np_arange (StateVector.first_point variable)
                         (StateVector.last_point variable))) as [|g common] eqn:Hcommon.
  - cbn [length Nat.eqb negb]. unfold csr_zeros. rewrite (jac_block_zero _ _ Hcommon), Hcols.
    reflexivity.
  - cbn [length Nat.eqb negb]. unfold vstack. cbn [ncols csr_matrix]. rewrite Hcols, Nat.eqb_refl.
    cbn [rows]. do 3 f_equal. rewrite <- Hcommon.
    pose proof (jac_block variable s) as Hblock. cbn zeta in Hblock.
    unfold csr_matrix in Hblock. cbn [rows] in Hblock. rewrite !length_np_arange in Hblock.
    exact Hblock.
Qed.

Lemma surviving_all (variable : StateVector.t) (l : list slice) :
  forallb (overlaps variable) (tl l) = true -> surviving_slices variable l = l.
Proof.
  destruct l as [|s l]; [reflexivity|]. cbn [tl surviving_slices]. intros ->. reflexivity.
Qed.

Lemma jac_loop (variable : StateVector.t) (l : list slice) : forall jac : Matrix,
  ncols jac = Z.to_nat (StateVector.last_point variable - StateVector.first_point variable) ->
  for_each (StateVector.jac_step variable
              (np_arange (StateVector.first_point variable) (StateVector.last_point variable)))
           l jac
  = Ok {| ncols := ncols jac;
          rows := if forallb (overlaps variable) l
                  then rows jac ++ flat_map (jac_block_spec variable) l
                  else flat_map (jac_block_spec variable) (surviving_slices variable l) |}.
Proof.
  induction l as [|s l IH]; intros jac Hcols.
  - cbn [for_each forallb flat_map]. rewrite app_nil_r. destruct jac; reflexivity.
  - cbn [for_each]. rewrite (jac_step_cases _ _ _ Hcols). cbn [bind].
    rewrite IH by exact Hcols. cbn [ncols rows forallb surviving_slices flat_map].
    destruct (overlaps variable s) eqn:Hs; cbn [andb].
    + destruct (forallb (overlaps variable) l); [rewrite <- app_assoc|]; reflexivity.
    + destruct (forallb (overlaps variable) l); reflexivity.
Qed.

(** X6.  [jac] for a node and a variable whose slice bounds are int64
    values.  Against a variable with more than one slice it raises
    [NotImplementedError], whatever the bounds; otherwise, the bounds being
    within [-2^63, 2^63), it does not fail, the matrix has one column per
    index of the variable, and its rows are the blocks of the slices that
    survive: all the slices when every slice after the first shares an index
    with the variable (then the matrix is the stack of all blocks),
    otherwise only the last slice that shares none and the slices after
    it. *)
Theorem jac_keeps_the_blocks_after_the_last_disjoint_slice :
  forall self variable : StateVector.t,
    ((1 < length (StateVector.y_slices variable))%nat ->
     StateVector.jac self variable = Raise NotImplementedError) /\
    ((length (StateVector.y_slices variable) <= 1)%nat ->
     bounds_in_int64 self variable ->
     StateVector.jac self variable
     = Ok {| ncols := Z.to_nat (StateVector.last_point variable
                                - StateVector.first_point variable);
             rows := flat_map (jac_block_spec variable)
                              (surviving_slices variable (StateVector.y_slices self)) |}) /\
    ((length (StateVector.y_slices variable) <= 1)%nat ->
     bounds_in_int64 self variable ->
     forallb (overlaps variable) (tl (StateVector.y_slices self)) = true ->
     StateVector.jac self variable = Ok (jac_spec self variable)).
Proof.
  intros self variable.
  assert (Hgeneral :
    (length (StateVector.y_slices variable) <= 1)%nat ->
    StateVector.jac self variable
    = Ok {| ncols := Z.to_nat (StateVector.last_point variable
                               - StateVector.first_point variable);
            rows := flat_map (jac_block_spec variable)
                             (surviving_slices variable (StateVector.y_slices self)) |}).
  { intros Hvar. unfold StateVector.jac.
    destruct (Nat.ltb_spec 1 (length (StateVector.y_slices variable))); [lia|].
    rewrite jac_loop by (cbn [ncols csr_zeros]; apply length_np_arange).
    cbn [ncols rows csr_zeros repeat app]. rewrite length_np_arange. do 2 f_equal.
    destruct (forallb (overlaps variable) (StateVector.y_slices self)) eqn:Hall; [|reflexivity].
    rewrite surviving_all; [reflexivity|].
    destruct (StateVector.y_slices self) as [|s l]; [reflexivity|].
    cbn [forallb] in Hall. apply andb_prop in Hall. apply Hall. }
  split; [|split].
  - intros Hvar. unfold StateVector.jac.
    destruct (Nat.ltb_spec 1 (length (StateVector.y_slices variable))); [reflexivity|lia].
  - intros Hvar _. exact (Hgeneral Hvar).
  - intros Hvar _ Hall. rewrite (Hgeneral Hvar), (surviving_all _ _ Hall). reflexivity.
Qed.

(** An instance: the two blocks of [StateVector(slice(0, 2), slice(4, 6))]
    against [StateVector(slice(0, 6))], which both slices overlap. *)
Lemma jac_keeps_the_blocks_witness :
  StateVector.jac sv_0_2_4_6 sv_0_6
  = Ok {| ncols := 6;
          rows := [[1; 0; 0; 0; 0; 0]; [0; 1; 0; 0; 0; 0];
                   [0; 0; 0; 0; 1; 0]; [0; 0; 0; 0; 0; 1]] |}.
Proof.
  apply (proj2 (proj2 (jac_keeps_the_blocks_after_the_last_disjoint_slice sv_0_2_4_6 sv_0_6))).
  - simpl. lia.
  - unfold bounds_in_int64, int64. cbn [StateVector.y_slices StateVector.first_point
      StateVector.last_point sv_0_2_4_6 sv_0_6 start stop].
    split; [repeat (apply Forall_cons; [cbn [start stop]; lia|]); apply Forall_nil | lia].
  - reflexivity.
Defined.

(** ** [Concatenation.get_children_domains] *)

Lemma isdisjoint_spec (domain child_domain : list string) :
  Concatenation.isdisjoint domain child_domain = true <->
  forall x, In x child_domain -> ~ In x domain.
Proof.
  unfold Concatenation.isdisjoint. rewrite forallb_forall. split.
  - intros H x Hx Hin. specialize (H x Hx). apply negb_true_iff in H.
    assert (Hex : existsb (String.eqb x) domain = true).
    { apply existsb_exists. exists x. split; [exact Hin | apply String.eqb_refl]. }
    congruence.
  - intros H x Hx. apply negb_true_iff. apply not_true_is_false. intros Hex.
    apply existsb_exists in Hex. destruct Hex as (y & Hy & Heq).
    apply String.eqb_eq in Heq. subst y. exact (H x Hx Hy).
Qed.

Lemma get_children_domains_loop {X : Type} (children : list (Symbol X)) :
  forall seen : list string,
    (domains_disjoint seen (map Node.domain children) ->
     for_each (fun domain child =>
                 if Concatenation.isdisjoint domain (Node.domain child)
                 then Ok (domain ++ Node.domain child) else Raise DomainError)
              children seen
     = Ok (seen ++ concat (map Node.domain children))) /\
    (~ domains_disjoint seen (map Node.domain children) ->
     for_each (fun domain child =>
                 if Concatenation.isdisjoint domain (Node.domain child)
                 then Ok (domain ++ Node.domain child) else Raise DomainError)
              children seen
     = Raise DomainError).
Proof.
  induction children as [|child children IH]; intros seen; cbn [map domains_disjoint for_each concat].
  - split; [intros _; rewrite app_nil_r; reflexivity | intros H; exfalso; apply H; exact I].
  - destruct (Concatenation.isdisjoint seen (Node.domain child)) eqn:Hdis; cbn [bind].
    + pose proof (proj1 (isdisjoint_spec _ _) Hdis) as Hdis'.
      destruct (IH (seen ++ Node.domain child)) as [Hok Herr]. split.
      * intros [_ Hrest]. rewrite (Hok Hrest), app_assoc. reflexivity.
      * intros Hnot. apply Herr. intros Hrest. apply Hnot. split; assumption.
    + split; [|reflexivity]. intros [Hd _].
      pose proof (proj2 (isdisjoint_spec _ _) Hd) as Hd'. congruence.
Qed.

Lemma domains_disjoint_pairwise (domains : list (list string)) : forall seen,
  domains_disjoint seen domains <->
  (forall j d x, nth_error domains j = Some d -> In x d -> ~ In x seen) /\
  (forall i j di dj x, (i < j)%nat -> nth_error domains i = Some di ->
                       nth_error domains j = Some dj -> In x di -> ~ In x dj).
Proof.
  induction domains as [|d domains IH]; intros seen; cbn [domains_disjoint].
  - split; [|intros _; exact I]. intros _. split.
    + intros [|j] d x H; discriminate H.
    + intros [|i] j di dj x _ H; discriminate H.
  - rewrite IH. split.
    + intros (Hd & Hseen & Hpair). split.
      * intros [|j] d' x Hj Hx; cbn [nth_error] in Hj.
        -- injection Hj as <-. apply Hd, Hx.
        -- intros Hin. apply (Hseen j d' x Hj Hx). apply in_or_app. left. exact Hin.
      * intros [|i] [|j] di dj x Hlt Hi Hj Hx; cbn [nth_error] in Hi, Hj; try lia.
        -- injection Hi as <-. intros Hin. apply (Hseen j dj x Hj Hin).
           apply in_or_app. right. exact Hx.
        -- apply (Hpair i j di dj x); [lia | assumption..].
    + intros (Hseen & Hpair). split; [|split].
      * intros x Hx. apply (Hseen 0%nat d x eq_refl Hx).
      * intros j d' x Hj Hx Hin. apply in_app_or in Hin. destruct Hin as [Hin|Hin].
        -- apply (Hseen (S j) d' x Hj Hx Hin).
        -- apply (Hpair 0%nat (S j) d d' x); [lia | reflexivity | exact Hj | exact Hin | exact Hx].
      * intros i j di dj x Hlt Hi Hj Hx. apply (Hpair (S i) (S j) di dj x); [lia | assumption..].
Qed.

Lemma children_domains_merge_or_conflict_aux {X : Type} (children : list (Symbol X)) :
  ((forall i j di dj x, (i < j)%nat -> nth_error (map Node.domain children) i = Some di ->
                        nth_error (map Node.domain children) j = Some dj ->
                        In x di -> ~ In x dj) ->
   Concatenation.get_children_domains children = Ok (concat (map Node.domain children))) /\
  (~ (forall i j di dj x, (i < j)%nat -> nth_error (map Node.domain children) i = Some di ->
                          nth_error (map Node.domain children) j = Some dj ->
                          In x di -> ~ In x dj) ->
   Concatenation.get_children_domains children = Raise DomainError).
Proof.
  destruct (get_children_domains_loop children []) as [Hok Herr].
  unfold Concatenation.get_children_domains. split.
  - intros Hpair. apply Hok. apply domains_disjoint_pairwise. split; [|exact Hpair].
    intros j d x _ _ [].
  - intros Hnot. apply Herr. intros Hdis. apply Hnot.
    apply domains_disjoint_pairwise in Hdis. exact (proj2 Hdis).
Qed.

(** X7.  The merge of the children's domains.  If no domain name of a child
    occurs in the domain of another child, the merged domain is the
    children's domains one after the other, in the order of the children;
    otherwise [get_children_domains] raises [DomainError].  It raises
    nothing else. *)
Theorem children_domains_merge_or_conflict :
  forall (X : Type) (children : list (Symbol X)),
    let domains := map Node.domain children in
    let pairwise_disjoint :=
      forall i j di dj x, (i < j)%nat -> nth_error domains i = Some di ->
                          nth_error domains j = Some dj -> In x di -> ~ In x dj in
    (pairwise_disjoint ->
     Concatenation.get_children_domains children = Ok (concat domains)) /\
    (~ pairwise_disjoint ->
     Concatenation.get_children_domains children = Raise DomainError).
Proof.
  intros X children domains pairwise_disjoint.
  destruct (children_domains_merge_or_conflict_aux children) as [Hok Herr].
  split; [exact Hok | exact Herr].
Qed.

(** An instance: children on A and on B. *)
Lemma children_domains_merge_witness :
  Concatenation.get_children_domains
    [constant_child 1 "A" [1; 2]; constant_child 2 "B" [3; 4; 5]]
  = Ok ["A"%string; "B"%string].
Proof.
  apply (proj1 (children_domains_merge_or_conflict Z
                  [constant_child 1 "A" [1; 2]; constant_child 2 "B" [3; 4; 5]])).
  intros [|[|i]] [|[|[|j]]] di dj x Hlt Hi Hj Hx; cbn in Hi, Hj; try lia; try discriminate.
  injection Hi as <-. injection Hj as <-. cbn in Hx |- *.
  destruct Hx as [<-|[]]. intros [H|[]]. discriminate H.
Defined.

(** ** [Concatenation.get_children_auxiliary_domains]: what is merged *)

Lemma for_each_ok_steps {S X : Type} (P : S -> Prop) (Q : X -> Prop)
    (body : S -> X -> result S) (xs : list X) :
  (forall st x st', P st -> body st x = Ok st' -> P st' /\ Q x) ->
  forall st st', P st -> for_each body xs st = Ok st' -> P st' /\ Forall Q xs.
Proof.
  intros Hbody. induction xs as [|x xs IH]; intros st st' Hst Hloop; cbn [for_each] in Hloop.
  - injection Hloop as <-. split; [exact Hst | constructor].
  - apply bind_ok in Hloop. destruct Hloop as (st1 & Hstep & Hloop).
    destruct (Hbody _ _ _ Hst Hstep) as [Hst1 Hx].
    destruct (IH _ _ Hst1 Hloop) as [Hst' Hxs]. split; [exact Hst' | constructor; assumption].
Qed.

(** One level is merged or the merge stops with [KeyError]; the levels that
    are merged are not attributes. *)
Lemma merge_level_with_keeps (has_attribute : string -> bool)
    (child_aux aux_domains : sdict (list string)) (level : string) :
  (forall l, sget aux_domains l <> None -> has_attribute l = false) ->
  match Concatenation.merge_level_with has_attribute child_aux aux_domains level with
  | Ok aux' => (forall l, sget aux' l <> None -> has_attribute l = false) /\
               has_attribute level = false
  | Raise e => e = KeyError
  end.
Proof.
  intros Hinv. unfold Concatenation.merge_level_with, sgetitem, Dict.getitem.
  fold (sget child_aux level). destruct (sget child_aux level) as [value|]; cbn [bind];
    [|reflexivity].
  destruct (has_attribute level) eqn:Hattr; cbn [negb].
  - fold (sget aux_domains level). destruct (sget aux_domains level) as [current|] eqn:Hget;
      cbn [bind]; [|reflexivity].
    exfalso. assert (Hf : has_attribute level = false) by (apply Hinv; congruence).
    congruence.
  - split; [|reflexivity]. intros level' Hlevel'. rewrite sget_sset in Hlevel'.
    destruct (String.eqb level' level) eqn:Heq.
    + apply String.eqb_eq in Heq. subst level'. exact Hattr.
    + apply Hinv, Hlevel'.
Qed.

Lemma sget_keys {V : Type} (d : sdict V) (k : string) :
  In k (Dict.keys d) <-> sget d k <> None.
Proof.
  pose proof (dict_get_none_keys string V String.eqb String.eqb_eq d k) as H.
  unfold sget. split.
  - intros Hin Hnone. apply H in Hnone. exact (Hnone Hin).
  - intros Hsome. destruct (in_dec string_dec k (Dict.keys d)) as [Hin|Hout]; [exact Hin|].
    exfalso. apply Hsome, H, Hout.
Qed.

Lemma merge_levels (has_attribute : string -> bool) (child_aux : sdict (list string))
    (levels : list string) :
  forall aux_domains : sdict (list string),
    (forall level, In level levels ->
                   has_attribute level = false /\ sget child_aux level <> None) ->
    exists aux',
      for_each (Concatenation.merge_level_with has_attribute child_aux) levels aux_domains
      = Ok aux' /\
      forall level,
        sget aux' level
        = if in_dec string_dec level levels then sget child_aux level
          else sget aux_domains level.
Proof.
  induction levels as [|k levels IH]; intros aux_domains Hlevels.
  - exists aux_domains. split; [reflexivity|]. intros level. reflexivity.
  - destruct (Hlevels k (or_introl eq_refl)) as [Hattr Hsome].
    cbn [for_each]. unfold Concatenation.merge_level_with at 1.
    unfold sgetitem, Dict.getitem. fold (sget child_aux k).
    destruct (sget child_aux k) as [value|] eqn:Hvalue; [|congruence].
    cbn [bind]. rewrite Hattr. cbn [negb bind].
    destruct (IH (sset aux_domains k value)) as (aux' & Hloop & Haux').
    { intros level Hlevel. apply Hlevels. right. exact Hlevel. }
    exists aux'. split; [exact Hloop|]. intros level. rewrite Haux', sget_sset.
    destruct (in_dec string_dec level levels) as [Hin|Hout];
      destruct (in_dec string_dec level (k :: levels)) as [Hin'|Hout']; try reflexivity.
    + exfalso. apply Hout'. right. exact Hin.
    + destruct Hin' as [<-|Hin']; [|contradiction].
      rewrite String.eqb_refl. symmetry. exact Hvalue.
    + destruct (String.eqb_spec level k) as [->|Hne]; [|reflexivity].
      exfalso. apply Hout'. left. reflexivity.
Qed.

(** X8.  What the merge of the auxiliary domains returns, whatever names
    [hasattr(aux_domains, level)] holds for ([has_attribute]; the names of
    the attributes of a dictionary depend on the interpreter).  When no
    level of a child is such a name, the merge succeeds and gives each level
    the value of the last child that has this level (levels no child has
    are absent); when some child has a level that is such a name, the merge
    raises [KeyError].  [get_children_auxiliary_domains] is the merge for
    the attribute names of [dict_attribute_names]. *)
Theorem auxiliary_domains_of_the_last_child :
  forall (X : Type) (has_attribute : string -> bool) (children : list (Symbol X)),
    ((forall child level,
         In child children -> In level (Dict.keys (Node.auxiliary_domains child)) ->
         has_attribute level = false) ->
     exists aux,
       Concatenation.get_children_auxiliary_domains_with has_attribute children = Ok aux /\
       forall level, sget aux level = last_value level children) /\
    ((exists child level,
         In child children /\ In level (Dict.keys (Node.auxiliary_domains child)) /\
         has_attribute level = true) ->
     Concatenation.get_children_auxiliary_domains_with has_attribute children
     = Raise KeyError) /\
    Concatenation.get_children_auxiliary_domains children
    = Concatenation.get_children_auxiliary_domains_with hasattr_dict children.
Proof.
  intros X has_attribute children. split; [|split; [|reflexivity]].
  - intros Hplain. unfold Concatenation.get_children_auxiliary_domains_with.
    assert (Hloop : forall aux0 : sdict (list string),
      exists aux,
        for_each (fun aux_domains child =>
                    for_each (Concatenation.merge_level_with has_attribute
                                (Node.auxiliary_domains child))
                             (Dict.keys (Node.auxiliary_domains child)) aux_domains)
                 children aux0 = Ok aux /\
        forall level,
          sget aux level = match last_value level children with
                           | Some v => Some v
                           | None => sget aux0 level
                           end).
    { induction children as [|child children IH]; intros aux0.
      - exists aux0. split; [reflexivity|]. intros level. reflexivity.
      - destruct (merge_levels has_attribute (Node.auxiliary_domains child)
                    (Dict.keys (Node.auxiliary_domains child)) aux0) as (aux1 & Hinner & Haux1).
        { intros level Hlevel. split; [apply (Hplain child level (or_introl eq_refl) Hlevel)|].
          apply sget_keys, Hlevel. }
        assert (Hplain' : forall c level,
                   In c children -> In level (Dict.keys (Node.auxiliary_domains c)) ->
                   has_attribute level = false).
        { intros c level Hc Hlevel. apply (Hplain c level); [right|]; assumption. }
        destruct (IH Hplain' aux1) as (aux & Hrest & Haux).
        exists aux. cbn [for_each]. rewrite Hinner. cbn [bind]. split; [exact Hrest|].
        intros level. rewrite Haux. cbn [last_value].
        destruct (last_value level children); [reflexivity|]. rewrite Haux1.
        destruct (in_dec string_dec level (Dict.keys (Node.auxiliary_domains child)))
          as [Hin|Hout].
        + destruct (sget (Node.auxiliary_domains child) level) eqn:Hget; [reflexivity|].
          exfalso. apply sget_keys in Hin. congruence.
        + destruct (sget (Node.auxiliary_domains child) level) eqn:Hget; [|reflexivity].
          exfalso. apply Hout, sget_keys. congruence. }
    destruct (Hloop (Dict.empty string (list string))) as (aux & Hok & Haux).
    exists aux. split; [exact Hok|]. intros level. rewrite Haux.
    destruct (last_value level children); reflexivity.
  - intros (child & level & Hchild & Hlevel & Hattr).
    unfold Concatenation.get_children_auxiliary_domains_with.
    assert (Hinv :
      match for_each (fun aux_domains child =>
                        for_each (Concatenation.merge_level_with has_attribute
                                    (Node.auxiliary_domains child))
                                 (Dict.keys (Node.auxiliary_domains child)) aux_domains)
                     children (Dict.empty string (list string)) with
      | Ok aux => forall l, sget aux l <> None -> has_attribute l = false
      | Raise e => e = KeyError
      end).
    { apply (for_each_invariant
               (fun aux : sdict (list string) =>
                  forall l, sget aux l <> None -> has_attribute l = false)
               (fun e => e = KeyError)).
      - intros aux c _ Haux.
        apply (for_each_invariant
                 (fun aux : sdict (list string) =>
                    forall l, sget aux l <> None -> has_attribute l = false)
                 (fun e => e = KeyError)); [|exact Haux].
        intros aux' l _ Haux'.
        pose proof (merge_level_with_keeps has_attribute (Node.auxiliary_domains c) aux' l Haux')
          as Hstep.
        destruct (Concatenation.merge_level_with has_attribute (Node.auxiliary_domains c) aux' l);
          [exact (proj1 Hstep) | exact Hstep].
      - intros l Hl. exfalso. apply Hl. reflexivity. }
    destruct (for_each (fun aux_domains child =>
                          for_each (Concatenation.merge_level_with has_attribute
                                      (Node.auxiliary_domains child))
                                   (Dict.keys (Node.auxiliary_domains child)) aux_domains)
                       children (Dict.empty string (list string))) as [aux|e] eqn:Hres;
      [|rewrite Hinv; reflexivity].
    exfalso.
    apply (for_each_ok_steps
             (fun aux : sdict (list string) =>
                forall l, sget aux l <> None -> has_attribute l = false)
             (fun c : Symbol X =>
                Forall (fun l => has_attribute l = false)
                       (Dict.keys (Node.auxiliary_domains c))))
      in Hres.
    + destruct Hres as [_ Hall]. rewrite Forall_forall in Hall.
      specialize (Hall child Hchild). rewrite Forall_forall in Hall.
      specialize (Hall level Hlevel). congruence.
    + intros st c st' Hst Hinner.
      apply (for_each_ok_steps
               (fun aux : sdict (list string) =>
                  forall l, sget aux l <> None -> has_attribute l = false)
               (fun l => has_attribute l = false)) in Hinner;
        [exact Hinner | | exact Hst].
      intros st0 l st1 Hst0 Hstep.
      pose proof (merge_level_with_keeps has_attribute (Node.auxiliary_domains c) st0 l Hst0)
        as Hkeeps.
      rewrite Hstep in Hkeeps. exact Hkeeps.
    + intros l Hl. exfalso. apply Hl. reflexivity.
Qed.

(** An instance, with the attribute names of a later interpreter added to
    the table: the second child's value of "secondary" is the merged one. *)
Lemma auxiliary_domains_of_the_last_child_witness :
  exists aux,
    Concatenation.get_children_auxiliary_domains_with
      (fun level => String.eqb level "__getstate__" || hasattr_dict level)
      [aux_child 1 "negative electrode" ["current collector"%string];
       aux_child 2 "separator" ["particle"%string]] = Ok aux /\
    forall level,
      sget aux level
      = last_value level [aux_child 1 "negative electrode" ["current collector"%string];
                          aux_child 2 "separator" ["particle"%string]].
Proof.
  apply (proj1 (auxiliary_domains_of_the_last_child Z
                  (fun level => String.eqb level "__getstate__" || hasattr_dict level)
                  [aux_child 1 "negative electrode" ["current collector"%string];
                   aux_child 2 "separator" ["particle"%string]])).
  intros child level [<-|[<-|[]]] [<-|[]]; reflexivity.
Defined.

(** ** The domain of a [DomainConcatenation] *)

Lemma get_children_domains_ok {X : Type} (children : list (Symbol X)) :
  forall seen d,
    for_each (fun domain child =>
                if Concatenation.isdisjoint domain (Node.domain child)
                then Ok (domain ++ Node.domain child) else Raise DomainError)
             children seen = Ok d ->
    d = seen ++ concat (map Node.domain children).
Proof.
  induction children as [|child children IH]; intros seen d Hloop; cbn [for_each] in Hloop.
  - injection Hloop as <-. cbn. rewrite app_nil_r. reflexivity.
  - apply bind_ok in Hloop. destruct Hloop as (d1 & Hstep & Hloop).
    destruct (Concatenation.isdisjoint seen (Node.domain child)); [|discriminate].
    injection Hstep as <-. rewrite (IH _ _ Hloop). cbn [map concat]. rewrite app_assoc.
    reflexivity.
Qed.

Lemma list_index_nth (x : string) (l : list string) : forall i,
  list_index x l = Ok i -> nth_error l i = Some x.
Proof.
  induction l as [|y l IH]; intros i H; cbn [list_index] in H; [discriminate|].
  destruct (String.eqb_spec x y) as [->|Hne].
  - injection H as <-. reflexivity.
  - apply bind_ok in H. destruct H as (j & Hj & H). injection H as <-. apply IH, Hj.
Qed.

Lemma domain_dict_entries (mesh : Mesh) (domain : list string) :
  forall acc dd : sdict nat,
    for_each (fun dd d => i <- list_index d (domain_order mesh) ;; Ok (sset dd d i))
             domain acc = Ok dd ->
    (forall d i, sget acc d = Some i -> list_index d (domain_order mesh) = Ok i) ->
    (forall d i, sget dd d = Some i -> list_index d (domain_order mesh) = Ok i) /\
    (forall d, In d (Dict.keys dd) <-> In d (Dict.keys acc) \/ In d domain).
Proof.
  induction domain as [|d0 domain IH]; intros acc dd Hloop Hacc; cbn [for_each] in Hloop.
  - injection Hloop as <-. split; [exact Hacc|]. intros d. cbn [In]. tauto.
  - apply bind_ok in Hloop. destruct Hloop as (acc1 & Hstep & Hloop).
    apply bind_ok in Hstep. destruct Hstep as (i0 & Hi0 & Hstep). injection Hstep as <-.
    destruct (IH _ _ Hloop) as [Hvalues Hkeys].
    { intros d i. rewrite sget_sset. destruct (String.eqb_spec d d0) as [->|Hne].
      - intros H. injection H as <-. exact Hi0.
      - apply Hacc. }
    split; [exact Hvalues|]. intros d. rewrite Hkeys.
    unfold sset. rewrite (dict_keys_set string nat String.eqb).
    destruct (Dict.get String.eqb acc d0) eqn:Hget.
    + assert (Hin : In d0 (Dict.keys acc)).
      { apply sget_keys. unfold sget. congruence. }
      cbn [In]. split; [tauto|]. intros [H|[<-|H]]; tauto.
    + rewrite in_app_iff. cbn [In]. tauto.
Qed.

Lemma insert_sorted_sorted (key : string -> nat) (x : string) (l : list string) :
  StronglySorted (fun a b => (key a <= key b)%nat) l ->
  StronglySorted (fun a b => (key a <= key b)%nat) (insert_sorted key x l).
Proof.
  induction 1 as [|y l Hl IH Hy]; cbn [insert_sorted].
  - constructor; constructor.
  - destruct (Nat.leb_spec (key y) (key x)) as [Hle|Hgt].
    + constructor; [exact IH|].
      apply (Permutation_Forall (Permutation_sym (insert_sorted_perm key x l))).
      constructor; assumption.
    + constructor; [constructor; assumption|].
      constructor; [lia|]. eapply Forall_impl; [|exact Hy]. intros a Ha. cbn beta in Ha. lia.
Qed.

Lemma sorted_sorted (key : string -> nat) (l : list string) :
  StronglySorted (fun a b => (key a <= key b)%nat) (sorted key l).
Proof.
  unfold sorted.
  assert (H : forall acc, StronglySorted (fun a b => (key a <= key b)%nat) acc ->
                          StronglySorted (fun a b => (key a <= key b)%nat)
                            (fold_left (fun acc x => insert_sorted key x acc) l acc)).
  { induction l as [|x l IH]; intros acc Hacc; [exact Hacc|].
    cbn [fold_left]. apply IH, insert_sorted_sorted, Hacc. }
  apply H. constructor.
Qed.

Lemma strongly_sorted_strict (R R' : string -> string -> Prop) (l : list string) :
  StronglySorted R l -> NoDup l ->
  (forall a b, In a l -> In b l -> a <> b -> R a b -> R' a b) ->
  StronglySorted R' l.
Proof.
  induction 1 as [|a l Hl IH Ha]; intros Hnd Himp; [constructor|].
  inversion Hnd as [|? ? Hnotin Hnd']; subst. constructor.
  - apply IH; [exact Hnd'|]. intros x y Hx Hy. apply Himp; right; assumption.
  - rewrite Forall_forall in *. intros b Hb. apply Himp; [left; reflexivity | right; exact Hb | |].
    + intros ->. contradiction.
    + apply Ha, Hb.
Qed.

(** The domain of a DomainConcatenation, constructed or copied, against
    the domains of the children and the canonical order of the mesh. *)
Lemma init_domain_canonical :
  forall (X : Type) (children : list (Symbol X)) (mesh : Mesh)
         (copy_this : option (DomainConcatenation.t X)) (dc : DomainConcatenation.t X),
    DomainConcatenation.__init__ children mesh copy_this = Ok dc ->
    (forall d, In d (DomainConcatenation.domain dc) <->
               exists child, In child children /\ In d (Node.domain child)) /\
    NoDup (DomainConcatenation.domain dc) /\
    Forall (fun d => In d (domain_order mesh)) (DomainConcatenation.domain dc) /\
    StronglySorted (fun a b => (position (domain_order mesh) a
                                < position (domain_order mesh) b)%nat)
                   (DomainConcatenation.domain dc).
Proof.
  intros X children mesh copy_this dc Hinit. unfold DomainConcatenation.__init__ in Hinit.
  apply bind_ok in Hinit. destruct Hinit as ([domain0 aux] & Hbase & Hinit).
  apply bind_ok in Hinit. destruct Hinit as (dd & Hdd & Hinit).
  unfold Concatenation.__init__ in Hbase.
  apply bind_ok in Hbase. destruct Hbase as (domain1 & Hdomains & Hbase).
  apply bind_ok in Hbase. destruct Hbase as (aux1 & _ & Hbase). injection Hbase as -> ->.
  apply get_children_domains_ok in Hdomains. cbn [app] in Hdomains.
  pose proof (domain_dict_keys_NoDup _ _ _ Hdd) as Hnd_keys.
  destruct (domain_dict_entries mesh domain0 _ _ Hdd) as [Hvalues Hkeys];
    [intros d i H; discriminate H|].
  set (key := DomainConcatenation.domain_dict_getitem dd) in *.
  pose proof (sorted_perm key (Dict.keys dd)) as Hperm.
  assert (Hdomain : DomainConcatenation.domain dc = sorted key (Dict.keys dd)).
  { destruct copy_this as [c|].
    - injection Hinit as <-. reflexivity.
    - destruct (sorted key (Dict.keys dd)) as [|dom0 doms']; [discriminate|].
      apply bind_ok in Hinit. destruct Hinit as (? & _ & Hinit).
      apply bind_ok in Hinit. destruct Hinit as (? & _ & Hinit).
      apply bind_ok in Hinit. destruct Hinit as (? & _ & Hinit).
      apply bind_ok in Hinit. destruct Hinit as (? & _ & Hinit).
      apply bind_ok in Hinit. destruct Hinit as (? & _ & Hinit).
      injection Hinit as <-. reflexivity. }
  rewrite Hdomain.
  assert (Hmem : forall d, In d (sorted key (Dict.keys dd)) <-> In d domain0).
  { intros d. split.
    - intros H. apply (Permutation_in _ Hperm) in H. apply Hkeys in H.
      destruct H as [[]|H]. exact H.
    - intros H. apply (Permutation_in _ (Permutation_sym Hperm)). apply Hkeys. right. exact H. }
  assert (Hindex : forall d, In d (sorted key (Dict.keys dd)) ->
                             list_index d (domain_order mesh) = Ok (key d)).
  { intros d Hd. apply (Permutation_in _ Hperm) in Hd. apply sget_keys in Hd.
    unfold key, DomainConcatenation.domain_dict_getitem.
    destruct (sget dd d) as [i|] eqn:Hget; [|congruence]. apply Hvalues, Hget. }
  split; [|split; [|split]].
  - intros d. rewrite Hmem, Hdomains, in_concat. split.
    + intros (l & Hl & Hd). apply in_map_iff in Hl. destruct Hl as (child & <- & Hchild).
      exists child. split; assumption.
    + intros (child & Hchild & Hd). exists (Node.domain child). split; [|exact Hd].
      apply in_map. exact Hchild.
  - apply (Permutation_NoDup (Permutation_sym Hperm) Hnd_keys).
  - apply Forall_forall. intros d Hd. apply (nth_error_In _ (key d)).
    apply list_index_nth, Hindex, Hd.
  - apply (strongly_sorted_strict (fun a b => (key a <= key b)%nat)).
    + apply sorted_sorted.
    + apply (Permutation_NoDup (Permutation_sym Hperm) Hnd_keys).
    + intros a b Ha Hb Hne Hle. unfold position.
      rewrite (Hindex a Ha), (Hindex b Hb).
      destruct (Nat.eq_dec (key a) (key b)) as [Heq|]; [|lia].
      exfalso. apply Hne.
      pose proof (list_index_nth _ _ _ (Hindex a Ha)) as H1.
      pose proof (list_index_nth _ _ _ (Hindex b Hb)) as H2.
      rewrite Heq in H1. congruence.
Qed.

(** X9.  The domain of a DomainConcatenation, constructed or copied: it
    holds exactly the domain names of the children, each once, all of them
    known to the mesh's canonical order, and it lists them in that order
    whatever the order of the children. *)
Theorem domain_follows_the_canonical_order :
  forall (X : Type) (children : list (Symbol X)) (mesh : Mesh)
         (copy_this : option (DomainConcatenation.t X)) (dc : DomainConcatenation.t X),
    DomainConcatenation.__init__ children mesh copy_this = Ok dc ->
    (forall d, In d (DomainConcatenation.domain dc) <->
               exists child, In child children /\ In d (Node.domain child)) /\
    NoDup (DomainConcatenation.domain dc) /\
    Forall (fun d => In d (domain_order mesh)) (DomainConcatenation.domain dc) /\
    StronglySorted (fun a b => (position (domain_order mesh) a
                                < position (domain_order mesh) b)%nat)
                   (DomainConcatenation.domain dc).
Proof.
  intros X children mesh copy_this dc Hinit.
  destruct (init_domain_canonical X children mesh copy_this dc Hinit)
    as (Hmembers & Hdistinct & Hknown & Hsorted).
  split; [exact Hmembers|]. split; [exact Hdistinct|]. split; [exact Hknown | exact Hsorted].
Qed.

(** An instance: the children given as B then A over [mesh_A2_B3]. *)
Lemma domain_follows_the_canonical_order_witness :
  exists dc,
    dc_of children_swapped mesh_A2_B3 = Ok dc /\
    StronglySorted (fun a b => (position ["A"%string; "B"%string] a
                                < position ["A"%string; "B"%string] b)%nat)
                   (DomainConcatenation.domain dc).
Proof.
  eexists. split; [reflexivity|].
  apply (proj2 (proj2 (proj2 (domain_follows_the_canonical_order Z children_swapped
                                 mesh_A2_B3 None _ eq_refl)))).
Defined.

(** ** When [create_slices] succeeds *)

Lemma for_each_total {S X : Type} (body : S -> X -> result S) (xs : list X) :
  (forall st x, In x xs -> exists st', body st x = Ok st') ->
  forall st, exists st', for_each body xs st = Ok st'.
Proof.
  induction xs as [|x xs IH]; intros Hbody st; cbn [for_each].
  - exists st. reflexivity.
  - destruct (Hbody st x (or_introl eq_refl)) as [st1 ->]. cbn [bind].
    apply IH. intros st0 x0 Hx0. apply Hbody. right. exact Hx0.
Qed.

Lemma create_slices_step_succeeds (mesh : Mesh) (i : nat) (st : DomainConcatenation.cursor)
    (dom : string) :
  (exists st', DomainConcatenation.create_slices_step mesh i st dom = Ok st') <->
  exists submesh_list,
    sget (submeshes mesh) dom = Some submesh_list /\ (i < length submesh_list)%nat.
Proof.
  destruct st as [[a b] sl].
  unfold DomainConcatenation.create_slices_step, sgetitem, Dict.getitem, getitem.
  fold (sget (submeshes mesh) dom).
  destruct (sget (submeshes mesh) dom) as [submesh_list|]; cbn [bind].
  - destruct (nth_error submesh_list i) as [npts|] eqn:Hnth; cbn [bind].
    + split; [|intros _; eexists; reflexivity]. intros _. exists submesh_list.
      split; [reflexivity|]. apply nth_error_Some. congruence.
    + split; [intros [st' H]; discriminate H|]. intros (l & Hl & Hi). injection Hl as <-.
      apply nth_error_None in Hnth. lia.
  - split; [intros [st' H]; discriminate H | intros (l & Hl & _); discriminate Hl].
Qed.

Lemma create_slices_step_errors (mesh : Mesh) (i : nat) (st : DomainConcatenation.cursor)
    (dom : string) :
  match DomainConcatenation.create_slices_step mesh i st dom with
  | Ok _ => True
  | Raise e => e = KeyError \/ e = IndexError
  end.
Proof.
  destruct st as [[a b] sl].
  unfold DomainConcatenation.create_slices_step, sgetitem, Dict.getitem, getitem.
  destruct (Dict.get String.eqb (submeshes mesh) dom) as [submesh_list|]; cbn [bind];
    [|left; reflexivity].
  destruct (nth_error submesh_list i); cbn [bind]; [exact I | right; reflexivity].
Qed.

Lemma create_slices_cons (mesh : Mesh) (n : nat) (dom0 : string) (rest : list string) :
  DomainConcatenation.create_slices mesh n (dom0 :: rest)
  = match sget (submeshes mesh) dom0 with
    | None => Raise KeyError
    | Some submesh_list =>
        if (length submesh_list =? n)%nat
        then st <- for_each (fun st i =>
                               for_each (DomainConcatenation.create_slices_step mesh i)
                                        (dom0 :: rest) st)
                            (seq 0 n) (0, 0, Dict.empty string (list slice)) ;;
             Ok (snd st)
        else Raise ValueError
    end.
Proof.
  unfold DomainConcatenation.create_slices, sgetitem, Dict.getitem, sget. cbn [first_item bind].
  destruct (Dict.get String.eqb (submeshes mesh) dom0) as [submesh_list|]; cbn [bind];
    [|reflexivity].
  destruct (Nat.eqb_spec (length submesh_list) n) as [->|]; reflexivity.
Qed.

(** X10.  What [create_slices] asks of the mesh.  It succeeds exactly when
    the node has a domain, the mesh knows the first domain with exactly
    [secondary_dimensions_npts] submeshes and, if that number is not zero,
    knows every domain of the node with at least that many; only the first
    domain's count is compared.  It raises [ValueError] exactly when the
    first domain is known with a different count. *)
Theorem create_slices_needs_of_the_mesh :
  forall (mesh : Mesh) (secondary_dimensions_npts : nat) (node_domain : list string),
    ((exists slices,
         DomainConcatenation.create_slices mesh secondary_dimensions_npts node_domain
         = Ok slices) <->
     (exists dom0 rest submesh_list,
         node_domain = dom0 :: rest /\
         sget (submeshes mesh) dom0 = Some submesh_list /\
         length submesh_list = secondary_dimensions_npts /\
         (secondary_dimensions_npts = 0%nat \/
          forall d, In d node_domain ->
                    exists l, sget (submeshes mesh) d = Some l /\
                              (secondary_dimensions_npts <= length l)%nat))) /\
    (DomainConcatenation.create_slices mesh secondary_dimensions_npts node_domain
     = Raise ValueError <->
     (exists dom0 rest submesh_list,
         node_domain = dom0 :: rest /\
         sget (submeshes mesh) dom0 = Some submesh_list /\
         length submesh_list <> secondary_dimensions_npts)).
Proof.
  intros mesh n doms.
  destruct doms as [|dom0 rest].
  { unfold DomainConcatenation.create_slices. cbn [first_item bind]. split; split.
    - intros [sl H]. discriminate H.
    - intros (d & r & l & H & _). discriminate H.
    - intros H. discriminate H.
    - intros (d & r & l & H & _). discriminate H. }
  rewrite create_slices_cons.
  destruct (sget (submeshes mesh) dom0) as [submesh_list|] eqn:Hdom0.
  2:{ split; split.
      - intros [sl H]. discriminate H.
      - intros (d & r & l & H & Hl & _). injection H as <- <-. congruence.
      - intros H. discriminate H.
      - intros (d & r & l & H & Hl & _). injection H as <- <-. congruence. }
  destruct (Nat.eqb_spec (length submesh_list) n) as [Hn|Hn].
  2:{ split; split.
      - intros [sl H]. discriminate H.
      - intros (d & r & l & H & Hl & Hlen & _). injection H as <- <-. congruence.
      - intros _. exists dom0, rest, submesh_list. repeat split; assumption.
      - reflexivity. }
  set (doms := dom0 :: rest) in *.
  set (outer := fun (st : DomainConcatenation.cursor) (i : nat) =>
                  for_each (DomainConcatenation.create_slices_step mesh i) doms st).
  split; split.
  - intros [sl Hok]. exists dom0, rest, submesh_list.
    split; [reflexivity|]. split; [exact Hdom0|]. split; [exact Hn|].
    apply bind_ok in Hok. destruct Hok as (st & Hloop & _).
    destruct n as [|m]; [left; reflexivity|]. right. intros d Hd.
    apply (for_each_ok_steps (fun _ => True)
             (fun i => Forall (fun d => exists l, sget (submeshes mesh) d = Some l /\
                                                  (i < length l)%nat) doms)) in Hloop;
      [| |exact I].
    + destruct Hloop as [_ Hall]. rewrite Forall_forall in Hall.
      specialize (Hall m ltac:(apply in_seq; lia)). rewrite Forall_forall in Hall.
      destruct (Hall d Hd) as (l & Hl & Hm). exists l. split; [exact Hl | lia].
    + intros st0 i st1 _ Hrow. split; [exact I|].
      apply (for_each_ok_steps (fun _ => True)
               (fun d => exists l, sget (submeshes mesh) d = Some l /\ (i < length l)%nat))
        in Hrow; [apply Hrow | | exact I].
      intros st2 d0 st3 _ Hstep. split; [exact I|].
      apply (create_slices_step_succeeds mesh i st2 d0). exists st3. exact Hstep.
  - intros (d0 & r & l0 & Heq & Hl0 & Hlen & Hall).
    destruct (for_each_total outer (seq 0 n)) with (st := (0, 0, Dict.empty string (list slice)))
      as [st Hst].
    + intros st i Hi. apply in_seq in Hi. unfold outer.
      apply for_each_total. intros st0 d Hd.
      apply create_slices_step_succeeds.
      destruct Hall as [->|Hall]; [lia|].
      destruct (Hall d Hd) as (l & Hl & Hle). exists l. split; [exact Hl | lia].
    + rewrite Hst. cbn [bind]. eexists. reflexivity.
  - intros Herr. exfalso.
    assert (Hcases :
      match for_each outer (seq 0 n) (0, 0, Dict.empty string (list slice)) with
      | Ok _ => True
      | Raise e => e = KeyError \/ e = IndexError
      end).
    { apply (for_each_invariant (fun _ => True) (fun e => e = KeyError \/ e = IndexError));
        [|exact I].
      intros st i _ _. unfold outer.
      apply (for_each_invariant (fun _ => True) (fun e => e = KeyError \/ e = IndexError));
        [|exact I].
      intros st0 d _ _. apply create_slices_step_errors. }
    destruct (for_each outer (seq 0 n) (0, 0, Dict.empty string (list slice))) as [st|e];
      [discriminate Herr|].
    cbn [bind] in Herr. injection Herr as ->. destruct Hcases; discriminate.
  - intros (d0 & r & l0 & Heq & Hl0 & Hlen). exfalso.
    injection Heq as <- <-. rewrite Hdom0 in Hl0. injection Hl0 as <-. congruence.
Qed.

(** An instance: the two domains of [mesh_two_by_two]. *)
Lemma create_slices_needs_of_the_mesh_witness :
  exists slices,
    DomainConcatenation.create_slices mesh_two_by_two 2 ["A"%string; "B"%string] = Ok slices.
Proof.
  apply (proj2 (proj1 (create_slices_needs_of_the_mesh mesh_two_by_two 2
                         ["A"%string; "B"%string]))).
  exists "A"%string, ["B"%string], [2%nat; 2%nat].
  split; [reflexivity|]. split; [reflexivity|]. split; [reflexivity|]. right.
  intros d [<-|[<-|[]]]; eexists; (split; [reflexivity | simpl; lia]).
Defined.

(** ** Copies of a [DomainConcatenation] *)

Lemma new_copy_fields {X : Type} (self : DomainConcatenation.t X) (children : list (Symbol X))
    (copy : DomainConcatenation.t X) :
  DomainConcatenation._concatenation_new_copy self children = Ok copy ->
  DomainConcatenation.children copy = children /\
  DomainConcatenation.mesh copy = DomainConcatenation.mesh self /\
  DomainConcatenation.secondary_dimensions_npts copy
  = DomainConcatenation.secondary_dimensions_npts self /\
  DomainConcatenation.slices copy = DomainConcatenation.slices self /\
  DomainConcatenation.size copy = DomainConcatenation.size self /\
  DomainConcatenation.children_slices copy = DomainConcatenation.children_slices self.
Proof.
  intros Hcopy. unfold DomainConcatenation._concatenation_new_copy,
    DomainConcatenation.__init__ in Hcopy.
  apply bind_ok in Hcopy. destruct Hcopy as ([domain0 aux] & _ & Hcopy).
  apply bind_ok in Hcopy. destruct Hcopy as (dd & _ & Hcopy).
  injection Hcopy as <-. repeat split; reflexivity.
Qed.

Lemma evaluate_reads_the_layout {X : Type} (a b : DomainConcatenation.t X) :
  DomainConcatenation.slices a = DomainConcatenation.slices b ->
  DomainConcatenation.size a = DomainConcatenation.size b ->
  DomainConcatenation.children_slices a = DomainConcatenation.children_slices b ->
  forall children_eval,
    DomainConcatenation._concatenation_evaluate a children_eval
    = DomainConcatenation._concatenation_evaluate b children_eval.
Proof.
  intros Hslices Hsize Hchildren children_eval.
  unfold DomainConcatenation._concatenation_evaluate, DomainConcatenation.scatter.
  rewrite Hslices, Hsize, Hchildren. reflexivity.
Qed.

(** X11.  Copies keep the layout.  The node that [_concatenation_new_copy]
    builds over new children, and the copy with cleared domain that
    [_concatenation_simplify] falls back to, carry the mesh, slices, size
    and children slices of the original, so they combine the values of
    their children exactly as the original does; and copying a constructed
    node over its own children returns the node itself. *)
Theorem copies_keep_the_layout :
  forall (X : Type) (self : DomainConcatenation.t X) (children : list (Symbol X)),
    (forall copy,
        DomainConcatenation._concatenation_new_copy self children = Ok copy ->
        DomainConcatenation.children copy = children /\
        forall children_eval,
          DomainConcatenation._concatenation_evaluate copy children_eval
          = DomainConcatenation._concatenation_evaluate self children_eval) /\
    (forall copy,
        DomainConcatenation.simplified_copy self children
        = Ok (DomainConcatenation.ToDomainConcatenation copy) ->
        DomainConcatenation.domain copy = [] /\
        DomainConcatenation.children copy = children /\
        forall children_eval,
          DomainConcatenation._concatenation_evaluate copy children_eval
          = DomainConcatenation._concatenation_evaluate self children_eval) /\
    (forall mesh,
        DomainConcatenation.__init__ children mesh None = Ok self ->
        DomainConcatenation._concatenation_new_copy self children = Ok self).
Proof.
  intros X self children. split; [|split].
  - intros copy Hcopy.
    destruct (new_copy_fields _ _ _ Hcopy) as (Hc & _ & _ & Hslices & Hsize & Hcs).
    split; [exact Hc|]. apply evaluate_reads_the_layout; assumption.
  - intros copy Hcopy. unfold DomainConcatenation.simplified_copy in Hcopy.
    apply bind_ok in Hcopy. destruct Hcopy as (new_symbol & Hnew & Hcopy).
    destruct (new_copy_fields self children new_symbol Hnew)
      as (Hc & _ & _ & Hslices & Hsize & Hcs).
    injection Hcopy as <-. cbn [DomainConcatenation.domain DomainConcatenation.children].
    split; [reflexivity|]. split; [exact Hc|].
    apply evaluate_reads_the_layout; assumption.
  - intros mesh Hinit. unfold DomainConcatenation._concatenation_new_copy.
    unfold DomainConcatenation.__init__ in Hinit |- *.
    apply bind_ok in Hinit. destruct Hinit as ([domain0 aux] & Hbase & Hinit).
    rewrite Hbase. cbn [bind].
    apply bind_ok in Hinit. destruct Hinit as (dd & Hdd & Hinit).
    destruct (sorted (DomainConcatenation.domain_dict_getitem dd) (Dict.keys dd))
      as [|dom0 doms'] eqn:Hsorted; [discriminate|].
    apply bind_ok in Hinit. destruct Hinit as (submesh_list & _ & Hinit).
    apply bind_ok in Hinit. destruct Hinit as (sl & _ & Hinit).
    apply bind_ok in Hinit. destruct Hinit as (last_dom & _ & Hinit).
    apply bind_ok in Hinit. destruct Hinit as (last_slice & _ & Hinit).
    apply bind_ok in Hinit. destruct Hinit as (children_slices & _ & Hinit).
    injection Hinit as <-. cbn [DomainConcatenation.mesh]. rewrite Hdd. cbn [bind].
    rewrite Hsorted. reflexivity.
Qed.

(** An instance: the copy of the concatenation over [mesh_A2_B3]. *)
Lemma copies_keep_the_layout_witness :
  DomainConcatenation._concatenation_new_copy dc_A2_B3
    [constant_child 1 "A" [1; 2]; constant_child 2 "B" [3; 4; 5]] = Ok dc_A2_B3.
Proof.
  apply (proj2 (proj2 (copies_keep_the_layout Z dc_A2_B3
                         [constant_child 1 "A" [1; 2]; constant_child 2 "B" [3; 4; 5]]))
               mesh_A2_B3).
  reflexivity.
Defined.

(** ** How the construction of a [DomainConcatenation] fails *)

Lemma list_index_cases (x : string) (l : list string) :
  (In x l -> exists i, list_index x l = Ok i) /\
  (~ In x l -> list_index x l = Raise ValueError).
Proof.
  induction l as [|y l [IHin IHout]]; cbn [list_index In].
  - split; [intros [] | reflexivity].
  - destruct (String.eqb_spec x y) as [->|Hne].
    + split; [intros _; exists 0%nat; reflexivity | intros H; exfalso; apply H; left; reflexivity].
    + split.
      * intros [Heq|Hin]; [congruence|]. destruct (IHin Hin) as [i ->]. eexists. reflexivity.
      * intros Hout. rewrite IHout; [reflexivity|]. intros Hin. apply Hout. right. exact Hin.
Qed.

Lemma domain_dict_unknown (mesh : Mesh) (domain : list string) (d : string) :
  In d domain -> ~ In d (domain_order mesh) ->
  DomainConcatenation.domain_dict mesh domain = Raise ValueError.
Proof.
  intros Hd Hunknown. unfold DomainConcatenation.domain_dict.
  assert (Hcases :
    match for_each (fun dd d => i <- list_index d (domain_order mesh) ;; Ok (sset dd d i))
                   domain (Dict.empty string nat) with
    | Ok _ => True
    | Raise e => e = ValueError
    end).
  { apply (for_each_invariant (fun _ => True) (fun e => e = ValueError)); [|exact I].
    intros st x _ _. destruct (in_dec string_dec x (domain_order mesh)) as [Hin|Hout].
    - destruct (proj1 (list_index_cases x (domain_order mesh)) Hin) as [i ->]. exact I.
    - rewrite (proj2 (list_index_cases x (domain_order mesh)) Hout). reflexivity. }
  destruct (for_each (fun dd d => i <- list_index d (domain_order mesh) ;; Ok (sset dd d i))
                     domain (Dict.empty string nat)) as [dd|e] eqn:Hloop;
    [|rewrite Hcases; reflexivity].
  exfalso.
  apply (for_each_ok_steps (fun _ => True) (fun x => In x (domain_order mesh))) in Hloop;
    [| |exact I].
  - destruct Hloop as [_ Hall]. rewrite Forall_forall in Hall. exact (Hunknown (Hall d Hd)).
  - intros st x st' _ Hstep. split; [exact I|].
    apply bind_ok in Hstep. destruct Hstep as (i & Hi & _).
    apply (nth_error_In _ i). apply list_index_nth, Hi.
Qed.

(** X12.  How the construction fails.  Children with a common domain name
    make it raise [DomainError], also when copying.  With pairwise disjoint
    domains and auxiliary domains that merge: a domain name that the mesh's
    canonical order does not list makes it raise [ValueError], also when
    copying; children without any domain (in particular no children) make
    the construction from a mesh raise [DomainError], while the copy
    construction accepts them and builds a node with an empty domain. *)
Theorem construction_failures :
  forall (X : Type) (children : list (Symbol X)) (mesh : Mesh)
         (copy_this : option (DomainConcatenation.t X)),
    let domains := map Node.domain children in
    let pairwise_disjoint :=
      forall i j di dj x, (i < j)%nat -> nth_error domains i = Some di ->
                          nth_error domains j = Some dj -> In x di -> ~ In x dj in
    (~ pairwise_disjoint ->
     DomainConcatenation.__init__ children mesh copy_this = Raise DomainError) /\
    (forall aux,
        pairwise_disjoint ->
        Concatenation.get_children_auxiliary_domains children = Ok aux ->
        ((exists child d, In child children /\ In d (Node.domain child) /\
                          ~ In d (domain_order mesh)) ->
         DomainConcatenation.__init__ children mesh copy_this = Raise ValueError) /\
        ((forall child, In child children -> Node.domain child = []) ->
         DomainConcatenation.__init__ children mesh None = Raise DomainError /\
         forall c, exists copy,
             DomainConcatenation.__init__ children mesh (Some c) = Ok copy /\
             DomainConcatenation.domain copy = [])).
Proof.
  intros X children mesh copy_this domains pairwise_disjoint.
  destruct (children_domains_merge_or_conflict_aux children) as [Hmerge Hconflict].
  fold domains in Hmerge, Hconflict. fold pairwise_disjoint in Hmerge, Hconflict.
  split.
  - intros Hnot. unfold DomainConcatenation.__init__, Concatenation.__init__.
    rewrite (Hconflict Hnot). reflexivity.
  - intros aux Hpair Haux. split.
    + intros (child & d & Hchild & Hd & Hunknown).
      unfold DomainConcatenation.__init__, Concatenation.__init__.
      rewrite (Hmerge Hpair), Haux. cbn [bind].
      rewrite (domain_dict_unknown mesh (concat domains) d); [reflexivity| |exact Hunknown].
      apply in_concat. exists (Node.domain child). split; [apply in_map, Hchild | exact Hd].
    + intros Hempty.
      assert (Hconcat : concat domains = []).
      { unfold domains. clear -Hempty. induction children as [|c children IH]; [reflexivity|].
        cbn [map concat]. rewrite (Hempty c (or_introl eq_refl)), IH; [reflexivity|].
        intros c' Hc'. apply Hempty. right. exact Hc'. }
      unfold DomainConcatenation.__init__, Concatenation.__init__.
      rewrite (Hmerge Hpair), Haux, Hconcat. cbn. split; [reflexivity|].
      intros c. eexists. split; reflexivity.
Qed.

(** An instance: two children on the domain A. *)
Lemma construction_failures_witness :
  DomainConcatenation.__init__
    [constant_child 1 "A" [1; 2]; constant_child 2 "A" [3; 4]] mesh_A2_B3 None
  = Raise DomainError.
Proof.
  apply (proj1 (construction_failures Z
                  [constant_child 1 "A" [1; 2]; constant_child 2 "A" [3; 4]] mesh_A2_B3 None)).
  intros Hpair.
  apply (Hpair 0%nat 1%nat ["A"%string] ["A"%string] "A"%string);
    [lia | reflexivity | reflexivity | left; reflexivity | left; reflexivity].
Defined.

(** ** [DomainConcatenation._concatenation_evaluate] *)

(** A loop each turn of which succeeds, keeps [P], moves the state along
    [G] and establishes [C] for its element, [C] being stable along [G]. *)
Lemma for_each_progress {S X : Type} (P : S -> Prop) (G : S -> S -> Prop)
    (C : X -> S -> Prop) (body : S -> X -> result S) (xs : list X) :
  (forall st, G st st) ->
  (forall a b c, G a b -> G b c -> G a c) ->
  (forall x a b, C x a -> G a b -> C x b) ->
  (forall x st, In x xs -> P st ->
                exists st', body st x = Ok st' /\ P st' /\ G st st' /\ C x st') ->
  forall st, P st ->
             exists st', for_each body xs st = Ok st' /\ P st' /\ G st st' /\
                         forall x, In x xs -> C x st'.
Proof.
  intros Grefl Gtrans Cstable. induction xs as [|x xs IH]; intros Hbody st Hst.
  - exists st. split; [reflexivity|]. split; [exact Hst|]. split; [apply Grefl|]. intros x [].
  - destruct (Hbody x st (or_introl eq_refl) Hst) as (st1 & Hstep & Hst1 & Hg1 & Hc1).
    destruct (IH (fun y st0 Hy => Hbody y st0 (or_intror Hy)) st1 Hst1)
      as (st' & Hloop & Hst' & Hg & Hc).
    exists st'. cbn [for_each]. rewrite Hstep. cbn [bind].
    split; [exact Hloop|]. split; [exact Hst'|]. split; [apply (Gtrans _ _ _ Hg1 Hg)|].
    intros y [<-|Hy]; [apply (Cstable _ _ _ Hc1 Hg) | apply Hc, Hy].
Qed.

(** [vector[t] = rhs] when the slice lies in the vector and [rhs] fits. *)
Lemma setslice_array_fits {X : Type} (vector : list (option X)) (t : slice) (rhs : list X) :
  0 <= start t -> stop t <= Z.of_nat (length vector) ->
  Z.of_nat (length rhs) = stop t - start t ->
  exists vector',
    setslice_array vector t rhs = Ok vector' /\
    length vector' = length vector /\
    forall p,
      nth_error vector' p
      = if (start t <=? Z.of_nat p) && (Z.of_nat p <? stop t)
        then option_map Some (nth_error rhs (p - Z.to_nat (start t)))
        else nth_error vector p.
Proof.
  intros Hstart Hstop Hrhs. unfold setslice_array, slice_bounds, clamp.
  destruct (Z.ltb_spec (start t) 0); [lia|]. destruct (Z.ltb_spec (stop t) 0); [lia|].
  rewrite !Z.min_l by lia.
  replace (Z.to_nat (stop t - start t)) with (length rhs) by lia.
  rewrite Nat.eqb_refl. eexists. split; [reflexivity|].
  set (a := Z.to_nat (start t)).
  assert (Ha : (a + length rhs <= length vector)%nat) by (unfold a; lia).
  split.
  - rewrite !length_app, length_map, length_firstn, length_skipn. lia.
  - intros p.
    destruct (Z.leb_spec (start t) (Z.of_nat p)); cbn [andb].
    + destruct (Z.ltb_spec (Z.of_nat p) (stop t)).
      * rewrite nth_error_app2 by (rewrite length_firstn; lia).
        rewrite length_firstn, Nat.min_l by lia.
        rewrite nth_error_app1 by (rewrite length_map; unfold a in *; lia).
        apply nth_error_map.
      * rewrite nth_error_app2 by (rewrite length_firstn; lia).
        rewrite length_firstn, Nat.min_l by lia.
        rewrite nth_error_app2 by (rewrite length_map; unfold a in *; lia).
        rewrite length_map, nth_error_skipn. f_equal. unfold a in *. lia.
    + rewrite nth_error_app1 by (rewrite length_firstn; unfold a in *; lia).
      rewrite nth_error_firstn. destruct (Nat.ltb_spec p a); [reflexivity|unfold a in *; lia].
Qed.

(** [v[s]] when the slice lies in the vector. *)
Lemma getslice_fits {X : Type} (v : list X) (s : slice) :
  0 <= start s -> start s <= stop s -> stop s <= Z.of_nat (length v) ->
  Z.of_nat (length (getslice v s)) = stop s - start s /\
  forall r, (Z.of_nat r < stop s - start s) ->
            nth_error (getslice v s) r = nth_error v (Z.to_nat (start s) + r).
Proof.
  intros Hstart Hwf Hstop. unfold getslice, slice_bounds, clamp.
  destruct (Z.ltb_spec (start s) 0); [lia|]. destruct (Z.ltb_spec (stop s) 0); [lia|].
  rewrite !Z.min_l by lia. split.
  - rewrite length_firstn, length_skipn. lia.
  - intros r Hr. rewrite nth_error_firstn.
    destruct (Nat.ltb_spec r (Z.to_nat (stop s - start s))); [|lia].
    apply nth_error_skipn.
Qed.

Lemma map_result_forall2 {A B : Type} (f : A -> result B) (xs : list A) : forall ys,
  map_result f xs = Ok ys -> Forall2 (fun x y => f x = Ok y) xs ys.
Proof.
  induction xs as [|x xs IH]; intros ys H; cbn [map_result] in H.
  - injection H as <-. constructor.
  - apply bind_ok in H. destruct H as (y & Hy & H).
    apply bind_ok in H. destruct H as (ys' & Hys & H). injection H as <-.
    constructor; [exact Hy | apply IH, Hys].
Qed.

Lemma forall2_nth_error_l {A B : Type} (R : A -> B -> Prop) (xs : list A) (ys : list B) :
  Forall2 R xs ys ->
  forall j x, nth_error xs j = Some x -> exists y, nth_error ys j = Some y /\ R x y.
Proof.
  induction 1 as [|x0 y0 xs ys Hxy _ IH]; intros [|j] x Hj; cbn [nth_error] in *;
    try discriminate.
  - injection Hj as <-. exists y0. split; [reflexivity | exact Hxy].
  - apply IH, Hj.
Qed.

Lemma forall2_nth_error_r {A B : Type} (R : A -> B -> Prop) (xs : list A) (ys : list B) :
  Forall2 R xs ys ->
  forall j y, nth_error ys j = Some y -> exists x, nth_error xs j = Some x /\ R x y.
Proof.
  induction 1 as [|x0 y0 xs ys Hxy _ IH]; intros [|j] y Hj; cbn [nth_error] in *;
    try discriminate.
  - injection Hj as <-. exists x0. split; [reflexivity | exact Hxy].
  - apply IH, Hj.
Qed.

Lemma in_combine_nth_error {A B : Type} (xs : list A) : forall (ys : list B) x y,
  In (x, y) (combine xs ys) <->
  exists j, nth_error xs j = Some x /\ nth_error ys j = Some y.
Proof.
  induction xs as [|x0 xs IH]; intros [|y0 ys] x y; cbn [combine In].
  - split; [intros [] | intros ([|j] & H & _); discriminate H].
  - split; [intros [] | intros ([|j] & H & _); discriminate H].
  - split; [intros [] | intros ([|j] & _ & H); discriminate H].
  - rewrite IH. split.
    + intros [H|(j & Hx & Hy)].
      * injection H as -> ->. exists 0%nat. split; reflexivity.
      * exists (S j). split; assumption.
    + intros ([|j] & Hx & Hy); cbn [nth_error] in Hx, Hy.
      * injection Hx as ->. injection Hy as ->. left. reflexivity.
      * right. exists j. split; assumption.
Qed.

(** [enumerate(l)] pairs each element with its position. *)
Lemma in_enumerate {A : Type} (l : list A) (i : nat) (x : A) :
  In (i, x) (combine (seq 0 (length l)) l) <-> nth_error l i = Some x.
Proof.
  rewrite in_combine_nth_error. split.
  - intros (j & Hi & Hx). rewrite nth_error_seq in Hi.
    destruct (j <? length l)%nat; [|discriminate]. injection Hi as <-. exact Hx.
  - intros Hx. exists i. split; [|exact Hx]. rewrite nth_error_seq.
    assert (Hlt : (i < length l)%nat) by (apply nth_error_Some; congruence).
    destruct (Nat.ltb_spec i (length l)); [reflexivity | lia].
Qed.

Lemma items_of_get {V : Type} (d : sdict V) (k : string) (v : V) :
  sget d k = Some v -> In (k, v) (Dict.items d).
Proof.
  unfold sget, Dict.items. induction d as [|[k1 v1] d IH]; cbn [Dict.get In]; [discriminate|].
  destruct (String.eqb_spec k k1) as [->|Hne].
  - intros H. injection H as ->. left. reflexivity.
  - intros H. right. apply IH, H.
Qed.

Lemma get_of_items {V : Type} (d : sdict V) (k : string) (v : V) :
  NoDup (Dict.keys d) -> In (k, v) (Dict.items d) -> sget d k = Some v.
Proof.
  unfold sget, Dict.items, Dict.keys.
  induction d as [|[k1 v1] d IH]; cbn [Dict.get In map fst]; intros Hnd Hin; [contradiction|].
  inversion Hnd as [|? ? Hnotin Hnd']; subst. destruct Hin as [Heq|Hin].
  - injection Heq as -> ->. rewrite String.eqb_refl. reflexivity.
  - destruct (String.eqb_spec k k1) as [->|Hne]; [|apply IH; assumption].
    exfalso. apply Hnotin. apply (in_map fst) in Hin. exact Hin.
Qed.

Lemma create_slices_keys_NoDup (mesh : Mesh) (n : nat) (doms : list string)
    (sl : sdict (list slice)) :
  DomainConcatenation.create_slices mesh n doms = Ok sl -> NoDup (Dict.keys sl).
Proof.
  intros Hcs. unfold DomainConcatenation.create_slices in Hcs.
  apply bind_ok in Hcs. destruct Hcs as (dom0 & _ & Hcs).
  apply bind_ok in Hcs. destruct Hcs as (submesh_list & _ & Hcs).
  destruct (negb (length submesh_list =? n)%nat); [discriminate|].
  apply bind_ok in Hcs. destruct Hcs as (st & Hloop & Hsl). injection Hsl as <-.
  assert (Hinv :
    match for_each (fun st i => for_each (DomainConcatenation.create_slices_step mesh i) doms st)
                   (seq 0 (length submesh_list)) (0, 0, Dict.empty string (list slice)) with
    | Ok st' => NoDup (Dict.keys (snd st'))
    | Raise _ => True
    end).
  { apply (for_each_invariant (fun st : DomainConcatenation.cursor => NoDup (Dict.keys (snd st)))
                              (fun _ => True)); [|constructor].
    intros st0 i _ Hst0.
    apply (for_each_invariant (fun st : DomainConcatenation.cursor => NoDup (Dict.keys (snd st)))
                              (fun _ => True)); [|exact Hst0].
    intros [[a b] sl0] d _ Hsl0. unfold DomainConcatenation.create_slices_step.
    destruct (sgetitem (submeshes mesh) d) as [submesh|]; cbn [bind]; [|exact I].
    destruct (getitem submesh i) as [npts|]; cbn [bind]; [|exact I].
    cbn [snd] in *. apply dict_keys_set_NoDup; [apply String.eqb_eq | exact Hsl0]. }
  rewrite Hloop in Hinv. exact Hinv.
Qed.

(** The slices of a node, as the items of the dictionary of [create_slices]. *)
Lemma create_slices_items (mesh : Mesh) (n : nat) (doms : list string)
    (sl : sdict (list slice)) :
  NoDup doms -> (0 < n)%nat ->
  DomainConcatenation.create_slices mesh n doms = Ok sl ->
  forall d lst,
    In (d, lst) (Dict.items sl) <->
    exists q, nth_error doms q = Some d /\ lst = expected_slices mesh doms q d n.
Proof.
  intros Hnd Hn Hcs d lst.
  destruct (create_slices_layout _ _ _ _ Hnd Hcs) as [Hlayout Hothers].
  pose proof (create_slices_keys_NoDup _ _ _ _ Hcs) as Hkeys. split.
  - intros Hin. apply (get_of_items _ _ _ Hkeys) in Hin.
    destruct (in_dec string_dec d doms) as [Hd|Hd].
    + apply In_nth_error in Hd. destruct Hd as [q Hq]. exists q. split; [exact Hq|].
      rewrite <- (Hlayout q d Hq). unfold defaultdict_get. rewrite Hin. reflexivity.
    + rewrite (Hothers d Hd) in Hin. discriminate.
  - intros (q & Hq & ->). apply items_of_get.
    pose proof (Hlayout q d Hq) as Hget. unfold defaultdict_get in Hget.
    destruct (sget sl d) as [l|]; [rewrite Hget; reflexivity|].
    destruct n; [lia|]. unfold expected_slices in Hget. cbn [seq map] in Hget. discriminate.
Qed.

Lemma rows_sum_nonneg (mesh : Mesh) (doms : list string) (i : nat) : 0 <= rows_sum mesh doms i.
Proof. apply (rows_sum_mono mesh doms 0 i). lia. Qed.

(** The slice of the [k]-th domain at index [i] lies in the rows below [n]. *)
Lemma slice_in_range (mesh : Mesh) (doms : list string) (n i k : nat) (d : string) :
  (i < n)%nat -> nth_error doms k = Some d ->
  0 <= offset mesh doms i k /\
  offset mesh doms i k + Z.of_nat (npts_at mesh d i) <= rows_sum mesh doms n.
Proof.
  intros Hi Hk. split.
  - pose proof (rows_sum_nonneg mesh doms i). pose proof (rows_sum_le_offset mesh doms i k). lia.
  - rewrite <- (offset_succ mesh _ i _ _ Hk).
    pose proof (offset_le_next_row mesh doms i (S k)).
    pose proof (rows_sum_mono mesh doms (S i) n). lia.
Qed.

(** Two positions of output slices coincide only in the same slice. *)
Lemma offsets_apart (mesh : Mesh) (doms : list string) (i k i' k' : nat) (d d' : string)
    (r r' : nat) :
  nth_error doms k = Some d -> nth_error doms k' = Some d' ->
  (r < npts_at mesh d i)%nat -> (r' < npts_at mesh d' i')%nat ->
  offset mesh doms i k + Z.of_nat r = offset mesh doms i' k' + Z.of_nat r' ->
  i = i' /\ k = k' /\ r = r'.
Proof.
  intros Hk Hk' Hr Hr' Heq.
  pose proof (offset_succ mesh _ i _ _ Hk) as Hs.
  pose proof (offset_succ mesh _ i' _ _ Hk') as Hs'.
  pose proof (offset_le_next_row mesh doms i (S k)) as Hrow.
  pose proof (offset_le_next_row mesh doms i' (S k')) as Hrow'.
  pose proof (rows_sum_le_offset mesh doms i k) as Hlow.
  pose proof (rows_sum_le_offset mesh doms i' k') as Hlow'.
  assert (Hi : i = i').
  { destruct (Nat.lt_trichotomy i i') as [Hlt|[Heqi|Hgt]]; [|exact Heqi|].
    - pose proof (rows_sum_mono mesh doms (S i) i'). lia.
    - pose proof (rows_sum_mono mesh doms (S i') i). lia. }
  subst i'. split; [reflexivity|].
  assert (Hkk : k = k').
  { destruct (Nat.lt_trichotomy k k') as [Hlt|[Heqk|Hgt]]; [|exact Heqk|].
    - pose proof (offset_mono mesh doms i (S k) k'). lia.
    - pose proof (offset_mono mesh doms i (S k') k). lia. }
  subst k'. split; [reflexivity|]. lia.
Qed.

(** Every position below the points of a row lies in the slice of a domain. *)
Lemma row_decompose (mesh : Mesh) (i : nat) (l : list string) : forall z,
  0 <= z < row_sum mesh i l ->
  exists k d r, nth_error l k = Some d /\ (r < npts_at mesh d i)%nat /\
                z = row_sum mesh i (firstn k l) + Z.of_nat r.
Proof.
  induction l as [|d l IH]; intros z Hz; cbn [row_sum] in Hz; [lia|].
  destruct (Z.lt_ge_cases z (Z.of_nat (npts_at mesh d i))) as [Hlt|Hge].
  - exists 0%nat, d, (Z.to_nat z). cbn [nth_error firstn row_sum].
    split; [reflexivity|]. split; lia.
  - destruct (IH (z - Z.of_nat (npts_at mesh d i))) as (k & d' & r & Hk & Hr & Heq); [lia|].
    exists (S k), d', r. cbn [nth_error firstn row_sum]. split; [exact Hk|]. split; [exact Hr|].
    lia.
Qed.

Lemma rows_decompose (mesh : Mesh) (doms : list string) (n : nat) : forall z,
  0 <= z < rows_sum mesh doms n ->
  exists i k d r, (i < n)%nat /\ nth_error doms k = Some d /\ (r < npts_at mesh d i)%nat /\
                  z = offset mesh doms i k + Z.of_nat r.
Proof.
  induction n as [|n IH]; intros z Hz; cbn [rows_sum] in Hz; [lia|].
  destruct (Z.lt_ge_cases z (rows_sum mesh doms n)) as [Hlt|Hge].
  - destruct (IH z) as (i & k & d & r & Hi & H); [lia|].
    exists i, k, d, r. split; [lia | exact H].
  - destruct (row_decompose mesh n doms (z - rows_sum mesh doms n))
      as (k & d & r & Hk & Hr & Heq); [lia|].
    exists n, k, d, r. split; [lia|]. split; [exact Hk|]. split; [exact Hr|].
    unfold offset. lia.
Qed.

Lemma get_children_domains_disjoint {X : Type} (children : list (Symbol X)) :
  forall seen d,
    for_each (fun domain child =>
                if Concatenation.isdisjoint domain (Node.domain child)
                then Ok (domain ++ Node.domain child) else Raise DomainError)
             children seen = Ok d ->
    domains_disjoint seen (map Node.domain children).
Proof.
  induction children as [|child children IH]; intros seen d Hloop;
    cbn [for_each map domains_disjoint] in *; [exact I|].
  apply bind_ok in Hloop. destruct Hloop as (d1 & Hstep & Hloop).
  destruct (Concatenation.isdisjoint seen (Node.domain child)) eqn:Hdis; [|discriminate].
  injection Hstep as <-. split; [|apply (IH _ _ Hloop)].
  exact (proj1 (isdisjoint_spec _ _) Hdis).
Qed.

(** What a successful construction (not by copy) fixes about the children:
    the domain of the node holds the domain names of the children, no name
    is in the domains of two children, and there is one dictionary of
    slices for each child, made by [create_slices]. *)
Lemma init_children {X : Type} (children : list (Symbol X)) (mesh : Mesh)
    (dc : DomainConcatenation.t X) :
  DomainConcatenation.__init__ children mesh None = Ok dc ->
  (forall d, In d (DomainConcatenation.domain dc) <->
             exists child, In child children /\ In d (Node.domain child)) /\
  (forall i j di dj x, (i < j)%nat -> nth_error (map Node.domain children) i = Some di ->
                       nth_error (map Node.domain children) j = Some dj ->
                       In x di -> ~ In x dj) /\
  Forall2 (fun child sl =>
             DomainConcatenation.create_slices
               mesh (DomainConcatenation.secondary_dimensions_npts dc) (Node.domain child)
             = Ok sl)
          children (DomainConcatenation.children_slices dc).
Proof.
  intros Hinit. unfold DomainConcatenation.__init__ in Hinit.
  apply bind_ok in Hinit. destruct Hinit as ([domain0 aux] & Hbase & Hinit).
  apply bind_ok in Hinit. destruct Hinit as (dd & Hdd & Hinit).
  unfold Concatenation.__init__ in Hbase.
  apply bind_ok in Hbase. destruct Hbase as (domain1 & Hdomains & Hbase).
  apply bind_ok in Hbase. destruct Hbase as (aux1 & _ & Hbase). injection Hbase as -> ->.
  pose proof (get_children_domains_disjoint _ _ _ Hdomains) as Hdis.
  apply get_children_domains_ok in Hdomains. cbn [app] in Hdomains.
  destruct (domain_dict_entries mesh domain0 _ _ Hdd) as [_ Hkeys];
    [intros d i H; discriminate H|].
  pose proof (sorted_perm (DomainConcatenation.domain_dict_getitem dd) (Dict.keys dd)) as Hperm.
  destruct (sorted (DomainConcatenation.domain_dict_getitem dd) (Dict.keys dd))
    as [|dom0 doms'] eqn:Hsorted; [discriminate|].
  apply bind_ok in Hinit. destruct Hinit as (submesh_list & _ & Hinit).
  apply bind_ok in Hinit. destruct Hinit as (sl & _ & Hinit).
  apply bind_ok in Hinit. destruct Hinit as (last_dom & _ & Hinit).
  apply bind_ok in Hinit. destruct Hinit as (last_slice & _ & Hinit).
  apply bind_ok in Hinit. destruct Hinit as (children_slices & Hcs & Hinit).
  injection Hinit as <-. cbn [DomainConcatenation.domain
    DomainConcatenation.secondary_dimensions_npts DomainConcatenation.children_slices].
  split; [|split].
  - intros d. split.
    + intros H. apply (Permutation_in _ Hperm) in H. apply Hkeys in H.
      destruct H as [[]|H]. rewrite Hdomains in H. apply in_concat in H.
      destruct H as (l & Hl & Hd). apply in_map_iff in Hl. destruct Hl as (child & <- & Hchild).
      exists child. split; assumption.
    + intros (child & Hchild & Hd). apply (Permutation_in _ (Permutation_sym Hperm)).
      apply Hkeys. right. rewrite Hdomains. apply in_concat. exists (Node.domain child).
      split; [apply in_map; exact Hchild | exact Hd].
  - apply domains_disjoint_pairwise in Hdis. exact (proj2 Hdis).
  - apply map_result_forall2 in Hcs. exact Hcs.
Qed.

Section EvaluateLayout.
Variable X : Type.
Variable children : list (Symbol X).
Variable mesh : Mesh.
Variable dc : DomainConcatenation.t X.
Variable children_eval : list (list X).
Hypothesis Hinit : DomainConcatenation.__init__ children mesh None = Ok dc.
Hypothesis Hdistinct : Forall (fun child => NoDup (Node.domain child)) children.
Hypothesis Hshapes :
  Forall2 (fun child v =>
             Z.of_nat (length v)
             = rows_sum mesh (Node.domain child) (DomainConcatenation.secondary_dimensions_npts dc))
          children children_eval.

(** A position is assigned at most one entry. *)
Lemma assigned_once (p : nat) (x x' : X) :
  assigned mesh (DomainConcatenation.domain dc) (DomainConcatenation.secondary_dimensions_npts dc)
           children children_eval p x ->
  assigned mesh (DomainConcatenation.domain dc) (DomainConcatenation.secondary_dimensions_npts dc)
           children children_eval p x' ->
  x = x'.
Proof.
  intros (j & child & v & q & d & k & i & r & Hj & Hv & Hq & Hk & Hi & Hr & Hp & Hx)
         (j' & child' & v' & q' & d' & k' & i' & r' & Hj' & Hv' & Hq' & Hk' & Hi' & Hr' & Hp' & Hx').
  destruct (init_children _ _ _ Hinit) as (_ & Hpair & _).
  destruct (offsets_apart mesh _ _ _ _ _ _ _ _ _ Hk Hk' Hr Hr') as (<- & <- & <-); [lia|].
  assert (d' = d) by congruence. subst d'.
  assert (Hjj : j = j').
  { destruct (Nat.lt_trichotomy j j') as [Hlt|[Heq|Hgt]]; [|exact Heq|]; exfalso.
    - apply (Hpair j j' (Node.domain child) (Node.domain child') d Hlt).
      + rewrite nth_error_map, Hj. reflexivity.
      + rewrite nth_error_map, Hj'. reflexivity.
      + apply (nth_error_In _ _ Hq).
      + apply (nth_error_In _ _ Hq').
    - apply (Hpair j' j (Node.domain child') (Node.domain child) d Hgt).
      + rewrite nth_error_map, Hj'. reflexivity.
      + rewrite nth_error_map, Hj. reflexivity.
      + apply (nth_error_In _ _ Hq').
      + apply (nth_error_In _ _ Hq). }
  subst j'. assert (child' = child) by congruence. subst child'.
  assert (v' = v) by congruence. subst v'.
  assert (Hqq : q = q').
  { rewrite Forall_forall in Hdistinct.
    apply (proj1 (NoDup_nth_error (Node.domain child))
                 (Hdistinct child (nth_error_In _ _ Hj))).
    - apply nth_error_Some. congruence.
    - congruence. }
  subst q'. congruence.
Qed.

(** The innermost assignment succeeds and writes the slice of its domain
    at its secondary index, with the entries assigned to it. *)
Lemma scatter_step (j : nat) (child : Symbol X) (v : list X) (q : nat) (d : string) (i : nat)
    (vector : list (option X)) :
  nth_error children j = Some child ->
  nth_error children_eval j = Some v ->
  nth_error (Node.domain child) q = Some d ->
  (i < DomainConcatenation.secondary_dimensions_npts dc)%nat ->
  only_assigned mesh (DomainConcatenation.domain dc)
                (DomainConcatenation.secondary_dimensions_npts dc)
                children children_eval (DomainConcatenation.size dc) vector ->
  exists vector',
    DomainConcatenation.scatter dc v d vector
      (i, Slice (offset mesh (Node.domain child) i q)
                (offset mesh (Node.domain child) i q + Z.of_nat (npts_at mesh d i)))
    = Ok vector' /\
    only_assigned mesh (DomainConcatenation.domain dc)
                  (DomainConcatenation.secondary_dimensions_npts dc)
                  children children_eval (DomainConcatenation.size dc) vector' /\
    keeps_written vector vector' /\
    slice_written mesh (DomainConcatenation.domain dc) d i vector'.
Proof.
  intros Hj Hv Hq Hi [Hlen Hsound].
  destruct (init_children _ _ _ Hinit) as (Hmem & _ & _).
  destruct (init_layout _ _ _ Hinit) as (_ & Hnd & _ & _ & _ & _ & Hsize).
  cbv zeta in Hnd, Hsize.
  assert (Hd : In d (DomainConcatenation.domain dc)).
  { apply Hmem. exists child. split; [apply (nth_error_In _ _ Hj) | apply (nth_error_In _ _ Hq)]. }
  apply In_nth_error in Hd. destruct Hd as [k Hk].
  pose proof (init_slice_at _ _ _ i k d Hinit Hk) as Htarget.
  destruct (Nat.ltb_spec i (DomainConcatenation.secondary_dimensions_npts dc)); [|lia].
  destruct (forall2_nth_error_l _ _ _ Hshapes _ _ Hj) as (v0 & Hv0 & Hshape).
  assert (v0 = v) by congruence. subst v0.
  destruct (slice_in_range mesh (DomainConcatenation.domain dc) _ i k d Hi Hk) as [Hlo Hhi].
  destruct (slice_in_range mesh (Node.domain child) _ i q d Hi Hq) as [Hclo Hchi].
  set (target := Slice (offset mesh (DomainConcatenation.domain dc) i k)
                       (offset mesh (DomainConcatenation.domain dc) i k
                        + Z.of_nat (npts_at mesh d i))) in *.
  set (source := Slice (offset mesh (Node.domain child) i q)
                       (offset mesh (Node.domain child) i q + Z.of_nat (npts_at mesh d i))).
  destruct (getslice_fits v source) as [Hrhs_len Hrhs]; cbn [start stop source]; try lia.
  cbn [start stop source] in Hrhs_len, Hrhs.
  destruct (setslice_array_fits vector target (getslice v source))
    as (vector' & Hset & Hlen' & Hnth); cbn [start stop target]; try lia.
  cbn [start stop target] in Hnth.
  assert (Hin : forall r, (r < npts_at mesh d i)%nat ->
                          exists y,
                            nth_error vector'
                              (Z.to_nat (offset mesh (DomainConcatenation.domain dc) i k) + r)
                            = Some (Some y)).
  { intros r Hr. rewrite Hnth.
    destruct (Z.leb_spec (offset mesh (DomainConcatenation.domain dc) i k)
                (Z.of_nat (Z.to_nat (offset mesh (DomainConcatenation.domain dc) i k) + r)));
      [|lia].
    destruct (Z.ltb_spec
                (Z.of_nat (Z.to_nat (offset mesh (DomainConcatenation.domain dc) i k) + r))
                (offset mesh (DomainConcatenation.domain dc) i k
                 + Z.of_nat (npts_at mesh d i))); [|lia].
    cbn [andb]. replace (Z.to_nat (offset mesh (DomainConcatenation.domain dc) i k) + r
                         - Z.to_nat (offset mesh (DomainConcatenation.domain dc) i k))%nat
      with r by lia.
    destruct (nth_error (getslice v source) r) as [y|] eqn:Hy.
    - exists y. reflexivity.
    - apply nth_error_None in Hy. lia. }
  exists vector'. split; [|split; [|split]].
  - unfold DomainConcatenation.scatter, getitem. cbn [fst snd]. rewrite Htarget. cbn [bind].
    exact Hset.
  - split; [congruence|]. intros p y Hp. rewrite Hnth in Hp.
    destruct ((offset mesh (DomainConcatenation.domain dc) i k <=? Z.of_nat p)
              && (Z.of_nat p <? offset mesh (DomainConcatenation.domain dc) i k
                                + Z.of_nat (npts_at mesh d i))) eqn:Hcase.
    + apply andb_true_iff in Hcase. destruct Hcase as [H1 H2].
      apply Z.leb_le in H1. apply Z.ltb_lt in H2.
      set (r := (p - Z.to_nat (offset mesh (DomainConcatenation.domain dc) i k))%nat) in *.
      destruct (nth_error (getslice v source) r) as [y0|] eqn:Hy; [|discriminate].
      cbn [option_map] in Hp. injection Hp as ->.
      rewrite Hrhs in Hy by (unfold r; lia).
      exists j, child, v, q, d, k, i, r.
      repeat split; try assumption; unfold r; lia.
    + apply Hsound, Hp.
  - intros p [y Hy]. unfold written. rewrite Hnth.
    destruct ((offset mesh (DomainConcatenation.domain dc) i k <=? Z.of_nat p)
              && (Z.of_nat p <? offset mesh (DomainConcatenation.domain dc) i k
                                + Z.of_nat (npts_at mesh d i))) eqn:Hcase.
    + apply andb_true_iff in Hcase. destruct Hcase as [H1 H2].
      apply Z.leb_le in H1. apply Z.ltb_lt in H2.
      destruct (nth_error (getslice v source)
                  (p - Z.to_nat (offset mesh (DomainConcatenation.domain dc) i k))) as [y0|] eqn:Hy0.
      * exists y0. reflexivity.
      * apply nth_error_None in Hy0. lia.
    + exists y. exact Hy.
  - intros k' r Hk' Hr.
    assert (k' = k).
    { apply (proj1 (NoDup_nth_error _) Hnd); [apply nth_error_Some; congruence | congruence]. }
    subst k'. apply Hin, Hr.
Qed.

Lemma keeps_written_refl (a : list (option X)) : keeps_written a a.
Proof. intros p H. exact H. Qed.

Lemma keeps_written_trans (a b c : list (option X)) :
  keeps_written a b -> keeps_written b c -> keeps_written a c.
Proof. intros Hab Hbc p H. apply Hbc, Hab, H. Qed.

(** The loop over the slices of one domain of a child. *)
Lemma item_step (j : nat) (child : Symbol X) (v : list X) (sl : sdict (list slice))
    (item : string * list slice) (vector : list (option X)) :
  nth_error children j = Some child ->
  nth_error children_eval j = Some v ->
  DomainConcatenation.create_slices
    mesh (DomainConcatenation.secondary_dimensions_npts dc) (Node.domain child) = Ok sl ->
  In item (Dict.items sl) ->
  only_assigned mesh (DomainConcatenation.domain dc)
                (DomainConcatenation.secondary_dimensions_npts dc)
                children children_eval (DomainConcatenation.size dc) vector ->
  exists vector',
    for_each (DomainConcatenation.scatter dc v (fst item))
             (combine (seq 0 (length (snd item))) (snd item)) vector = Ok vector' /\
    only_assigned mesh (DomainConcatenation.domain dc)
                  (DomainConcatenation.secondary_dimensions_npts dc)
                  children children_eval (DomainConcatenation.size dc) vector' /\
    keeps_written vector vector' /\
    forall il, In il (combine (seq 0 (length (snd item))) (snd item)) ->
               slice_written mesh (DomainConcatenation.domain dc) (fst item) (fst il) vector'.
Proof.
  intros Hj Hv Hcs Hitem Hvector. destruct item as [d lst]. cbn [fst snd].
  destruct (init_layout _ _ _ Hinit) as (_ & _ & _ & Hn & _). cbv zeta in Hn.
  assert (Hnd : NoDup (Node.domain child)).
  { rewrite Forall_forall in Hdistinct. apply Hdistinct, (nth_error_In _ _ Hj). }
  apply (create_slices_items _ _ _ _ Hnd Hn Hcs) in Hitem. destruct Hitem as (q & Hq & ->).
  apply (for_each_progress
           (only_assigned mesh (DomainConcatenation.domain dc)
                          (DomainConcatenation.secondary_dimensions_npts dc)
                          children children_eval (DomainConcatenation.size dc))
           (@keeps_written X)
           (fun (il : nat * slice) st =>
              slice_written mesh (DomainConcatenation.domain dc) d (fst il) st)).
  - apply keeps_written_refl.
  - apply keeps_written_trans.
  - intros il a b Hc Hg k r Hk Hr. apply Hg, Hc; assumption.
  - intros [i ls] st Hin Hst. apply in_enumerate in Hin. rewrite expected_slices_nth in Hin.
    destruct (Nat.ltb_spec i (DomainConcatenation.secondary_dimensions_npts dc));
      [|discriminate].
    injection Hin as <-. cbn [fst]. apply (scatter_step j child v q d i st); assumption.
  - exact Hvector.
Qed.

(** The loop over the domains of one child. *)
Lemma child_step (cs : list X * sdict (list slice)) (vector : list (option X)) :
  In cs (combine children_eval (DomainConcatenation.children_slices dc)) ->
  only_assigned mesh (DomainConcatenation.domain dc)
                (DomainConcatenation.secondary_dimensions_npts dc)
                children children_eval (DomainConcatenation.size dc) vector ->
  exists vector',
    for_each
      (fun vector (item : string * list slice) =>
         for_each (DomainConcatenation.scatter dc (fst cs) (fst item))
                  (combine (seq 0 (length (snd item))) (snd item)) vector)
      (Dict.items (snd cs)) vector = Ok vector' /\
    only_assigned mesh (DomainConcatenation.domain dc)
                  (DomainConcatenation.secondary_dimensions_npts dc)
                  children children_eval (DomainConcatenation.size dc) vector' /\
    keeps_written vector vector' /\
    forall item, In item (Dict.items (snd cs)) ->
      forall il, In il (combine (seq 0 (length (snd item))) (snd item)) ->
                 slice_written mesh (DomainConcatenation.domain dc) (fst item) (fst il) vector'.
Proof.
  intros Hcs Hvector. destruct cs as [v sl]. cbn [fst snd].
  apply in_combine_nth_error in Hcs. destruct Hcs as (j & Hv & Hsl).
  destruct (init_children _ _ _ Hinit) as (_ & _ & Hslices).
  destruct (forall2_nth_error_r _ _ _ Hslices _ _ Hsl) as (child & Hj & Hcreate).
  apply (for_each_progress
           (only_assigned mesh (DomainConcatenation.domain dc)
                          (DomainConcatenation.secondary_dimensions_npts dc)
                          children children_eval (DomainConcatenation.size dc))
           (@keeps_written X)
           (fun (item : string * list slice) st =>
              forall il, In il (combine (seq 0 (length (snd item))) (snd item)) ->
                         slice_written mesh (DomainConcatenation.domain dc)
                                       (fst item) (fst il) st)).
  - apply keeps_written_refl.
  - apply keeps_written_trans.
  - intros item a b Hc Hg il Hil k r Hk Hr. apply Hg, (Hc il Hil); assumption.
  - intros item st Hitem Hst. apply (item_step j child v sl item st); assumption.
  - exact Hvector.
Qed.
End EvaluateLayout.

(** The three loops of [_concatenation_evaluate] on a constructed node. *)
Lemma concatenation_evaluate_layout :
  forall (X : Type) (children : list (Symbol X)) (mesh : Mesh) (dc : DomainConcatenation.t X)
         (children_eval : list (list X)),
    let doms := DomainConcatenation.domain dc in
    let n := DomainConcatenation.secondary_dimensions_npts dc in
    DomainConcatenation.__init__ children mesh None = Ok dc ->
    Forall (fun child => NoDup (Node.domain child)) children ->
    Forall2 (fun child v => Z.of_nat (length v) = rows_sum mesh (Node.domain child) n)
            children children_eval ->
    exists out,
      DomainConcatenation._concatenation_evaluate dc children_eval = Ok out /\
      Z.of_nat (length out) = DomainConcatenation.size dc /\
      (forall p, (p < length out)%nat ->
                 exists x, assigned mesh doms n children children_eval p x) /\
      (forall p x, assigned mesh doms n children children_eval p x ->
                   nth_error out p = Some (Some x)).
Proof.
  intros X children mesh dc children_eval doms n Hinit Hdistinct Hshapes.
  destruct (init_layout _ _ _ Hinit) as (_ & Hnd & _ & Hn & _ & _ & Hsize).
  destruct (init_children _ _ _ Hinit) as (Hmem & _ & Hslices).
  fold doms in Hnd, Hsize, Hmem. fold n in Hn, Hsize, Hslices. cbv zeta in Hnd, Hn, Hsize.
  pose proof (rows_sum_nonneg mesh doms n) as Hnonneg.
  unfold DomainConcatenation._concatenation_evaluate, np_empty.
  destruct (Z.ltb_spec (DomainConcatenation.size dc) 0); [lia|]. cbn [bind].
  destruct (for_each_progress
              (only_assigned mesh doms n children children_eval (DomainConcatenation.size dc))
              (@keeps_written X)
              (fun (cs : list X * sdict (list slice)) st =>
                 forall item, In item (Dict.items (snd cs)) ->
                   forall il, In il (combine (seq 0 (length (snd item))) (snd item)) ->
                              slice_written mesh doms (fst item) (fst il) st)
              (fun vector (cs : list X * sdict (list slice)) =>
                 for_each
                   (fun vector (item : string * list slice) =>
                      for_each (DomainConcatenation.scatter dc (fst cs) (fst item))
                               (combine (seq 0 (length (snd item))) (snd item)) vector)
                   (Dict.items (snd cs)) vector)
              (combine children_eval (DomainConcatenation.children_slices dc)))
    with (st := repeat (@None X) (Z.to_nat (DomainConcatenation.size dc)))
    as (out & Hloop & [Hlen Hsound] & _ & Hcover).
  - apply keeps_written_refl.
  - apply keeps_written_trans.
  - intros cs a b Hc Hg item Hitem il Hil k r Hk Hr. apply Hg, (Hc item Hitem il Hil); assumption.
  - intros cs st Hcs Hst.
    apply (child_step X children mesh dc children_eval Hinit Hdistinct Hshapes cs st);
      assumption.
  - split; [apply repeat_length|]. intros p y Hp. apply nth_error_In, repeat_spec in Hp.
    discriminate.
  - exists out. split; [exact Hloop|]. split; [lia|].
    assert (Hwritten : forall p x, assigned mesh doms n children children_eval p x ->
                                   nth_error out p = Some (Some x)).
    { intros p x Hassigned.
      pose proof Hassigned
        as (j & child & v & q & d & k & i & r & Hj & Hv & Hq & Hk & Hi & Hr & Hp & Hx).
      destruct (forall2_nth_error_l _ _ _ Hslices _ _ Hj) as (sl & Hsl & Hcreate).
      assert (Hchild : NoDup (Node.domain child)).
      { rewrite Forall_forall in Hdistinct. apply Hdistinct, (nth_error_In _ _ Hj). }
      assert (Hcs : In (v, sl) (combine children_eval (DomainConcatenation.children_slices dc))).
      { apply in_combine_nth_error. exists j. split; assumption. }
      assert (Hitem : In (d, expected_slices mesh (Node.domain child) q d n) (Dict.items sl)).
      { apply (create_slices_items _ _ _ _ Hchild Hn Hcreate). exists q.
        split; [exact Hq | reflexivity]. }
      assert (Hil : In (i, Slice (offset mesh (Node.domain child) i q)
                                 (offset mesh (Node.domain child) i q
                                  + Z.of_nat (npts_at mesh d i)))
                       (combine (seq 0 (length (expected_slices mesh (Node.domain child) q d n)))
                                (expected_slices mesh (Node.domain child) q d n))).
      { apply in_enumerate. rewrite expected_slices_nth.
        destruct (Nat.ltb_spec i n); [reflexivity | lia]. }
      destruct (Hcover _ Hcs _ Hitem _ Hil k r Hk Hr) as [y Hy]. cbn [fst snd] in Hy.
      destruct (slice_in_range mesh doms n i k d Hi Hk) as [Hlo _].
      replace (Z.to_nat (offset mesh doms i k) + r)%nat with p in Hy by lia.
      rewrite Hy. do 2 f_equal.
      apply (assigned_once X children mesh dc children_eval Hinit Hdistinct p y x);
        [apply Hsound, Hy | exact Hassigned]. }
    split; [|exact Hwritten].
    intros p Hp.
    destruct (rows_decompose mesh doms n (Z.of_nat p)) as (i & k & d & r & Hi & Hk & Hr & Heq);
      [lia|].
    assert (Hd : In d doms) by apply (nth_error_In _ _ Hk).
    apply Hmem in Hd. destruct Hd as (child & Hchild & Hd).
    apply In_nth_error in Hchild. destruct Hchild as [j Hj].
    apply In_nth_error in Hd. destruct Hd as [q Hq].
    destruct (forall2_nth_error_l _ _ _ Hshapes _ _ Hj) as (v & Hv & Hshape).
    destruct (slice_in_range mesh (Node.domain child) n i q d Hi Hq) as [Hclo Hchi].
    destruct (nth_error v (Z.to_nat (offset mesh (Node.domain child) i q) + r)) as [x|] eqn:Hx.
    + exists x, j, child, v, q, d, k, i, r. repeat split; assumption.
    + apply nth_error_None in Hx. lia.
Qed.

(** X13.  Evaluation of a constructed DomainConcatenation.  When the
    domain names of each child are distinct and each child's vector has as
    many rows as its domains have points over the secondary indices,
    [_concatenation_evaluate] succeeds; its result has [size] rows, none is
    left as [np.empty] made it, and each row holds the entry of a child's
    vector that the layouts match with it: the [r]-th row of the output
    slice of a domain at a secondary index holds the [r]-th row of the
    slice that the child with this domain has for it at this index. *)
Theorem concatenation_evaluate_fills_the_output :
  forall (X : Type) (children : list (Symbol X)) (mesh : Mesh) (dc : DomainConcatenation.t X)
         (children_eval : list (list X)),
    let doms := DomainConcatenation.domain dc in
    let n := DomainConcatenation.secondary_dimensions_npts dc in
    DomainConcatenation.__init__ children mesh None = Ok dc ->
    Forall (fun child => NoDup (Node.domain child)) children ->
    Forall2 (fun child v => Z.of_nat (length v) = rows_sum mesh (Node.domain child) n)
            children children_eval ->
    exists out,
      DomainConcatenation._concatenation_evaluate dc children_eval = Ok out /\
      Z.of_nat (length out) = DomainConcatenation.size dc /\
      (forall p, (p < length out)%nat ->
                 exists x, assigned mesh doms n children children_eval p x) /\
      (forall p x, assigned mesh doms n children children_eval p x ->
                   nth_error out p = Some (Some x)).
Proof.
  intros X children mesh dc children_eval doms n Hinit Hdistinct Hshapes.
  destruct (concatenation_evaluate_layout X children mesh dc children_eval
              Hinit Hdistinct Hshapes) as (out & Hout & Hsize & Hall & Hassigned).
  exists out. split; [exact Hout|]. split; [exact Hsize|]. split; [exact Hall | exact Hassigned].
Qed.

(** An instance: a child on A and a child on B over two secondary indices. *)
Lemma concatenation_evaluate_fills_the_output_witness :
  exists out,
    DomainConcatenation._concatenation_evaluate dc_two_by_two [[1; 2; 3; 4]; [5; 6]] = Ok out /\
    Z.of_nat (length out) = 6.
Proof.
  destruct (concatenation_evaluate_fills_the_output Z
              [constant_child 1 "A" [1; 2; 3; 4]; constant_child 2 "B" [5; 6]]
              mesh_two_by_two dc_two_by_two [[1; 2; 3; 4]; [5; 6]])
    as (out & Hout & Hlen & _).
  - reflexivity.
  - repeat constructor; intros [].
  - repeat constructor.
  - exists out. split; [exact Hout | exact Hlen].
Defined.

(** ** [DomainConcatenation._jac] *)

Lemma create_slices_keys_perm (mesh : Mesh) (n : nat) (doms : list string)
    (sl : sdict (list slice)) :
  NoDup doms -> (0 < n)%nat ->
  DomainConcatenation.create_slices mesh n doms = Ok sl ->
  Permutation (Dict.keys sl) doms.
Proof.
  intros Hnd Hn Hcs. apply NoDup_Permutation.
  - apply (create_slices_keys_NoDup _ _ _ _ Hcs).
  - exact Hnd.
  - intros d. unfold Dict.keys. rewrite in_map_iff. split.
    + intros ([d' lst] & <- & Hin). apply (create_slices_items _ _ _ _ Hnd Hn Hcs) in Hin.
      destruct Hin as (q & Hq & _). apply (nth_error_In _ _ Hq).
    + intros Hd. apply In_nth_error in Hd. destruct Hd as [q Hq].
      exists (d, expected_slices mesh doms q d n). split; [reflexivity|].
      apply (create_slices_items _ _ _ _ Hnd Hn Hcs). exists q. split; [exact Hq | reflexivity].
Qed.

(** The dictionary of slices of a node with one domain. *)
Lemma single_domain_slices (mesh : Mesh) (n : nat) (d : string) (sl : sdict (list slice)) :
  (0 < n)%nat ->
  DomainConcatenation.create_slices mesh n [d] = Ok sl ->
  sl = [(d, expected_slices mesh [d] 0 d n)].
Proof.
  intros Hn Hcs.
  assert (Hnd : NoDup [d]) by (constructor; [intros [] | constructor]).
  pose proof (Permutation_length (create_slices_keys_perm _ _ _ _ Hnd Hn Hcs)) as Hlen.
  unfold Dict.keys in Hlen. rewrite length_map in Hlen.
  destruct sl as [|[k v] [|? ?]]; try discriminate Hlen.
  destruct (proj1 (create_slices_items _ _ _ _ Hnd Hn Hcs k v)) as (q & Hq & ->);
    [left; reflexivity|].
  destruct q as [|[|q]]; cbn [nth_error] in Hq; try discriminate.
  injection Hq as <-. reflexivity.
Qed.

(** One turn of the outer loop of [_jac]. *)
Lemma jac_row {X J : Type} (mesh : Mesh) (n i : nat) (children : list (Symbol X))
    (slices : list (sdict (list slice))) :
  Forall2 (fun child sl => DomainConcatenation.create_slices mesh n (Node.domain child) = Ok sl)
          children slices ->
  Forall (fun child => NoDup (Node.domain child)) children ->
  (i < n)%nat ->
  forall (child_jacs : list J) (jacs : list (J * slice)),
    length child_jacs = length children ->
    (Forall (fun child => length (Node.domain child) = 1%nat) children ->
     DomainConcatenation.loop (DomainConcatenation.jac_block i) (combine child_jacs slices) jacs
     = DomainConcatenation.Returns (jacs ++ jac_blocks mesh children child_jacs i)) /\
    (~ Forall (fun child => length (Node.domain child) = 1%nat) children ->
     DomainConcatenation.loop (DomainConcatenation.jac_block i) (combine child_jacs slices) jacs
     = DomainConcatenation.Raises NotImplementedError).
Proof.
  intros Hslices. induction Hslices as [|child sl children slices Hcs _ IH];
    intros Hdistinct Hi child_jacs jacs Hlen.
  - destruct child_jacs; [|discriminate]. split.
    + intros _. cbn. rewrite app_nil_r. reflexivity.
    + intros H. exfalso. apply H. constructor.
  - destruct child_jacs as [|jac child_jacs]; [discriminate|]. cbn [length] in Hlen.
    inversion Hdistinct as [|? ? Hnd Hdistinct']; subst.
    cbn [combine DomainConcatenation.loop].
    destruct (Nat.eq_dec (length (Node.domain child)) 1) as [Hone|Hmore].
    + destruct (Node.domain child) as [|d [|? ?]] eqn:Hdomain; try discriminate Hone.
      assert (Hstep : DomainConcatenation.jac_block i jacs (jac, sl)
                      = DomainConcatenation.Returns
                          (jacs ++ [(jac, Slice (offset mesh [d] i 0)
                                                (offset mesh [d] i 0
                                                 + Z.of_nat (npts_at mesh d i)))])).
      { rewrite (single_domain_slices mesh n d sl) by (try exact Hcs; lia).
        unfold DomainConcatenation.jac_block.
        cbn [fst snd Dict.items Dict.values length map Nat.ltb Nat.leb].
        unfold getitem. rewrite expected_slices_nth.
        destruct (Nat.ltb_spec i n); [reflexivity | lia]. }
      rewrite Hstep.
      destruct (IH Hdistinct' Hi child_jacs
                  (jacs ++ [(jac, Slice (offset mesh [d] i 0)
                                        (offset mesh [d] i 0 + Z.of_nat (npts_at mesh d i)))]))
        as [Hok Herr]; [lia|].
      assert (Hblock : jac_blocks mesh (child :: children) (jac :: child_jacs) i
                       = (jac, Slice (offset mesh [d] i 0)
                                     (offset mesh [d] i 0 + Z.of_nat (npts_at mesh d i)))
                           :: jac_blocks mesh children child_jacs i).
      { unfold jac_blocks. cbn [combine map fst snd]. rewrite Hdomain.
        unfold offset. cbn [firstn row_sum rows_sum]. do 3 f_equal; lia. }
      split.
      * intros Hall. rewrite (Hok (Forall_inv_tail Hall)), Hblock, <- app_assoc. reflexivity.
      * intros Hnot. apply Herr. intros Hall. apply Hnot. constructor; [|exact Hall].
        rewrite Hdomain. reflexivity.
    + split; [intros Hall; exfalso; apply Hmore, (Forall_inv Hall)|]. intros _.
      assert (Hn : (0 < n)%nat) by lia.
      pose proof (Permutation_length (create_slices_keys_perm _ _ _ _ Hnd Hn Hcs)) as Hkeys.
      unfold Dict.keys in Hkeys. rewrite length_map in Hkeys.
      assert (Hnonempty : Node.domain child <> []).
      { intros Hempty. unfold DomainConcatenation.create_slices in Hcs. rewrite Hempty in Hcs.
        discriminate Hcs. }
      unfold DomainConcatenation.jac_block. cbn [fst snd]. unfold Dict.items.
      destruct (Nat.ltb_spec 1 (length sl)); [reflexivity|].
      destruct (Node.domain child); [congruence|]. cbn [length] in *. lia.
Qed.

(** X14.  The Jacobian of a constructed DomainConcatenation whose children
    have distinct domain names each.  When every child has one domain,
    [_jac] returns, for each secondary index in turn and for each child in
    the order of the children, the child's Jacobian restricted to the rows
    the child has at this index.  When a child has more than one domain it
    raises [NotImplementedError]. *)
Theorem jac_stacks_the_blocks_of_the_children :
  forall (X J : Type) (children : list (Symbol X)) (mesh : Mesh)
         (dc : DomainConcatenation.t X) (child_jacs : list J),
    DomainConcatenation.__init__ children mesh None = Ok dc ->
    Forall (fun child => NoDup (Node.domain child)) children ->
    length child_jacs = length children ->
    (Forall (fun child => length (Node.domain child) = 1%nat) children ->
     DomainConcatenation._jac dc child_jacs
     = DomainConcatenation.Returns
         (flat_map (jac_blocks mesh children child_jacs)
                   (seq 0 (DomainConcatenation.secondary_dimensions_npts dc)))) /\
    (~ Forall (fun child => length (Node.domain child) = 1%nat) children ->
     DomainConcatenation._jac dc child_jacs = DomainConcatenation.Raises NotImplementedError).
Proof.
  intros X J children mesh dc child_jacs Hinit Hdistinct Hlen.
  destruct (init_layout _ _ _ Hinit) as (_ & _ & _ & Hn & _). cbv zeta in Hn.
  destruct (init_children _ _ _ Hinit) as (_ & _ & Hslices).
  unfold DomainConcatenation._jac.
  set (n := DomainConcatenation.secondary_dimensions_npts dc) in *. split.
  - intros Hall.
    assert (Hrows : forall len a jacs, (a + len <= n)%nat ->
              DomainConcatenation.loop
                (fun jacs i =>
                   DomainConcatenation.loop (DomainConcatenation.jac_block i)
                     (combine child_jacs (DomainConcatenation.children_slices dc)) jacs)
                (seq a len) jacs
              = DomainConcatenation.Returns
                  (jacs ++ flat_map (jac_blocks mesh children child_jacs) (seq a len))).
    { induction len as [|len IH]; intros a jacs Ha; cbn [seq DomainConcatenation.loop flat_map].
      - rewrite app_nil_r. reflexivity.
      - assert (Hi : (a < n)%nat) by lia.
        rewrite (proj1 (jac_row mesh n a children _ Hslices Hdistinct Hi child_jacs jacs Hlen)
                       Hall).
        rewrite IH by lia. rewrite app_assoc. reflexivity. }
    rewrite (Hrows n 0%nat []) by lia. reflexivity.
  - intros Hnot. destruct n as [|n']; [lia|]. cbn [seq DomainConcatenation.loop].
    assert (Hi : (0 < S n')%nat) by lia.
    rewrite (proj2 (jac_row mesh (S n') 0 children _ Hslices Hdistinct Hi child_jacs [] Hlen)
                   Hnot).
    reflexivity.
Qed.

(** An instance: a child on A and a child on B over two secondary indices. *)
Lemma jac_stacks_the_blocks_witness :
  DomainConcatenation._jac dc_two_by_two ["JA"%string; "JB"%string]
  = DomainConcatenation.Returns
      [("JA"%string, Slice 0 2); ("JB"%string, Slice 0 1);
       ("JA"%string, Slice 2 4); ("JB"%string, Slice 1 2)].
Proof.
  apply (proj1 (jac_stacks_the_blocks_of_the_children Z string
                  [constant_child 1 "A" [1; 2; 3; 4]; constant_child 2 "B" [5; 6]]
                  mesh_two_by_two dc_two_by_two ["JA"%string; "JB"%string]
                  eq_refl
                  ltac:(repeat constructor; intros [])
                  eq_refl)).
  repeat constructor.
Defined.

(** * The layout and the size of a constructed [DomainConcatenation] *)

Lemma strongly_sorted_nth {A : Type} (R : A -> A -> Prop) (l : list A) :
  StronglySorted R l ->
  forall k1 k2 a b, (k1 < k2)%nat -> nth_error l k1 = Some a -> nth_error l k2 = Some b ->
                    R a b.
Proof.
  induction 1 as [|x l Hl IH Hx]; intros k1 k2 a b Hlt H1 H2.
  - destruct k1; discriminate H1.
  - destruct k2 as [|k2]; [lia|]. cbn [nth_error] in H2. destruct k1 as [|k1].
    + cbn [nth_error] in H1. injection H1 as <-. rewrite Forall_forall in Hx.
      apply Hx, (nth_error_In _ _ H2).
    + cbn [nth_error] in H1. apply (IH k1 k2); [lia | assumption..].
Qed.

(** In a list sorted by the place in the canonical order, the places of
    two members compare as their positions in the list. *)
Lemma sorted_positions (order doms : list string) (k1 k2 : nat) (d1 d2 : string) :
  StronglySorted (fun a b => (position order a < position order b)%nat) doms ->
  nth_error doms k1 = Some d1 -> nth_error doms k2 = Some d2 ->
  (position order d1 < position order d2)%nat -> (k1 < k2)%nat.
Proof.
  intros Hsorted H1 H2 Hlt. destruct (Nat.lt_trichotomy k1 k2) as [Hk|[Hk|Hk]]; [exact Hk| |].
  - subst k2. assert (d1 = d2) by congruence. subst d2. lia.
  - pose proof (strongly_sorted_nth _ _ Hsorted k2 k1 d2 d1 Hk H2 H1) as Hgt.
    cbv beta in Hgt. lia.
Qed.

(** C1, as amended.  The global slice map of a DomainConcatenation is built
    by iterating the secondary index 0..secondary_dimensions_npts-1 and, for
    each secondary index, the domains in the mesh's canonical order, with one
    running cursor.  The domains of the node are the domain names of the
    children, listed by their place in [mesh.domain_order]; the slice of the
    [k]-th of them at secondary index [i] starts at the number of points of
    all domains at the indices below [i] plus the points of the domains
    before it at index [i], and is as long as the domain's point count at
    [i].  Consequently every slice at an earlier secondary index precedes
    every slice at a later one and, at one secondary index, the slice of a
    domain that comes earlier in the canonical order precedes the slice of
    one that comes later. *)
Theorem slices_are_secondary_index_major :
  forall (X : Type) (children : list (Symbol X)) (mesh : Mesh) (dc : DomainConcatenation.t X),
    DomainConcatenation.__init__ children mesh None = Ok dc ->
    let doms := DomainConcatenation.domain dc in
    let n := DomainConcatenation.secondary_dimensions_npts dc in
    let slices_of d := defaultdict_get (DomainConcatenation.slices dc) d in
    (forall i k d,
        (i < n)%nat -> nth_error doms k = Some d ->
        nth_error (slices_of d) i
        = Some (Slice (offset mesh doms i k)
                      (offset mesh doms i k + Z.of_nat (npts_at mesh d i)))) /\
    (forall k d, nth_error doms k = Some d -> length (slices_of d) = n) /\
    (forall i1 i2 k1 k2 d1 d2 s1 s2,
        (i1 < i2)%nat ->
        nth_error doms k1 = Some d1 -> nth_error doms k2 = Some d2 ->
        nth_error (slices_of d1) i1 = Some s1 -> nth_error (slices_of d2) i2 = Some s2 ->
        stop s1 <= start s2) /\
    (forall i k1 k2 d1 d2 s1 s2,
        (k1 < k2)%nat ->
        nth_error doms k1 = Some d1 -> nth_error doms k2 = Some d2 ->
        nth_error (slices_of d1) i = Some s1 -> nth_error (slices_of d2) i = Some s2 ->
        stop s1 <= start s2) /\
    (forall d, In d doms <-> exists child, In child children /\ In d (Node.domain child)) /\
    Forall (fun d => In d (domain_order mesh)) doms /\
    StronglySorted (fun a b => (position (domain_order mesh) a
                                < position (domain_order mesh) b)%nat) doms /\
    (forall i d1 d2 s1 s2,
        In d1 doms -> In d2 doms ->
        (position (domain_order mesh) d1 < position (domain_order mesh) d2)%nat ->
        nth_error (slices_of d1) i = Some s1 -> nth_error (slices_of d2) i = Some s2 ->
        stop s1 <= start s2).
Proof.
  intros X children mesh dc Hinit doms n slices_of.
  destruct (init_domain_canonical X children mesh None dc Hinit)
    as (Hmembers & _ & Hknown & Hsorted).
  fold doms in Hmembers, Hknown, Hsorted.
  assert (Hat : forall i k d s,
             nth_error doms k = Some d -> nth_error (slices_of d) i = Some s ->
             (i < n)%nat /\
             s = Slice (offset mesh doms i k)
                       (offset mesh doms i k + Z.of_nat (npts_at mesh d i))).
  { intros i k d s Hk Hs. unfold slices_of in Hs.
    rewrite (init_slice_at _ _ _ i k d Hinit Hk) in Hs. fold n doms in Hs.
    destruct (Nat.ltb_spec i n); [|discriminate]. injection Hs as <-. split; [lia|reflexivity]. }
  assert (Hrow : forall i k1 k2 d1 d2 s1 s2,
             (k1 < k2)%nat ->
             nth_error doms k1 = Some d1 -> nth_error doms k2 = Some d2 ->
             nth_error (slices_of d1) i = Some s1 -> nth_error (slices_of d2) i = Some s2 ->
             stop s1 <= start s2).
  { intros i k1 k2 d1 d2 s1 s2 Hlt Hk1 Hk2 Hs1 Hs2.
    destruct (Hat _ _ _ _ Hk1 Hs1) as [_ ->]. destruct (Hat _ _ _ _ Hk2 Hs2) as [_ ->].
    cbn [start stop]. rewrite <- (offset_succ _ _ _ _ _ Hk1).
    apply offset_mono. lia. }
  split; [|split; [|split; [|split; [exact Hrow|]]]].
  - intros i k d Hi Hk. unfold slices_of. rewrite (init_slice_at _ _ _ i k d Hinit Hk).
    fold n doms. destruct (Nat.ltb_spec i n); [reflexivity|lia].
  - intros k d Hk. destruct (init_layout _ _ _ Hinit) as (_ & _ & _ & _ & Hlayout & _).
    unfold slices_of. rewrite (Hlayout k d Hk). unfold expected_slices.
    rewrite length_map, length_seq. reflexivity.
  - intros i1 i2 k1 k2 d1 d2 s1 s2 Hlt Hk1 Hk2 Hs1 Hs2.
    destruct (Hat _ _ _ _ Hk1 Hs1) as [_ ->]. destruct (Hat _ _ _ _ Hk2 Hs2) as [_ ->].
    cbn [start stop]. rewrite <- (offset_succ _ _ _ _ _ Hk1).
    pose proof (offset_le_next_row mesh doms i1 (S k1)).
    pose proof (rows_sum_mono mesh doms (S i1) i2 Hlt).
    pose proof (rows_sum_le_offset mesh doms i2 k2). lia.
  - split; [exact Hmembers|]. split; [exact Hknown|]. split; [exact Hsorted|].
    intros i d1 d2 s1 s2 Hd1 Hd2 Hlt Hs1 Hs2.
    apply In_nth_error in Hd1. destruct Hd1 as [k1 Hk1].
    apply In_nth_error in Hd2. destruct Hd2 as [k2 Hk2].
    apply (Hrow i k1 k2 d1 d2 s1 s2); try assumption.
    apply (sorted_positions (domain_order mesh) doms k1 k2 d1 d2); assumption.
Qed.

(** An instance: the slice of A at secondary index 1 over [mesh_two_by_two]. *)
Lemma slices_are_secondary_index_major_witness :
  nth_error (defaultdict_get (DomainConcatenation.slices dc_two_by_two) "A") 1
  = Some (Slice 3 5).
Proof.
  apply (proj1 (slices_are_secondary_index_major Z
                  [constant_child 1 "A" [1; 2; 3; 4]; constant_child 2 "B" [5; 6]]
                  mesh_two_by_two dc_two_by_two eq_refl) 1%nat 0%nat "A"%string).
  - simpl. lia.
  - reflexivity.
Defined.

(** C1 as the specification states it fails: with the domains A and B and two
    secondary indices the layout is not domain-major, since the second slice
    of A, 3:5, comes after the first slice of B, 2:3. *)
Lemma slices_are_not_domain_major :
  DomainConcatenation.__init__
    [constant_child 1 "A" [1; 2; 3; 4]; constant_child 2 "B" [5; 6]] mesh_two_by_two None
  = Ok dc_two_by_two /\
  (1 < length (DomainConcatenation.domain dc_two_by_two))%nat /\
  (1 < DomainConcatenation.secondary_dimensions_npts dc_two_by_two)%nat /\
  ~ domain_major dc_two_by_two.
Proof.
  split; [reflexivity|]. split; [simpl; lia|]. split; [simpl; lia|].
  intros Hmajor.
  specialize (Hmajor 0%nat 1%nat "A"%string "B"%string (Slice 3 5) (Slice 2 3)).
  cbn in Hmajor.
  assert (5 <= 2); [|lia].
  apply Hmajor; auto.
Qed.


(** C8.  Over a mesh with domain_order [A, B] and one secondary index, with a
    child on A of 2 points and a child on B of 3 points, the
    DomainConcatenation has size 5 and, its children evaluating to [1, 2] and
    [3, 4, 5], evaluates to the column [1, 2, 3, 4, 5]; so it is for any
    values of the children and in whichever order the two children are
    given: the values of A come first.  In general the size of a constructed
    DomainConcatenation is the stop of the last slice of its last domain,
    the last domain being the one of the children's domains that comes last
    in the canonical order of the mesh; it is the number of points of all
    domains over all secondary indices, and the number of rows that
    evaluation returns, none of them left unwritten. *)
Theorem size_is_stop_of_last_slice :
  (DomainConcatenation.__init__
     [constant_child 1 "A" [1; 2]; constant_child 2 "B" [3; 4; 5]] mesh_A2_B3 None
   = Ok dc_A2_B3 /\
   DomainConcatenation.size dc_A2_B3 = 5 /\
   DomainConcatenation._concatenation_evaluate dc_A2_B3 [[1; 2]; [3; 4; 5]]
   = Ok [Some 1; Some 2; Some 3; Some 4; Some 5] /\
   DomainConcatenation.evaluate dc_A2_B3 None None
   = Ok [Some 1; Some 2; Some 3; Some 4; Some 5]) /\
  (forall (oid_a oid_b : nat) (a1 a2 b1 b2 b3 : Z) (children : list (Symbol Z)),
      children = [constant_child oid_a "A" [a1; a2]; constant_child oid_b "B" [b1; b2; b3]] \/
      children = [constant_child oid_b "B" [b1; b2; b3]; constant_child oid_a "A" [a1; a2]] ->
      exists dc,
        DomainConcatenation.__init__ children mesh_A2_B3 None = Ok dc /\
        DomainConcatenation.domain dc = ["A"%string; "B"%string] /\
        DomainConcatenation.size dc = 5 /\
        DomainConcatenation.evaluate dc None None
        = Ok [Some a1; Some a2; Some b1; Some b2; Some b3]) /\
  (forall (X : Type) (children : list (Symbol X)) (mesh : Mesh)
          (dc : DomainConcatenation.t X),
      DomainConcatenation.__init__ children mesh None = Ok dc ->
      exists last_dom last_slice,
        last_item (DomainConcatenation.domain dc) = Ok last_dom /\
        (exists child, In child children /\ In last_dom (Node.domain child)) /\
        (forall child d,
            In child children -> In d (Node.domain child) ->
            (position (domain_order mesh) d <= position (domain_order mesh) last_dom)%nat) /\
        last_item (defaultdict_get (DomainConcatenation.slices dc) last_dom)
        = Ok last_slice /\
        DomainConcatenation.size dc = stop last_slice /\
        DomainConcatenation.size dc
        = rows_sum mesh (DomainConcatenation.domain dc)
                   (DomainConcatenation.secondary_dimensions_npts dc) /\
        forall children_eval : list (list X),
          Forall (fun child => NoDup (Node.domain child)) children ->
          Forall2 (fun child v =>
                     Z.of_nat (length v)
                     = rows_sum mesh (Node.domain child)
                                (DomainConcatenation.secondary_dimensions_npts dc))
                  children children_eval ->
          exists out,
            DomainConcatenation._concatenation_evaluate dc children_eval = Ok out /\
            Z.of_nat (length out) = DomainConcatenation.size dc /\
            forall p, (p < length out)%nat -> written out p).
Proof.
  split; [repeat split; reflexivity|]. split.
  - intros oid_a oid_b a1 a2 b1 b2 b3 children [-> | ->];
      (eexists; split; [reflexivity|]; repeat split; reflexivity).
  - intros X children mesh dc Hinit.
    destruct (init_layout _ _ _ Hinit)
      as (_ & _ & _ & _ & _ & (last_dom & last_slice & Hlast_dom & Hlast_slice & Hstop) & Hsize).
    destruct (init_domain_canonical X children mesh None dc Hinit)
      as (Hmembers & _ & _ & Hsorted).
    exists last_dom, last_slice.
    destruct (last_item_ok_inv _ _ Hlast_dom) as [pre Hpre].
    assert (Hk : nth_error (DomainConcatenation.domain dc) (length pre) = Some last_dom).
    { rewrite Hpre, nth_error_app2, Nat.sub_diag by lia. reflexivity. }
    split; [exact Hlast_dom|]. split; [apply Hmembers, (nth_error_In _ _ Hk)|].
    split; [|split; [exact Hlast_slice|split; [exact Hstop|split; [exact Hsize|]]]].
    + intros child d Hchild Hd.
      assert (Hin : In d (DomainConcatenation.domain dc)).
      { apply Hmembers. exists child. split; assumption. }
      apply In_nth_error in Hin. destruct Hin as [k Hkd].
      assert (Hbound : (k < length (DomainConcatenation.domain dc))%nat).
      { apply nth_error_Some. congruence. }
      rewrite Hpre, length_app in Hbound. cbn [length] in Hbound.
      destruct (Nat.eq_dec k (length pre)) as [->|Hne].
      * assert (d = last_dom) by congruence. subst d. lia.
      * pose proof (strongly_sorted_nth _ _ Hsorted k (length pre) d last_dom
                      ltac:(lia) Hkd Hk) as Hlt.
        cbv beta in Hlt. lia.
    + intros children_eval Hdistinct Hshapes.
      destruct (concatenation_evaluate_layout X children mesh dc children_eval
                  Hinit Hdistinct Hshapes) as (out & Hout & Hlen & Hall & Hassigned).
      exists out. split; [exact Hout|]. split; [exact Hlen|].
      intros q Hq. destruct (Hall q Hq) as [x Hx]. exists x. apply Hassigned, Hx.
Qed.

(** An instance: the children given as B then A, with the values of the
    claim. *)
Lemma size_is_stop_of_last_slice_witness :
  exists dc,
    DomainConcatenation.__init__
      [constant_child 2 "B" [3; 4; 5]; constant_child 1 "A" [1; 2]] mesh_A2_B3 None = Ok dc /\
    DomainConcatenation.domain dc = ["A"%string; "B"%string] /\
    DomainConcatenation.size dc = 5 /\
    DomainConcatenation.evaluate dc None None = Ok [Some 1; Some 2; Some 3; Some 4; Some 5].
Proof.
  apply (proj1 (proj2 size_is_stop_of_last_slice) 1%nat 2%nat 1 2 3 4 5).
  right. reflexivity.
Defined.
